(** * Strategize: lazy resolution of self-referential records

    A shallow embedding of [strategize/lazy_resolution.py],
    [strategize/recursion_schemes.py], [strategize/util.py],
    [strategize/validators.py], the generator of
    [strategize/state_machines.py] and the contract of [example.py].

    Python objects are an inductive type [value]; a raised exception is the
    [Raise] branch of [result].  Numbers are the integers (a [bool] counts as
    the integer 0 or 1, as in Python); floating point values are outside the
    universe.  Callables stored in a [DefListAgg] are named, and their
    behaviour is given by the section variables [call] and [call_agg].  The
    iteration order of a Python [set] of field names is the section variable
    [set_order].

    A [RecRecord] is a list of named fields: its constructor takes keyword
    arguments and [__resolve__] returns itself passed as keyword arguments
    to [dict], so its keys are strings.  Records nested in a record are plain dictionaries.

    Values are immutable.  The one in-place update of the source,
    [LockedList.__fmap__] replacing the frozen draw of the object, is
    modelled on the object by [LockedList_fmap]; a pass over a record
    replaces the object by the result of the call, so the update would show
    only through a second reference to the same object, and values have no
    such references.

    Values carry no object identity.  [Range] and the deferred values,
    which Python compares by identity when they are dictionary keys, are
    taken to be a different object at every occurrence: a key of these
    classes equals no other key.  The program departs from this only when
    it makes one such object the key of two entries of one dictionary (two
    keys that are references to the same validator); the theorem on the
    keys of a mapping leaves out key images of these classes that have the
    same structure.

    A generator of the generator library is described by the values its
    draws return ([draws]) and by whether a draw can raise ([fails]).

    The two [LockedList] objects of [example.py] draw when the module is
    loaded; the contract is modelled for any two objects their constructor
    can return.  Its two predicates are the callables named by the key they
    look up. *)

From Stdlib Require Import List ZArith String Ascii Bool Lia Permutation.
Import ListNotations.
Set Warnings "-register-all".
Local Open Scope string_scope.
Local Open Scope list_scope.
Local Open Scope Z_scope.

(** ** Exceptions and results *)

Inductive exn : Type :=
| TypeError
| AttributeError
| KeyError
| Invalid
| UserError (name : string).

Inductive result (A : Type) : Type :=
| Ok (a : A)
| Raise (e : exn).

Arguments Ok {A} a.
Arguments Raise {A} e.

Definition bind {A B : Type} (m : result A) (k : A -> result B) : result B :=
  match m with
  | Ok a => k a
  | Raise e => Raise e
  end.

Notation "x <- m ;; k" := (bind m (fun x => k))
  (at level 61, m at next level, right associativity).

Definition mapM {A B : Type} (f : A -> result B) : list A -> result (list B) :=
  fix go (l : list A) : result (list B) :=
    match l with
    | [] => Ok []
    | x :: xs => y <- f x ;; ys <- go xs ;; Ok (y :: ys)
    end.

Definition is_TypeError (e : exn) : bool :=
  match e with
  | TypeError => true
  | _ => false
  end.

(** ** Python values *)

Inductive primtype : Type := TInt | TFloat | TStr | TBool.

(** [agg_func] of a [DefListAgg]: the builtin [sum] or a named callable. *)
Inductive aggfn : Type :=
| AggSum
| AggFn (name : string).

(** [item_resolver] of a [DefListAgg]: [lambda x: x] or
    [lambda x: Ref(path[1]).__resolve__(x)]. *)
Inductive item_fn : Type :=
| ItemId
| ItemRef (path : string).

(** [predicate] of a [DefListAgg]: [lambda _: True] or a named callable. *)
Inductive pred_fn : Type :=
| PredTrue
| PredFn (name : string).

Inductive value : Type :=
| PyNone
| PyBool (b : bool)
| PyInt (z : Z)
| PyStr (s : string)
| PyType (t : primtype)
| PyList (l : list value)
| PyDict (items : list (value * value))
| Schema (schema : value)
| Range (min max : value)
| Pure (val : value)
| Ref (ref : string)
| DefRef (ref : string)
| Add (terms : list value)
| Sub (to_sub_from sub_amount : value)
| DefListAgg (agg_func : aggfn) (list_ref : value)
             (item_resolver : item_fn) (predicate : pred_fn)
| Locked (l : list value)
| LockedList (the_list : list value) (_locked_draw : list value).

(** Induction over [value] with the hypotheses for the nested lists. *)
Section value_induction.
Variable P : value -> Prop.
Hypothesis HNone : P PyNone.
Hypothesis HBool : forall b, P (PyBool b).
Hypothesis HInt : forall z, P (PyInt z).
Hypothesis HStr : forall s, P (PyStr s).
Hypothesis HType : forall t, P (PyType t).
Hypothesis HList : forall l, Forall P l -> P (PyList l).
Hypothesis HDict : forall items,
    Forall (fun kv => P (fst kv) /\ P (snd kv)) items -> P (PyDict items).
Hypothesis HSchema : forall s, P s -> P (Schema s).
Hypothesis HRange : forall mn mx, P mn -> P mx -> P (Range mn mx).
Hypothesis HPure : forall v, P v -> P (Pure v).
Hypothesis HRef : forall r, P (Ref r).
Hypothesis HDefRef : forall r, P (DefRef r).
Hypothesis HAdd : forall ts, Forall P ts -> P (Add ts).
Hypothesis HSub : forall a b, P a -> P b -> P (Sub a b).
Hypothesis HAgg : forall g lr ir p, P lr -> P (DefListAgg g lr ir p).
Hypothesis HLocked : forall l, Forall P l -> P (Locked l).
Hypothesis HLockedList : forall l d,
    Forall P l -> Forall P d -> P (LockedList l d).

Fixpoint value_nested_ind (v : value) : P v :=
  let all := fix all (l : list value) : Forall P l :=
               match l with
               | [] => Forall_nil P
               | x :: xs => Forall_cons x (value_nested_ind x) (all xs)
               end in
  match v with
  | PyNone => HNone
  | PyBool b => HBool b
  | PyInt z => HInt z
  | PyStr s => HStr s
  | PyType t => HType t
  | PyList l => HList l (all l)
  | PyDict items =>
      HDict items
        ((fix allp (l : list (value * value))
            : Forall (fun kv => P (fst kv) /\ P (snd kv)) l :=
            match l with
            | [] => Forall_nil _
            | (k, w) :: xs =>
                Forall_cons (k, w)
                  (conj (value_nested_ind k) (value_nested_ind w)) (allp xs)
            end) items)
  | Schema s => HSchema s (value_nested_ind s)
  | Range mn mx => HRange mn mx (value_nested_ind mn) (value_nested_ind mx)
  | Pure w => HPure w (value_nested_ind w)
  | Ref r => HRef r
  | DefRef r => HDefRef r
  | Add ts => HAdd ts (all ts)
  | Sub a b => HSub a b (value_nested_ind a) (value_nested_ind b)
  | DefListAgg g lr ir p => HAgg g lr ir p (value_nested_ind lr)
  | Locked l => HLocked l (all l)
  | LockedList l d => HLockedList l d (all l) (all d)
  end.
End value_induction.

(** ** Primitive operations of the interpreter *)

(** The integer behind a number; a [bool] is an [int] in Python. *)
Definition as_number (v : value) : option Z :=
  match v with
  | PyInt z => Some z
  | PyBool b => Some (Z.b2z b)
  | _ => None
  end.

(** Truth value of an object, as tested by [if]. *)
Definition truthy (v : value) : bool :=
  match v with
  | PyNone => false
  | PyBool b => b
  | PyInt z => negb (z =? 0)
  | PyStr s => negb (String.eqb s "")
  | PyList l | Locked l | LockedList l _ =>
      match l with [] => false | _ => true end
  | PyDict items => match items with [] => false | _ => true end
  | _ => true
  end.

Definition primtype_eqb (a b : primtype) : bool :=
  match a, b with
  | TInt, TInt | TFloat, TFloat | TStr, TStr | TBool, TBool => true
  | _, _ => false
  end.

Definition aggfn_eqb (a b : aggfn) : bool :=
  match a, b with
  | AggSum, AggSum => true
  | AggFn x, AggFn y => String.eqb x y
  | _, _ => false
  end.

Definition item_fn_eqb (a b : item_fn) : bool :=
  match a, b with
  | ItemId, ItemId => true
  | ItemRef x, ItemRef y => String.eqb x y
  | _, _ => false
  end.

Definition pred_fn_eqb (a b : pred_fn) : bool :=
  match a, b with
  | PredTrue, PredTrue => true
  | PredFn x, PredFn y => String.eqb x y
  | _, _ => false
  end.

Definition list_eqb {A : Type} (eqb : A -> A -> bool) : list A -> list A -> bool :=
  fix go (l1 l2 : list A) : bool :=
    match l1, l2 with
    | [], [] => true
    | x :: xs, y :: ys => eqb x y && go xs ys
    | _, _ => false
    end.

(** Structural equality of objects. *)
Fixpoint value_eqb (a b : value) {struct a} : bool :=
  match a, b with
  | PyNone, PyNone => true
  | PyBool x, PyBool y => Bool.eqb x y
  | PyInt x, PyInt y => x =? y
  | PyStr x, PyStr y => String.eqb x y
  | PyType x, PyType y => primtype_eqb x y
  | PyList x, PyList y => list_eqb value_eqb x y
  | PyDict x, PyDict y =>
      (fix go (l1 l2 : list (value * value)) : bool :=
         match l1, l2 with
         | [], [] => true
         | (k1, v1) :: xs, (k2, v2) :: ys =>
             value_eqb k1 k2 && value_eqb v1 v2 && go xs ys
         | _, _ => false
         end) x y
  | Schema x, Schema y => value_eqb x y
  | Range a1 a2, Range b1 b2 => value_eqb a1 b1 && value_eqb a2 b2
  | Pure x, Pure y => value_eqb x y
  | Ref x, Ref y => String.eqb x y
  | DefRef x, DefRef y => String.eqb x y
  | Add x, Add y => list_eqb value_eqb x y
  | Sub a1 a2, Sub b1 b2 => value_eqb a1 b1 && value_eqb a2 b2
  | DefListAgg g1 l1 i1 p1, DefListAgg g2 l2 i2 p2 =>
      aggfn_eqb g1 g2 && value_eqb l1 l2 && item_fn_eqb i1 i2 && pred_fn_eqb p1 p2
  | Locked x, Locked y => list_eqb value_eqb x y
  | LockedList x1 x2, LockedList y1 y2 =>
      list_eqb value_eqb x1 y1 && list_eqb value_eqb x2 y2
  | _, _ => false
  end.

(** Lists and dictionaries (and their subclasses) are unhashable, and so
    is a [Schema], whose class defines [__eq__] and no [__hash__]. *)
Definition hashable (v : value) : bool :=
  match v with
  | PyList _ | PyDict _ | Locked _ | LockedList _ _ | Schema _ => false
  | _ => true
  end.

(** [Range] and the deferred values define neither [__eq__] nor
    [__hash__]: as dictionary keys they are compared by identity. *)
Definition by_identity (v : value) : bool :=
  match v with
  | Range _ _ | Pure _ | Ref _ | DefRef _ | Add _ | Sub _ _
  | DefListAgg _ _ _ _ => true
  | _ => false
  end.

(** Equality of dictionary keys: numbers by value ([True == 1]); [None],
    strings and types by structure.  An object compared by identity equals
    no other key: every occurrence of such an object in a value is an
    object of its own. *)
Definition key_eqb (a b : value) : bool :=
  match as_number a, as_number b with
  | Some x, Some y => x =? y
  | None, None =>
      negb (by_identity a) && negb (by_identity b) && value_eqb a b
  | _, _ => false
  end.

Definition dict_items := list (value * value).

Fixpoint dict_lookup (k : value) (items : dict_items) : option value :=
  match items with
  | [] => None
  | (k', v) :: rest => if key_eqb k' k then Some v else dict_lookup k rest
  end.

(** [d[k] = v] on the items of a dictionary: an existing key keeps its place
    (and its key object), a new key goes last. *)
Fixpoint dict_store (k v : value) (items : dict_items) : dict_items :=
  match items with
  | [] => [(k, v)]
  | (k', v') :: rest =>
      if key_eqb k' k then (k', v) :: rest else (k', v') :: dict_store k v rest
  end.

Definition dict_setitem (k v : value) (items : dict_items) : result dict_items :=
  if hashable k then Ok (dict_store k v items) else Raise TypeError.

(** [dict(pairs)] and the dictionary comprehension: entries are stored one
    after the other, a later entry overwriting an equal key. *)
Fixpoint dict_of_pairs (pairs acc : dict_items) : result dict_items :=
  match pairs with
  | [] => Ok acc
  | (k, v) :: rest => acc' <- dict_setitem k v acc ;; dict_of_pairs rest acc'
  end.

(** [d.get(k, default)]; only a mapping has the attribute [get]. *)
Definition dict_get (d k default : value) : result value :=
  match d with
  | PyDict items =>
      Ok match dict_lookup k items with
         | Some v => v
         | None => default
         end
  | _ => Raise AttributeError
  end.

(** [s.split(sep)] for a one-character separator. *)
Fixpoint split (sep : ascii) (s : string) : list string :=
  match s with
  | EmptyString => [EmptyString]
  | String c s' =>
      if Ascii.eqb c sep then EmptyString :: split sep s'
      else match split sep s' with
           | [] => [String c EmptyString]
           | w :: ws => String c w :: ws
           end
  end.

(** [s.split(sep, 1)]: at most one cut, at the first separator. *)
Fixpoint split1 (sep : ascii) (s : string) : list string :=
  match s with
  | EmptyString => [EmptyString]
  | String c s' =>
      if Ascii.eqb c sep then [EmptyString; s']
      else match split1 sep s' with
           | [] => [String c EmptyString]
           | w :: ws => String c w :: ws
           end
  end.

(** ** util.py *)

(** [lambda d, k: d.get(k, {})], on the result of the steps before it. *)
Definition get_step (acc : result value) (k : string) : result value :=
  d' <- acc ;; dict_get d' (PyStr k) (PyDict []).

(** [reduce(lambda d, k: d.get(k, {}), path.split('.'), d)] *)
Definition get_deep (d : value) (path : string) : result value :=
  fold_left get_step (split "." path) (Ok d).

(** ** lazy_resolution.py: the deferred values *)

Definition is_DeferredVal (v : value) : bool :=
  match v with
  | Pure _ | Ref _ | DefRef _ | Add _ | Sub _ _ | DefListAgg _ _ _ _ => true
  | _ => false
  end.

Definition is_Range (v : value) : bool :=
  match v with
  | Range _ _ => true
  | _ => false
  end.

(** [pure(v)]: [v if isinstance(v, DeferredVal) else Pure(v)] *)
Definition pure (v : value) : value :=
  if is_DeferredVal v then v else Pure v.

(** The constructors of [Add] and [Sub] wrap their operands with [pure]. *)
Definition Add_init (terms : list value) : value := Add (map pure terms).

Definition Sub_init (to_sub_from sub_amount : value) : value :=
  Sub (pure to_sub_from) (pure sub_amount).

(** [DefListAgg(agg_func, item_dep_ref, predicate=None)] *)
Definition DefListAgg_init (agg_func : aggfn) (item_dep_ref : string)
           (predicate : option string) : value :=
  let pred := match predicate with
              | Some p => PredFn p
              | None => PredTrue
              end in
  match split1 "." item_dep_ref with
  | [p0; p1] => DefListAgg agg_func (DefRef p0) (ItemRef p1) pred
  | _ => DefListAgg agg_func (Ref item_dep_ref) ItemId pred
  end.

(** What a [for] loop iterates over. *)
Fixpoint chars (s : string) : list value :=
  match s with
  | EmptyString => []
  | String c s' => PyStr (String c EmptyString) :: chars s'
  end.

Definition py_iter (v : value) : result (list value) :=
  match v with
  | PyList l | Locked l | LockedList l _ => Ok l
  | PyDict items => Ok (map fst items)
  | PyStr s => Ok (chars s)
  | _ => Raise TypeError
  end.

(** The builtin [sum]: the accumulator starts at the integer 0, and
    [int + x] is a type error unless [x] is a number. *)
Fixpoint sum_from (acc : Z) (xs : list value) : result Z :=
  match xs with
  | [] => Ok acc
  | x :: xs' =>
      match as_number x with
      | Some n => sum_from (acc + n) xs'
      | None => Raise TypeError
      end
  end.

Definition py_sum (xs : list value) : result value :=
  n <- sum_from 0 xs ;; Ok (PyInt n).

(** [a - b]: defined on numbers only. *)
Definition py_sub (a b : value) : result value :=
  match as_number a, as_number b with
  | Some x, Some y => Ok (PyInt (x - y))
  | _, _ => Raise TypeError
  end.

(** A generator is described by the values it yields and the exception, if
    any, that ends it. *)
Definition generator : Type := (list value * option exn)%type.

(** [sum(gen)]: each yielded value is added before the next one is asked for. *)
Definition sum_gen (g : generator) : result value :=
  n <- sum_from 0 (fst g) ;;
  match snd g with
  | None => Ok (PyInt n)
  | Some e => Raise e
  end.

(** ** Callables and set orders of the examples *)

(** A callable that raises whatever it is given. *)
Definition no_callable (name : string) (x : value) : result value :=
  Raise (UserError name).

Definition no_agg (name : string) (ys : list value) (e : option exn)
  : result value :=
  Raise (UserError name).

(** The callable named [key] is [lambda c: c[key]]. *)
Definition key_callable (key : string) (x : value) : result value :=
  match x with
  | PyDict items =>
      match dict_lookup (PyStr key) items with
      | Some v => Ok v
      | None => Raise KeyError
      end
  | _ => Raise TypeError
  end.

(** Two iteration orders a set of strings can have: the order of insertion
    and its reverse. *)
Definition field_order (l : list string) : list string := l.

Definition reversed_order (l : list string) : list string := rev l.

Section Resolution.

(** Behaviour of the named callables: [call p x] is [p(x)] and
    [call_agg f ys e] is [f(gen)] for a generator that yields [ys] and
    then stops (or raises [e]). *)
Variable call : string -> value -> result value.
Variable call_agg : string -> list value -> option exn -> result value.

Definition apply_predicate (p : pred_fn) (item : value) : result value :=
  match p with
  | PredTrue => Ok (PyBool true)
  | PredFn name => call name item
  end.

Definition apply_item_resolver (r : item_fn) (x : value) : result value :=
  match r with
  | ItemId => Ok x
  | ItemRef path => get_deep x path
  end.

Definition apply_agg (g : aggfn) (gen : generator) : result value :=
  match g with
  | AggSum => sum_gen gen
  | AggFn name => call_agg name (fst gen) (snd gen)
  end.

(** [(self.item_resolver(item) for item in items if self.predicate(item))] *)
Fixpoint genexp (p : pred_fn) (r : item_fn) (items : list value) : generator :=
  match items with
  | [] => ([], None)
  | item :: rest =>
      match apply_predicate p item with
      | Raise e => ([], Some e)
      | Ok b =>
          if truthy b then
            match apply_item_resolver r item with
            | Raise e => ([], Some e)
            | Ok x => let (xs, e) := genexp p r rest in (x :: xs, e)
            end
          else genexp p r rest
      end
  end.

(** [node.__resolve__(d)].  An object of a class without the method raises
    [AttributeError]. *)
Fixpoint resolve (d : value) (node : value) {struct node} : result value :=
  match node with
  | Pure val => Ok val
  | Ref ref => get_deep d ref
  | DefRef ref =>
      res <- get_deep d ref ;;
      if is_Range res then Ok node else Ok res
  | Add terms =>
      match (vs <- mapM (resolve d) terms ;; py_sum vs) with
      | Ok s => Ok s
      | Raise e => if is_TypeError e then Ok node else Raise e
      end
  | Sub to_sub_from sub_amount =>
      match (x <- resolve d to_sub_from ;;
             y <- resolve d sub_amount ;;
             py_sub x y) with
      | Ok res => Ok res
      | Raise _ => Ok node
      end
  | DefListAgg agg_func list_ref item_resolver predicate =>
      match (l <- resolve d list_ref ;;
             items <- py_iter l ;;
             apply_agg agg_func (genexp predicate item_resolver items)) with
      | Ok res => Ok res
      | Raise _ => Ok node
      end
  | Locked _ => Ok node
  | LockedList _ draw => Ok (Locked draw)
  | _ => Raise AttributeError
  end.

(** ** recursion_schemes.py: fmap *)

(** [{fmap(f, k): fmap(f, v) for k, v in obj.items()}] *)
Definition dict_comprehension (g : value -> result value)
  : dict_items -> dict_items -> result dict_items :=
  fix go (items acc : dict_items) : result dict_items :=
    match items with
    | [] => Ok acc
    | (k, v) :: rest =>
        k' <- g k ;; v' <- g v ;;
        acc' <- dict_setitem k' v' acc ;;
        go rest acc'
    end.

(** [fmap(f, obj)].  The first two branches are [Range.__fmap__] and
    [Locked.__fmap__]; the third is [LockedList.__fmap__], as far as its
    result goes. *)
Fixpoint fmap (f : value -> result value) (obj : value) {struct obj}
  : result value :=
  match obj with
  | Range mn mx =>
      a <- fmap f mn ;; b <- fmap f mx ;; Ok (Range a b)
  | Locked l =>
      l' <- mapM (fmap f) l ;; Ok (Locked l')
  | LockedList _ draw =>
      l' <- mapM (fmap f) draw ;; Ok (Locked l')
  | PyList l =>
      l' <- mapM (fmap f) l ;; Ok (PyList l')
  | PyDict items =>
      items' <- dict_comprehension (fmap f) items [] ;; Ok (PyDict items')
  | _ => f obj
  end.

(** ** The self-referential record *)

(** A [RecRecord] built from keyword arguments: named fields, in insertion
    order. *)
Definition record : Type := list (string * value).

Definition keys (r : record) : list string := map fst r.

(** The record seen as the mapping it is. *)
Definition as_dict (r : record) : value :=
  PyDict (map (fun kv => (PyStr (fst kv), snd kv)) r).

Fixpoint getitem (r : record) (k : string) : result value :=
  match r with
  | [] => Raise KeyError
  | (k', v) :: rest => if String.eqb k' k then Ok v else getitem rest k
  end.

Fixpoint setitem (r : record) (k : string) (v : value) : record :=
  match r with
  | [] => [(k, v)]
  | (k', v') :: rest =>
      if String.eqb k' k then (k', v) :: rest else (k', v') :: setitem rest k v
  end.

(** [lambda v: pure(v).__resolve__(self)] *)
Definition resolve_leaf (self : record) (v : value) : result value :=
  resolve (as_dict self) (pure v).

(** The [while queue] loop of [RecRecord.__resolve__]. *)
Fixpoint resolve_queue (queue : list string) (self : record) : result record :=
  match queue with
  | [] => Ok self
  | node_to_resolve :: queue' =>
      value_to_resolve <- getitem self node_to_resolve ;;
      new <- fmap (resolve_leaf self) value_to_resolve ;;
      resolve_queue queue' (setitem self node_to_resolve new)
  end.

(** Iteration order of a [set] built from the given strings.  A set holds
    each of them once, in an order of its own. *)
Variable set_order : list string -> list string.
Hypothesis set_order_perm :
  forall l, NoDup l -> Permutation l (set_order l).

(** [keys = set(self.keys()); queue = list(keys)] *)
Definition initial_queue (self : record) : list string :=
  set_order (keys self).

Definition RecRecord_resolve (self : record) : result record :=
  resolve_queue (initial_queue self) self.

(** A dictionary passed as keyword arguments to [RecRecord]: its keys have
    to be strings. *)
Definition kwargs (d : value) : result record :=
  match d with
  | PyDict items =>
      mapM (fun kv => match fst kv with
                      | PyStr s => Ok (s, snd kv)
                      | _ => Raise TypeError
                      end) items
  | _ => Raise TypeError
  end.

Definition _resolve_rec_dict (d : value) : result value :=
  self <- kwargs d ;; r <- RecRecord_resolve self ;; Ok (as_dict r).


(** ** validators.py: Range *)

(** [v <= bound] and [v >= bound] for a number [bound]: a type error unless
    [v] is a number too. *)
Definition le_number (v : value) (bound : Z) : result bool :=
  match as_number v with
  | Some n => Ok (n <=? bound)
  | None => Raise TypeError
  end.

Definition ge_number (v : value) (bound : Z) : result bool :=
  match as_number v with
  | Some n => Ok (n >=? bound)
  | None => Raise TypeError
  end.

(** [Range.__call__] of a validator whose bounds are numbers or unset
    ([None]).  [raise Invalid] names the class, so Python calls it without
    arguments to build the exception; the constructor of [Invalid] requires
    a message, and it is this call that raises, a type error. *)
Definition Range_call (min max : option Z) (v : value) : result value :=
  minres <- match min with
            | Some m => le_number v m
            | None => Ok true
            end ;;
  maxres <- match max with
            | Some m => ge_number v m
            | None => Ok true
            end ;;
  if negb minres && maxres then Raise TypeError else Ok v.

(** The predicate the specification gives for a [Range]. *)
Definition violates_bounds (min max : option Z) (n : Z) : Prop :=
  (exists m, min = Some m /\ n < m) \/ (exists m, max = Some m /\ n > m).

(** [v is None or isinstance(v, (int, float))], with the bound it stands
    for. *)
Definition numeric_bound (v : value) : option (option Z) :=
  match v with
  | PyNone => Some None
  | _ => match as_number v with
         | Some n => Some (Some n)
         | None => None
         end
  end.

(** ** recursion_schemes.py: strategize *)

(** The strategies of the generator library that [strategize] builds.  A
    component that is [None] stands for a call of [strategize] that
    returned no strategy. *)
Inductive strategy : Type :=
| SJust (v : value)
| SIntegers (min_value max_value : option Z)
| SFloats
| SText
| SBooleans
| SBuildsDict (strat_pairs : list (option strategy * option strategy))
| SLists (elements : list (option strategy))
| SFlatmap (s : strategy) (f : value -> result (option strategy)).

Definition Range_strategize (mn mx : value) : strategy :=
  match numeric_bound mn, numeric_bound mx with
  | Some lo, Some hi => SIntegers lo hi
  | _, _ => SJust (Range mn mx)
  end.

(** [strategize(obj)]; [None] is the value Python returns when no branch of
    the [if] chain applies. *)
Fixpoint strategize (obj : value) : option strategy :=
  match obj with
  | Pure _ | Ref _ | DefRef _ | Add _ | Sub _ _ | DefListAgg _ _ _ _ =>
      Some (SJust obj)
  | Range mn mx => Some (Range_strategize mn mx)
  | Locked _ => Some (SJust obj)
  | LockedList _ draw => Some (SJust (Locked draw))
  | Schema schema => strategize schema
  | PyBool _ | PyInt _ | PyStr _ => Some (SJust obj)
  | PyType TInt => Some (SIntegers None None)
  | PyType TFloat => Some SFloats
  | PyType TStr => Some SText
  | PyType TBool => Some SBooleans
  | PyDict items =>
      Some (SBuildsDict
              (map (fun kv => (strategize (fst kv), strategize (snd kv))) items))
  | PyList l => Some (SLists (map strategize l))
  | PyNone => None
  end.

Definition in_bounds (lo hi : option Z) (z : Z) : Prop :=
  match lo with Some a => a <= z | None => True end /\
  match hi with Some b => z <= b | None => True end.

Definition is_None (v : value) : bool :=
  match v with
  | PyNone => true
  | _ => false
  end.

(** [dict((k, v) for k, v in tuples if k is not None)] *)
Definition build_dict (tuples : dict_items) : result dict_items :=
  dict_of_pairs (filter (fun kv => negb (is_None (fst kv))) tuples) [].

(** [draws s v]: a draw from [s] returns [v].  Floats have no
    representation, so [SFloats] has no rule.  A draw can also raise, see
    [fails] below; [s.example()] makes many draws and returns one of their
    values when none of them raises. *)
Inductive draws : strategy -> value -> Prop :=
| draws_just : forall v, draws (SJust v) v
| draws_integers : forall lo hi z,
    in_bounds lo hi z -> draws (SIntegers lo hi) (PyInt z)
| draws_text : forall s, draws SText (PyStr s)
| draws_booleans : forall b, draws SBooleans (PyBool b)
| draws_builds : forall strat_pairs tuples d,
    Forall2 (fun sp kv =>
               exists sk sv, sp = (Some sk, Some sv) /\
                             draws sk (fst kv) /\ draws sv (snd kv))
            strat_pairs tuples ->
    build_dict tuples = Ok d ->
    draws (SBuildsDict strat_pairs) (PyDict d)
| draws_lists : forall elements vs,
    Forall (fun o => o <> None) elements ->
    Forall (fun v => exists s, In (Some s) elements /\ draws s v) vs ->
    draws (SLists elements) (PyList vs)
| draws_flatmap : forall s f v s' w,
    draws s v -> f v = Ok (Some s') -> draws s' w ->
    draws (SFlatmap s f) w.

(** [fails s]: a draw from [s] can raise.  The generator library rejects
    integers whose [min_value] is above their [max_value]
    ([InvalidArgument]) and an argument that is no strategy (the [None]
    that [strategize] returned); the function of [builds] can raise when
    it stores a key; the function of a [flatmap] can raise, return no
    strategy, or return one whose draw raises. *)
Inductive fails : strategy -> Prop :=
| fails_integers : forall lo hi,
    hi < lo -> fails (SIntegers (Some lo) (Some hi))
| fails_builds_missing : forall strat_pairs sp,
    In sp strat_pairs -> fst sp = None \/ snd sp = None ->
    fails (SBuildsDict strat_pairs)
| fails_builds_key : forall strat_pairs sk sv,
    In (Some sk, sv) strat_pairs -> fails sk -> fails (SBuildsDict strat_pairs)
| fails_builds_value : forall strat_pairs sk sv,
    In (sk, Some sv) strat_pairs -> fails sv -> fails (SBuildsDict strat_pairs)
| fails_builds_dict : forall strat_pairs tuples e,
    Forall2 (fun sp kv =>
               exists sk sv, sp = (Some sk, Some sv) /\
                             draws sk (fst kv) /\ draws sv (snd kv))
            strat_pairs tuples ->
    build_dict tuples = Raise e ->
    fails (SBuildsDict strat_pairs)
| fails_lists_missing : forall elements,
    In None elements -> fails (SLists elements)
| fails_lists_element : forall elements s,
    In (Some s) elements -> fails s -> fails (SLists elements)
| fails_flatmap_source : forall s f,
    fails s -> fails (SFlatmap s f)
| fails_flatmap_raise : forall s f v e,
    draws s v -> f v = Raise e -> fails (SFlatmap s f)
| fails_flatmap_none : forall s f v,
    draws s v -> f v = Ok None -> fails (SFlatmap s f)
| fails_flatmap_inner : forall s f v s',
    draws s v -> f v = Ok (Some s') -> fails s' -> fails (SFlatmap s f).

(** One round of [RecRecord.__strategize__]:
    [lambda s: strategize(_resolve_rec_dict(s))]. *)
Definition strategize_round (s : value) : result (option strategy) :=
  d <- _resolve_rec_dict s ;; Ok (strategize d).

(** [RecRecord.__strategize__]: a first pass, then eight flat-mapped
    rounds. *)
Definition RecRecord_strategize (self : record) : result strategy :=
  r <- RecRecord_resolve self ;;
  match strategize (as_dict r) with
  | Some s0 => Ok (Nat.iter 8 (fun s => SFlatmap s strategize_round) s0)
  | None => Raise AttributeError
  end.

(** [LockedList(the_list)]: the constructor freezes one example of
    [st.lists(elements=st.one_of([strategize(x) for x in self]))]. *)
Inductive LockedList_init (the_list : list value) : value -> Prop :=
| LockedList_init_draw : forall draw,
    draws (SLists (map strategize the_list)) (PyList draw) ->
    LockedList_init the_list (LockedList the_list draw).

(** The methods of a [LockedList] object, with the state of the object
    after the call. *)
Definition LockedList_resolve (self : value) : result (value * value) :=
  match self with
  | LockedList _ draw => Ok (Locked draw, self)
  | _ => Raise AttributeError
  end.

Definition LockedList_strategize (self : value) : result (strategy * value) :=
  match self with
  | LockedList _ draw => Ok (SJust (Locked draw), self)
  | _ => Raise AttributeError
  end.

Definition LockedList_fmap (f : value -> result value) (self : value)
  : result (value * value) :=
  match self with
  | LockedList the_list draw =>
      res <- mapM (fmap f) draw ;;
      Ok (Locked res, LockedList the_list res)
  | _ => Raise AttributeError
  end.

(** ** Vocabulary of the properties *)

(** Some segment of the path is looked up in a value that is not a
    mapping. *)
Fixpoint leaves_mapping (d : value) (segments : list string) : bool :=
  match segments with
  | [] => false
  | k :: ks =>
      match d with
      | PyDict items =>
          leaves_mapping match dict_lookup (PyStr k) items with
                         | Some v => v
                         | None => PyDict []
                         end ks
      | _ => true
      end
  end.

Fixpoint no_dot (s : string) : bool :=
  match s with
  | EmptyString => true
  | String c s' => negb (Ascii.eqb c ".") && no_dot s'
  end.

(** A deferred value occurs somewhere in the structure. *)
Fixpoint has_deferred (v : value) : bool :=
  match v with
  | Pure _ | Ref _ | DefRef _ | Add _ | Sub _ _ | DefListAgg _ _ _ _ => true
  | PyList l | Locked l => existsb has_deferred l
  | LockedList l d => existsb has_deferred l || existsb has_deferred d
  | PyDict items =>
      existsb (fun kv => has_deferred (fst kv) || has_deferred (snd kv)) items
  | Schema s => has_deferred s
  | Range mn mx => has_deferred mn || has_deferred mx
  | _ => false
  end.

Definition fully_resolved (r : record) : bool :=
  forallb (fun kv => negb (has_deferred (snd kv))) r.

Definition is_primitive (v : value) : bool :=
  match v with
  | PyNone | PyBool _ | PyInt _ | PyStr _ | PyType _ => true
  | _ => false
  end.

(** The reference chain over the field [names]: each field refers to the
    next one, the last one holds the literal. *)
Fixpoint chain (names : list string) (lit : value) : record :=
  match names with
  | [] => []
  | n :: rest =>
      match rest with
      | [] => [(n, lit)]
      | m :: _ => (n, Ref m) :: chain rest lit
      end
  end.

(** [rounds n r]: [n] resolution passes, one after the other. *)
Fixpoint rounds (n : nat) (r : record) : result record :=
  match n with
  | O => Ok r
  | S n' => r' <- RecRecord_resolve r ;; rounds n' r'
  end.

(** No key of the dictionary equals an earlier one. *)
Fixpoint distinct_keys (items : dict_items) : bool :=
  match items with
  | [] => true
  | (k, _) :: rest =>
      forallb (fun kv => negb (key_eqb k (fst kv))) rest && distinct_keys rest
  end.

(** Plain data: no deferred value and no [LockedList] inside, and
    dictionaries with hashable, pairwise different keys. *)
Fixpoint plain (v : value) : bool :=
  match v with
  | PyNone | PyBool _ | PyInt _ | PyStr _ | PyType _ => true
  | Schema _ => true
  | PyList l | Locked l => forallb plain l
  | Range mn mx => plain mn && plain mx
  | PyDict items =>
      forallb (fun kv => hashable (fst kv) && plain (fst kv) && plain (snd kv))
              items
      && distinct_keys items
  | _ => false
  end.

(** A schema node without cross-field references: no [Ref], [DefRef] or
    [DefListAgg]; a [Pure] holds plain data; the operands of [Add] and
    [Sub] are deferred values, as their constructors make them. *)
Fixpoint reference_free (v : value) : bool :=
  match v with
  | Ref _ | DefRef _ | DefListAgg _ _ _ _ => false
  | Pure w => plain w
  | Add ts => forallb (fun t => is_DeferredVal t && reference_free t) ts
  | Sub a b =>
      is_DeferredVal a && reference_free a && is_DeferredVal b && reference_free b
  | Range mn mx => reference_free mn && reference_free mx
  | PyList l | Locked l => forallb reference_free l
  | LockedList _ d => forallb reference_free d
  | PyDict items =>
      forallb (fun kv => reference_free (fst kv) && reference_free (snd kv)) items
  | _ => true
  end.

Definition reference_free_record (r : record) : bool :=
  forallb (fun kv => reference_free (snd kv)) r.

(** The keys of the dictionaries a pass goes through are hashable plain
    data. *)
Fixpoint plain_keys (v : value) : bool :=
  match v with
  | PyDict items =>
      forallb (fun kv => hashable (fst kv) && plain (fst kv) && plain_keys (snd kv))
              items
  | PyList l | Locked l => forallb plain_keys l
  | LockedList _ d => forallb plain_keys d
  | Range mn mx => plain_keys mn && plain_keys mx
  | _ => true
  end.

Definition plain_keys_record (r : record) : bool :=
  forallb (fun kv => plain_keys (snd kv)) r.

(** The calls a client makes on a [LockedList] and what they return. *)
Inductive ll_call : Type := CallResolve | CallStrategize.

Inductive ll_output : Type :=
| OutValue (v : value)
| OutStrategy (s : strategy).

Definition ll_step (c : ll_call) (self : value) : result (ll_output * value) :=
  match c with
  | CallResolve =>
      p <- LockedList_resolve self ;; Ok (OutValue (fst p), snd p)
  | CallStrategize =>
      p <- LockedList_strategize self ;; Ok (OutStrategy (fst p), snd p)
  end.

Fixpoint ll_run (calls : list ll_call) (self : value)
  : result (list ll_output * value) :=
  match calls with
  | [] => Ok ([], self)
  | c :: cs =>
      p <- ll_step c self ;;
      q <- ll_run cs (snd p) ;;
      Ok (fst p :: fst q, snd q)
  end.

(** The output is the frozen draw: the value itself, or a strategy whose
    only example it is. *)
Definition is_frozen_draw (draw : list value) (o : ll_output) : Prop :=
  match o with
  | OutValue v => v = Locked draw
  | OutStrategy s => forall w, draws s w <-> w = Locked draw
  end.

(** The manual sum of the sub-field [field] over the items the predicate
    holds for. *)
Definition holds (p : pred_fn) (item : value) : bool :=
  match apply_predicate p item with
  | Ok b => truthy b
  | Raise _ => false
  end.

Definition field_number (field : string) (item : value) : option Z :=
  match item with
  | PyDict items =>
      match dict_lookup (PyStr field) items with
      | Some v => as_number v
      | None => None
      end
  | _ => None
  end.

Definition amount_of (field : string) (item : value) : Z :=
  match field_number field item with
  | Some n => n
  | None => 0
  end.

Definition manual_sum (field : string) (p : pred_fn) (items : list value) : Z :=
  fold_right Z.add 0 (map (amount_of field) (filter (holds p) items)).

(** A concrete item: a mapping with a number under [field], on which the
    predicate returns. *)
Definition concrete_item (field : string) (p : pred_fn) (item : value) : Prop :=
  (exists n, field_number field item = Some n) /\
  (exists b, apply_predicate p item = Ok b).

(** No two keys that are compared by identity have the same structure:
    such keys are different objects, whatever made them. *)
Fixpoint unlike_instances (items : dict_items) : bool :=
  match items with
  | [] => true
  | (k, _) :: rest =>
      forallb (fun kv => negb (by_identity k && value_eqb k (fst kv))) rest
      && unlike_instances rest
  end.

(** The entries [(fmap(f, k), fmap(f, v))] of the entries [(k, v)]. *)
Definition mapped_entries (f : value -> result value) (items items' : dict_items)
  : Prop :=
  Forall2 (fun kv kv' => fmap f (fst kv) = Ok (fst kv') /\
                         fmap f (snd kv) = Ok (snd kv')) items items'.

(** [v] is left as it is by a pass, whatever the record. *)
Definition fixed_by_pass (v : value) : Prop :=
  forall d, fmap (fun x => resolve d (pure x)) v = Ok v.

(** A node without references that a pass leaves as it is. *)
Definition settled (v : value) : Prop :=
  reference_free v = true /\ fixed_by_pass v.

(** What a pass makes of [v] is [res], whatever the record; a value it
    returns has settled. *)
Definition outcome_of (v : value) (res : result value) : Prop :=
  (forall d, fmap (fun x => resolve d (pure x)) v = res) /\
  (forall v1, res = Ok v1 -> settled v1).

Definition settled_entry (kv : value * value) : Prop :=
  (hashable (fst kv) = true /\ settled (fst kv)) /\ settled (snd kv).

(** In the chain over [names], the field [key] holds the literal or
    refers to a field at least [d] places after it. *)
Definition at_level (names : list string) (lit : value) (d : nat)
           (key : string) (v : value) : Prop :=
  v = lit \/
  exists i j target,
    nth_error names i = Some key /\ nth_error names j = Some target /\
    v = Ref target /\ (i + d <= j)%nat.

(** The record in which every field holds the literal. *)
Definition all_literal (names : list string) (lit : value) : record :=
  map (fun n => (n, lit)) names.

(** The two-field cycle. *)
Definition cyclic_record : record := [("a", Ref "b"); ("b", Ref "a")].

(** The node of field number [i] of the chain when every reference skips
    [d] fields: a reference to field [i + d], or the literal when the chain
    ends before. *)
Definition pointing (names : list string) (lit : value) (d i : nat) : value :=
  match nth_error names (i + d) with
  | Some target => Ref target
  | None => lit
  end.

(** The record whose fields are [names], field number [i] (counted from
    [start]) holding [g i]. *)
Fixpoint tabulate (g : nat -> value) (start : nat) (names : list string)
  : record :=
  match names with
  | [] => []
  | n :: rest => (n, g start) :: tabulate g (S start) rest
  end.

Definition chain_state (names : list string) (lit : value) (d : nat) : record :=
  tabulate (pointing names lit d) 0 names.

(** In the middle of a pass in field order: the first [p] fields skip
    [d + d] fields, the others still [d]. *)
Definition half_done (names : list string) (lit : value) (d p : nat)
  : nat -> value :=
  fun i => if (i <? p)%nat then pointing names lit (d + d) i
           else pointing names lit d i.

(** ** Vocabulary of the further properties *)

Definition is_str (v : value) : bool :=
  match v with
  | PyStr _ => true
  | _ => false
  end.

(** The number an item stands for, 0 when it is none. *)
Definition number_of (v : value) : Z :=
  match as_number v with
  | Some n => n
  | None => 0
  end.

(** No [LockedList] inside, and dictionaries with hashable, pairwise
    different keys. *)
Fixpoint regular (v : value) : bool :=
  match v with
  | LockedList _ _ => false
  | PyList l | Locked l => forallb regular l
  | Range mn mx => regular mn && regular mx
  | PyDict items =>
      forallb (fun kv => hashable (fst kv) && regular (fst kv) && regular (snd kv))
              items
      && distinct_keys items
  | _ => true
  end.

(** Concrete data: numbers, strings, frozen draws of plain data, and
    dictionaries of concrete data under pairwise different string keys. *)
Fixpoint concrete (v : value) : bool :=
  match v with
  | PyBool _ | PyInt _ | PyStr _ => true
  | Locked l => forallb plain l
  | PyDict items =>
      forallb (fun kv => is_str (fst kv) && concrete (snd kv)) items
      && distinct_keys items
  | _ => false
  end.

Definition concrete_record (r : record) : bool :=
  forallb (fun kv => concrete (snd kv)) r.

(** ** state_machines.py *)

(** What [strategize] is called on at the top: a [RecRecord] or any other
    object. *)
Inductive node : Type :=
| RecRecordNode (r : record)
| ValueNode (v : value).

Definition strategize_node (n : node) : result (option strategy) :=
  match n with
  | RecRecordNode r => s <- RecRecord_strategize r ;; Ok (Some s)
  | ValueNode v => Ok (strategize v)
  end.

(** [SMInputContract.__strategize__]; [event_schema] is [None] for a
    creator. *)
Definition SMInputContract_strategize (state_schema : node) (event_schema : value)
  : result (option strategy) :=
  state_schema_strat <- strategize_node state_schema ;;
  if is_None event_schema then Ok state_schema_strat
  else
    match state_schema_strat with
    | Some st =>
        Ok (Some (SFlatmap st
                    (fun s => strategize_node
                                (RecRecordNode [("init_state", s);
                                                ("event", event_schema)]))))
    | None => Raise AttributeError
    end.

(** ** example.py *)

Definition payment_schema : list value :=
  [PyDict [(PyStr "amount", Range (PyInt 4) (PyInt 5));
           (PyStr "payment_status", PyType TBool)]].

Definition charge_schema : list value :=
  [PyDict [(PyStr "amount", Range (PyInt 10) (PyInt 20));
           (PyStr "charge_status", PyType TBool)]].

(** The [balance] field.  The two predicates, [lambda c: c['charge_status']]
    and [lambda p: p['payment_status']], are the callables named
    [charge_status] and [payment_status]. *)
Definition balance_node : value :=
  Sub_init (DefListAgg_init AggSum "charges.amount" (Some "charge_status"))
           (DefListAgg_init AggSum "payments.amount" (Some "payment_status")).

(** The state schema, for the two [LockedList] objects that the module
    constructs. *)
Definition credit_state_schema (payments charges : value) : record :=
  [("payments", payments); ("charges", charges); ("balance", balance_node)].

Definition credit_event_schema : value :=
  PyDict [(PyStr "amount", Range PyNone (Ref "init_state.balance"))].

(** [strategize(test_credit_input_contract)] *)
Definition test_credit_input_contract (payments charges : value)
  : result (option strategy) :=
  SMInputContract_strategize
    (RecRecordNode (credit_state_schema payments charges)) credit_event_schema.

(** An element drawn for a list of [{field: Range(lo, hi), status: bool}]. *)
Definition drawn_item (field status : string) (lo hi : Z) (it : value) : Prop :=
  exists n b,
    it = PyDict [(PyStr field, PyInt n); (PyStr status, PyBool b)] /\
    lo <= n <= hi.

(** Selected charges minus selected payments. *)
Definition credit_balance (charges payments : list value) : Z :=
  manual_sum "amount" (PredFn "charge_status") charges
  - manual_sum "amount" (PredFn "payment_status") payments.

(** What a field of the state schema can hold during the passes: a list
    field holds its [LockedList] object (before its step only) or the
    frozen draw, and the balance holds its node or its value. *)
Definition credit_field (dp dc : list value) (stepped : bool)
           (k : string) (v : value) : Prop :=
  (k = "payments"%string /\
   ((stepped = false /\ v = LockedList payment_schema dp) \/ v = Locked dp)) \/
  (k = "charges"%string /\
   ((stepped = false /\ v = LockedList charge_schema dc) \/ v = Locked dc)) \/
  (k = "balance"%string /\
   (v = balance_node \/ v = PyInt (credit_balance dc dp))).

(** The state the contract generates for the draws [dp] and [dc]. *)
Definition credit_state (dp dc : list value) : record :=
  [("payments", Locked dp); ("charges", Locked dc);
   ("balance", PyInt (credit_balance dc dp))].

(** * Properties *)

(** ** Basic facts *)

Lemma bind_Ok : forall (A B : Type) (m : result A) (k : A -> result B) (b : B),
    bind m k = Ok b -> exists a, m = Ok a /\ k a = Ok b.
Proof.
  intros A B [a | e] k b H; simpl in H; [eauto | discriminate].
Qed.

Lemma mapM_Raise : forall (A B : Type) (f : A -> result B) (l : list A) (e : exn),
    mapM f l = Raise e -> exists x, In x l /\ f x = Raise e.
Proof.
  intros A B f l e. induction l as [| x xs IH]; simpl; intro H.
  - discriminate.
  - destruct (f x) as [y | e'] eqn:Hx; simpl in H.
    + destruct (mapM f xs) as [ys | e'']; simpl in H; [discriminate |].
      destruct IH as [x' [Hin Hx']]; [assumption |]. eauto.
    + inversion H; subst. eauto.
Qed.

Lemma mapM_fixed : forall (A : Type) (f : A -> result A) (l : list A),
    Forall (fun x => f x = Ok x) l -> mapM f l = Ok l.
Proof.
  intros A f l H. induction H as [| x xs Hx _ IH]; simpl.
  - reflexivity.
  - rewrite Hx. simpl. rewrite IH. reflexivity.
Qed.

Lemma key_eqb_str : forall a b, key_eqb (PyStr a) (PyStr b) = String.eqb a b.
Proof. reflexivity. Qed.

Lemma dict_lookup_as_dict : forall (r : record) (k : string),
    dict_lookup (PyStr k) (map (fun kv => (PyStr (fst kv), snd kv)) r) =
    match getitem r k with
    | Ok v => Some v
    | Raise _ => None
    end.
Proof.
  intros r k. induction r as [| [k' v] rest IH]; simpl.
  - reflexivity.
  - rewrite key_eqb_str. destruct (String.eqb k' k); [reflexivity | exact IH].
Qed.

Lemma split_no_dot : forall s, no_dot s = true -> split "." s = [s].
Proof.
  induction s as [| c s IH]; simpl; intro H.
  - reflexivity.
  - apply andb_prop in H. destruct H as [Hc Hs].
    destruct (Ascii.eqb c "."); [discriminate |].
    rewrite (IH Hs). reflexivity.
Qed.

Lemma split1_dotted : forall p0 p1,
    no_dot p0 = true -> split1 "." (p0 ++ String "." p1) = [p0; p1].
Proof.
  induction p0 as [| c s IH]; simpl; intros p1 H.
  - reflexivity.
  - apply andb_prop in H. destruct H as [Hc Hs].
    destruct (Ascii.eqb c "."); [discriminate |].
    rewrite (IH p1 Hs). reflexivity.
Qed.

(** ** Path lookup *)

Lemma get_steps_Raise : forall segments e,
    fold_left get_step segments (Raise e) = Raise e.
Proof.
  induction segments as [| k ks IH]; intro e; simpl; [reflexivity | apply IH].
Qed.

Lemma get_steps_spec : forall segments d,
    (leaves_mapping d segments = true /\
     fold_left get_step segments (Ok d) = Raise AttributeError) \/
    (leaves_mapping d segments = false /\
     exists v, fold_left get_step segments (Ok d) = Ok v).
Proof.
  induction segments as [| k ks IH]; intro d; simpl.
  - right. eauto.
  - destruct d; simpl;
      try (left; split; [reflexivity | apply get_steps_Raise]).
    apply IH.
Qed.

Lemma get_deep_spec : forall d path,
    (leaves_mapping d (split "." path) = true /\
     get_deep d path = Raise AttributeError) \/
    (leaves_mapping d (split "." path) = false /\
     exists v, get_deep d path = Ok v).
Proof.
  intros d path. apply get_steps_spec.
Qed.

Lemma get_deep_field : forall (r : record) (k : string),
    no_dot k = true ->
    get_deep (as_dict r) k =
    Ok match getitem r k with
       | Ok v => v
       | Raise _ => PyDict []
       end.
Proof.
  intros r k Hk. unfold get_deep. rewrite (split_no_dot k Hk). simpl.
  rewrite dict_lookup_as_dict. destruct (getitem r k); reflexivity.
Qed.

(** ** Resolution of the deferred values *)

Lemma mapM_cons : forall (A B : Type) (f : A -> result B) (x : A) (xs : list A),
    mapM f (x :: xs) = (y <- f x ;; ys <- mapM f xs ;; Ok (y :: ys)).
Proof. reflexivity. Qed.

Lemma sum_from_numbers : forall vs ns acc,
    Forall2 (fun v n => as_number v = Some n) vs ns ->
    sum_from acc vs = Ok (acc + fold_right Z.add 0 ns).
Proof.
  intros vs ns acc H. revert acc.
  induction H as [| v n vs ns Hv _ IH]; intro acc; simpl.
  - f_equal. lia.
  - rewrite Hv, IH. f_equal. lia.
Qed.

Lemma sum_from_not_number : forall vs acc,
    Exists (fun v => as_number v = None) vs -> sum_from acc vs = Raise TypeError.
Proof.
  intros vs acc H. revert acc.
  induction H as [v vs Hv | v vs _ IH]; intro acc; simpl.
  - rewrite Hv. reflexivity.
  - destruct (as_number v); [apply IH | reflexivity].
Qed.

Lemma mapM_Forall2 : forall (A B : Type) (f : A -> result B)
                            (l : list A) (l' : list B),
    Forall2 (fun x y => f x = Ok y) l l' -> mapM f l = Ok l'.
Proof.
  intros A B f l l' H. induction H as [| x y xs ys Hx _ IH].
  - reflexivity.
  - rewrite mapM_cons, Hx, IH. reflexivity.
Qed.

Lemma mapM_first_Raise : forall (A B : Type) (f : A -> result B)
                                (pre : list A) (x : A) (post : list A)
                                (ys : list B) (e : exn),
    Forall2 (fun a b => f a = Ok b) pre ys ->
    f x = Raise e ->
    mapM f (pre ++ x :: post) = Raise e.
Proof.
  intros A B f pre x post ys e H Hx. induction H as [| a b l l' Ha _ IH].
  - cbn [app]. rewrite mapM_cons, Hx. reflexivity.
  - cbn [app]. rewrite mapM_cons, Ha, IH. reflexivity.
Qed.

(** C1 (as amended).  In every context a [Pure] returns its value.  A
    [Sub] never raises: it returns the difference of what its operands
    resolve to when both are numbers, and the node itself when an operand
    raises or is no number.  A [DefListAgg] never raises: when its list
    reference resolves and can be iterated it returns what the aggregate
    function returns on the generator of the selected items, and the node
    itself when the reference, the iteration or the aggregate function
    raises, as [sum] does when the predicate or an item lookup raises.  A
    [Ref] and a
    [DefRef] raise an attribute error exactly when a path segment is
    looked up in a value that is not a mapping, and return a value
    otherwise; for a key that is missing this value is the empty mapping,
    not the node.  An [Add] returns the integer sum when every term
    resolves to a number; the node itself when the terms resolve and one
    of them is no number, or when the first term that raises raises a type
    error; and it raises what the first term that raises raises when this
    is any other error. *)
Theorem resolve_failure_modes : forall d : value,
    (forall v, resolve d (Pure v) = Ok v) /\
    ((forall a b, exists v, resolve d (Sub a b) = Ok v) /\
     (forall a b x y,
         resolve d a = Ok x -> resolve d b = Ok y ->
         resolve d (Sub a b) =
         match as_number x, as_number y with
         | Some m, Some n => Ok (PyInt (m - n))
         | _, _ => Ok (Sub a b)
         end) /\
     (forall a b e,
         resolve d a = Raise e \/
         (exists x, resolve d a = Ok x /\ resolve d b = Raise e) ->
         resolve d (Sub a b) = Ok (Sub a b))) /\
    ((forall g lr ir p, exists v, resolve d (DefListAgg g lr ir p) = Ok v) /\
     (forall g lr ir p l items,
         resolve d lr = Ok l -> py_iter l = Ok items ->
         resolve d (DefListAgg g lr ir p) =
         match apply_agg g (genexp p ir items) with
         | Ok v => Ok v
         | Raise _ => Ok (DefListAgg g lr ir p)
         end) /\
     (forall g lr ir p e,
         resolve d lr = Raise e \/
         (exists l, resolve d lr = Ok l /\ py_iter l = Raise e) ->
         resolve d (DefListAgg g lr ir p) = Ok (DefListAgg g lr ir p)) /\
     (forall lr ir p l items e,
         resolve d lr = Ok l -> py_iter l = Ok items ->
         snd (genexp p ir items) = Some e ->
         resolve d (DefListAgg AggSum lr ir p) =
         Ok (DefListAgg AggSum lr ir p))) /\
    (forall ref,
        (leaves_mapping d (split "." ref) = true /\
         resolve d (Ref ref) = Raise AttributeError /\
         resolve d (DefRef ref) = Raise AttributeError) \/
        (leaves_mapping d (split "." ref) = false /\
         exists v, resolve d (Ref ref) = Ok v /\
                   resolve d (DefRef ref) =
                   Ok (if is_Range v then DefRef ref else v))) /\
    (forall items k,
        d = PyDict items -> no_dot k = true ->
        dict_lookup (PyStr k) items = None ->
        resolve d (Ref k) = Ok (PyDict [])) /\
    ((forall ts vs ns,
         Forall2 (fun t v => resolve d t = Ok v) ts vs ->
         Forall2 (fun v n => as_number v = Some n) vs ns ->
         resolve d (Add ts) = Ok (PyInt (fold_right Z.add 0 ns))) /\
     (forall ts vs,
         Forall2 (fun t v => resolve d t = Ok v) ts vs ->
         Exists (fun v => as_number v = None) vs ->
         resolve d (Add ts) = Ok (Add ts)) /\
     (forall pre t post vs e,
         Forall2 (fun t' v => resolve d t' = Ok v) pre vs ->
         resolve d t = Raise e ->
         resolve d (Add (pre ++ t :: post)) =
         if is_TypeError e then Ok (Add (pre ++ t :: post)) else Raise e)).
Proof.
  intro d.
  split; [reflexivity |].
  split; [split; [| split] |].
  - intros a b. cbn [resolve].
    destruct (x <- resolve d a ;; y <- resolve d b ;; py_sub x y); eauto.
  - intros a b x y Ha Hb. cbn [resolve]. rewrite Ha, Hb. cbn [bind].
    unfold py_sub. destruct (as_number x), (as_number y); reflexivity.
  - intros a b e [Ha | [x [Ha Hb]]]; cbn [resolve]; rewrite Ha;
      [| rewrite Hb]; reflexivity.
  - split; [split; [| split; [| split]] |].
    + intros g lr ir p. cbn [resolve].
      destruct (l <- resolve d lr ;; items <- py_iter l ;;
                apply_agg g (genexp p ir items)); eauto.
    + intros g lr ir p l items Hl Hi. cbn [resolve]. rewrite Hl. cbn [bind].
      rewrite Hi. reflexivity.
    + intros g lr ir p e [Hl | [l [Hl Hi]]]; cbn [resolve]; rewrite Hl;
        [| cbn [bind]; rewrite Hi]; reflexivity.
    + intros lr ir p l items e Hl Hi Hg. cbn [resolve]. rewrite Hl.
      cbn [bind]. rewrite Hi. cbn [bind apply_agg]. unfold sum_gen.
      rewrite Hg. destruct (sum_from 0 (fst (genexp p ir items))); reflexivity.
    + split; [| split; [| split; [| split]]].
      * intro ref. simpl.
        destruct (get_deep_spec d ref) as [[Hl Hg] | [Hl [v Hg]]].
        -- left. rewrite Hg. auto.
        -- right. split; [assumption |]. exists v. rewrite Hg. simpl.
           split; [reflexivity |]. destruct (is_Range v); reflexivity.
      * intros items k Hd Hk Hnone. subst d. simpl. unfold get_deep.
        rewrite (split_no_dot k Hk). simpl. rewrite Hnone. reflexivity.
      * intros ts vs ns Hts Hvs. cbn [resolve].
        rewrite (mapM_Forall2 _ _ (resolve d) ts vs Hts). cbn [bind].
        unfold py_sum. rewrite (sum_from_numbers vs ns 0 Hvs). reflexivity.
      * intros ts vs Hts Hex. cbn [resolve].
        rewrite (mapM_Forall2 _ _ (resolve d) ts vs Hts). cbn [bind].
        unfold py_sum. rewrite (sum_from_not_number vs 0 Hex). reflexivity.
      * intros pre t post vs e Hpre Ht. cbn [resolve].
        rewrite (mapM_first_Raise _ _ (resolve d) pre t post vs e Hpre Ht).
        reflexivity.
Qed.

(** ** The Range validator *)

Lemma Range_call_never_Invalid : forall mn mx v,
    Range_call mn mx v <> Raise Invalid.
Proof.
  intros mn mx v. unfold Range_call, le_number, ge_number.
  destruct (as_number v) as [n |]; destruct mn as [a |], mx as [b |];
    cbn [bind]; try discriminate;
    match goal with
    | |- (if ?c then _ else _) <> _ => destruct c; discriminate
    end.
Qed.

Lemma Range_call_number : forall (mn mx : option Z) (n : Z),
    Range_call mn mx (PyInt n) = Raise TypeError <->
    (exists m, mn = Some m /\ n > m) /\
    (mx = None \/ exists m, mx = Some m /\ n >= m).
Proof.
  intros mn mx n. unfold Range_call, le_number, ge_number. simpl.
  destruct mn as [a |], mx as [b |]; simpl.
  - destruct (n <=? a) eqn:Ha, (n >=? b) eqn:Hb; simpl; split; intro H;
      try discriminate; try reflexivity.
    + destruct H as [[m [Hm Hgt]] _]. inversion Hm; subst. lia.
    + destruct H as [[m [Hm Hgt]] _]. inversion Hm; subst. lia.
    + split; [exists a; split; [reflexivity | lia] |].
      right. exists b. split; [reflexivity | lia].
    + destruct H as [_ [Hn | [m [Hm Hge]]]]; [discriminate |].
      inversion Hm; subst. lia.
  - destruct (n <=? a) eqn:Ha; simpl; split; intro H;
      try discriminate; try reflexivity.
    + destruct H as [[m [Hm Hgt]] _]. inversion Hm; subst. lia.
    + split; [exists a; split; [reflexivity | lia] | left; reflexivity].
  - split; intro H.
    + destruct (n >=? b); discriminate.
    + destruct H as [[m [Hm _]] _]. discriminate.
  - split; intro H; [discriminate |].
    destruct H as [[m [Hm _]] _]. discriminate.
Qed.

(** C2.  [Range(min=0, max=10)] returns -5, which is below the minimum;
    it rejects 10, which is within the bounds, and 15, which is above the
    maximum, with a type error; and no validator raises [Invalid] on any
    value. *)
Theorem Range_call_inverted :
  (Range_call (Some 0) (Some 10) (PyInt (-5)) = Ok (PyInt (-5)) /\
   violates_bounds (Some 0) (Some 10) (-5)) /\
  (Range_call (Some 0) (Some 10) (PyInt 10) = Raise TypeError /\
   ~ violates_bounds (Some 0) (Some 10) 10) /\
  (Range_call (Some 0) (Some 10) (PyInt 15) = Raise TypeError /\
   violates_bounds (Some 0) (Some 10) 15) /\
  (forall mn mx v, Range_call mn mx v <> Raise Invalid).
Proof.
  split; [| split; [| split]].
  - split; [reflexivity |]. left. exists 0. split; [reflexivity | lia].
  - split; [reflexivity |].
    intros [[m [Hm Hlt]] | [m [Hm Hgt]]]; inversion Hm; subst; lia.
  - split; [reflexivity |]. right. exists 10. split; [reflexivity | lia].
  - apply Range_call_never_Invalid.
Qed.

(** ** strategize *)

(** C8.  For [None], a node no branch of the dispatch covers,
    [strategize] returns no strategy and raises nothing; inside a mapping
    the missing strategy is stored as it is, and the mapping's strategy has
    no example. *)
Theorem strategize_no_rule :
  strategize PyNone = None /\
  strategize (PyDict [(PyStr "a", PyNone)]) =
  Some (SBuildsDict [(Some (SJust (PyStr "a")), None)]) /\
  forall v, ~ draws (SBuildsDict [(Some (SJust (PyStr "a")), None)]) v.
Proof.
  repeat split.
  intros v H. inversion H as [| | | | sp tuples d' HF Hb | |]; subst.
  inversion HF as [| sp0 kv l l' Hex _]; subst.
  destruct Hex as [sk [sv [Heq _]]]. discriminate.
Qed.

(** ** fmap on mappings *)

Lemma dict_store_fresh : forall k v acc,
    forallb (fun kv => negb (key_eqb (fst kv) k)) acc = true ->
    dict_store k v acc = acc ++ [(k, v)].
Proof.
  intros k v acc. induction acc as [| [k' v'] rest IH]; simpl; intro H.
  - reflexivity.
  - apply andb_prop in H. destruct H as [Hk Hrest].
    destruct (key_eqb k' k); [discriminate |].
    rewrite (IH Hrest). reflexivity.
Qed.

Lemma dict_of_pairs_distinct : forall items acc,
    forallb (fun kv => hashable (fst kv)) items = true ->
    distinct_keys items = true ->
    forallb (fun a => forallb (fun kv => negb (key_eqb (fst a) (fst kv))) items)
            acc = true ->
    dict_of_pairs items acc = Ok (acc ++ items).
Proof.
  induction items as [| [k v] rest IH]; intros acc Hh Hd Hacc; simpl.
  - rewrite app_nil_r. reflexivity.
  - simpl in Hh, Hd.
    apply andb_prop in Hh. destruct Hh as [Hk Hh].
    apply andb_prop in Hd. destruct Hd as [Hfresh Hd].
    unfold dict_setitem. rewrite Hk. simpl.
    rewrite dict_store_fresh.
    + rewrite IH; try assumption.
      * rewrite <- app_assoc. reflexivity.
      * rewrite forallb_app. apply andb_true_intro. split.
        -- rewrite forallb_forall in *. intros a Ha.
           specialize (Hacc a Ha). simpl in Hacc.
           apply andb_prop in Hacc. tauto.
        -- simpl. rewrite Hfresh. reflexivity.
    + rewrite forallb_forall in *. intros a Ha.
      specialize (Hacc a Ha). simpl in Hacc.
      apply andb_prop in Hacc. tauto.
Qed.

Lemma dict_comprehension_mapped : forall f items items',
    mapped_entries f items items' ->
    forall acc,
      dict_comprehension (fmap f) items acc = dict_of_pairs items' acc.
Proof.
  intros f items items' H.
  induction H as [| [k v] [k' v'] l l' [Hk Hv] _ IH]; intro acc; simpl.
  - reflexivity.
  - simpl in Hk, Hv. rewrite Hk, Hv. simpl.
    destruct (dict_setitem k' v' acc); simpl; [apply IH | reflexivity].
Qed.

Lemma fmap_dict_mapped : forall f items items',
    mapped_entries f items items' ->
    fmap f (PyDict items) =
    (d <- dict_of_pairs items' [] ;; Ok (PyDict d)) /\
    (forallb (fun kv => hashable (fst kv)) items' = true ->
     distinct_keys items' = true ->
     fmap f (PyDict items) = Ok (PyDict items')).
Proof.
  intros f items items' H.
  assert (E : fmap f (PyDict items) =
              (d <- dict_of_pairs items' [] ;; Ok (PyDict d))).
  { simpl. rewrite (dict_comprehension_mapped f items items' H).
    reflexivity. }
  split; [exact E |].
  intros Hh Hd. rewrite E.
  rewrite (dict_of_pairs_distinct items' [] Hh Hd); reflexivity.
Qed.

Lemma dict_of_pairs_unhashable : forall items acc,
    existsb (fun kv => negb (hashable (fst kv))) items = true ->
    dict_of_pairs items acc = Raise TypeError.
Proof.
  induction items as [| [k v] rest IH]; intros acc H; [discriminate |].
  cbn [dict_of_pairs]. unfold dict_setitem. cbn [existsb fst] in H.
  destruct (hashable k); cbn [negb orb bind] in *.
  - apply IH. exact H.
  - reflexivity.
Qed.

(** C10 (as amended).  [fmap f] rewrites the keys of a mapping as well as
    its values.  When [fmap f] returns on every key and value, and no two
    key images that are compared by identity have the same structure, the
    result is what storing the entries [(fmap f k, fmap f v)] one after
    the other, in order, gives: a type error when a key image is
    unhashable, and exactly these entries when the key images are hashable
    and pairwise different. *)
Theorem fmap_dict_keys_and_values : forall f items items',
    mapped_entries f items items' ->
    unlike_instances items' = true ->
    fmap f (PyDict items) =
    (d <- dict_of_pairs items' [] ;; Ok (PyDict d)) /\
    (existsb (fun kv => negb (hashable (fst kv))) items' = true ->
     fmap f (PyDict items) = Raise TypeError) /\
    (forallb (fun kv => hashable (fst kv)) items' = true ->
     distinct_keys items' = true ->
     fmap f (PyDict items) = Ok (PyDict items')).
Proof.
  intros f items items' H _.
  destruct (fmap_dict_mapped f items items' H) as [E1 E2].
  split; [exact E1 |]. split; [| exact E2].
  intro Hu. rewrite E1, (dict_of_pairs_unhashable items' [] Hu). reflexivity.
Qed.

(** ** The list aggregate *)

Lemma genexp_concrete : forall field p items,
    no_dot field = true ->
    Forall (concrete_item field p) items ->
    exists vs,
      genexp p (ItemRef field) items = (vs, None) /\
      forall acc, sum_from acc vs = Ok (acc + manual_sum field p items).
Proof.
  intros field p items Hf H.
  induction H as [| item rest [[n Hn] [b Hb]] _ [vs [Hg Hs]]].
  - exists []. split; [reflexivity |].
    intro acc. unfold manual_sum. simpl. f_equal. lia.
  - assert (Ha : amount_of field item = n).
    { unfold amount_of. rewrite Hn. reflexivity. }
    assert (Hr : exists v, apply_item_resolver (ItemRef field) item = Ok v /\
                           as_number v = Some n).
    { unfold field_number in Hn. destruct item; try discriminate.
      destruct (dict_lookup (PyStr field) items) as [v |] eqn:Hl;
        [| discriminate].
      exists v. split; [| exact Hn].
      unfold apply_item_resolver, get_deep.
      rewrite (split_no_dot field Hf). simpl. rewrite Hl. reflexivity. }
    destruct Hr as [v [Hv Hvn]].
    assert (Hh : holds p item = truthy b).
    { unfold holds. rewrite Hb. reflexivity. }
    unfold manual_sum. cbn [genexp filter]. rewrite Hb, Hh.
    destruct (truthy b).
    + rewrite Hv, Hg.
      exists (v :: vs). split; [reflexivity |].
      intro acc. cbn [sum_from map fold_right]. rewrite Hvn, Hs, Ha.
      unfold manual_sum. f_equal. lia.
    + exists vs. split; [exact Hg |]. exact Hs.
Qed.

Lemma manual_sum_none_selected : forall field p items,
    forallb (fun item => negb (holds p item)) items = true ->
    manual_sum field p items = 0.
Proof.
  intros field p items H. unfold manual_sum.
  induction items as [| item rest IH]; simpl in *; [reflexivity |].
  apply andb_prop in H. destruct H as [Hi Hrest].
  destruct (holds p item); [discriminate | apply IH; assumption].
Qed.

(** C7.  Against a record whose field [list_field] holds a list of
    concrete items, [DefListAgg(sum, "list_field.field", predicate)]
    resolves to the sum of the sub-field [field] over the items the
    predicate holds for; this sum is 0 for the empty list and when the
    predicate holds for no item. *)
Theorem DefListAgg_sum_is_manual_sum :
  forall (r : record) (list_field field : string) (predicate : option string)
         (lst : value) (items : list value),
    no_dot list_field = true ->
    no_dot field = true ->
    getitem r list_field = Ok lst ->
    lst = PyList items \/ lst = Locked items ->
    Forall (concrete_item field
              match predicate with Some n => PredFn n | None => PredTrue end)
           items ->
    resolve (as_dict r)
            (DefListAgg_init AggSum (list_field ++ String "." field) predicate) =
    Ok (PyInt (manual_sum field
                 match predicate with Some n => PredFn n | None => PredTrue end
                 items)) /\
    (items = [] \/
     forallb (fun item =>
                negb (holds match predicate with
                            | Some n => PredFn n
                            | None => PredTrue
                            end item)) items = true ->
     manual_sum field
       match predicate with Some n => PredFn n | None => PredTrue end
       items = 0).
Proof.
  intros r list_field field predicate lst items Hlf Hf Hget Hlst Hitems.
  split.
  - unfold DefListAgg_init. rewrite (split1_dotted list_field field Hlf).
    simpl. rewrite (get_deep_field r list_field Hlf). rewrite Hget. simpl.
    destruct (genexp_concrete field _ items Hf Hitems) as [vs [Hg Hs]].
    assert (Hiter : is_Range lst = false /\ py_iter lst = Ok items).
    { destruct Hlst; subst lst; split; reflexivity. }
    destruct Hiter as [Hr Hi]. rewrite Hr. simpl. rewrite Hi. simpl.
    rewrite Hg. unfold sum_gen. simpl. rewrite Hs. reflexivity.
  - intros [He | Hnone].
    + subst items. reflexivity.
    + apply manual_sum_none_selected. assumption.
Qed.

(** ** The stable draw container *)

Lemma draws_just_iff : forall v w, draws (SJust v) w <-> w = v.
Proof.
  intros v w. split; intro H.
  - inversion H; reflexivity.
  - subst w. constructor.
Qed.

(** C6.  A constructed [LockedList] holds one frozen draw of its source
    list; whatever sequence of [__resolve__] and [__strategize__] calls is
    made on it, every call returns that draw (or a strategy whose only
    example is that draw) and leaves the object as it was. *)
Theorem LockedList_returns_frozen_draw : forall the_list self,
    LockedList_init the_list self ->
    exists draw,
      self = LockedList the_list draw /\
      draws (SLists (map strategize the_list)) (PyList draw) /\
      forall calls, exists outs,
          ll_run calls self = Ok (outs, self) /\
          Forall (is_frozen_draw draw) outs.
Proof.
  intros the_list self Hinit. destruct Hinit as [draw Hdraw].
  exists draw. split; [reflexivity |]. split; [exact Hdraw |].
  induction calls as [| c cs [outs [Hrun Hall]]].
  - exists []. split; [reflexivity | constructor].
  - destruct c; simpl; rewrite Hrun; simpl.
    + exists (OutValue (Locked draw) :: outs).
      split; [reflexivity |]. constructor; [reflexivity | exact Hall].
    + exists (OutStrategy (SJust (Locked draw)) :: outs).
      split; [reflexivity |]. constructor; [| exact Hall].
      simpl. intro w. apply draws_just_iff.
Qed.

(** A structural map replaces the frozen draw by its image: what the object
    returns afterwards is the mapped draw, not a new draw of the source. *)
Lemma LockedList_fmap_replaces_draw : forall f the_list draw res self',
    LockedList_fmap f (LockedList the_list draw) = Ok (res, self') ->
    fmap f (LockedList the_list draw) = Ok res /\
    LockedList_resolve self' = Ok (res, self') /\
    exists draw', mapM (fmap f) draw = Ok draw' /\
                  self' = LockedList the_list draw'.
Proof.
  intros f the_list draw res self' H. unfold LockedList_fmap in H.
  apply bind_Ok in H. destruct H as [draw' [Hd H]].
  inversion H; subst. simpl. rewrite Hd. eauto.
Qed.

(** ** Records *)

Lemma getitem_In : forall (r : record) (k : string),
    In k (keys r) -> exists v, getitem r k = Ok v.
Proof.
  intros r k. induction r as [| [k' v] rest IH]; simpl; intro H.
  - contradiction.
  - destruct (String.eqb k' k) eqn:E; [eauto |].
    destruct H as [H | H]; [| auto].
    subst k'. rewrite String.eqb_refl in E. discriminate.
Qed.

Lemma getitem_keys : forall (r : record) (k : string) (v : value),
    getitem r k = Ok v -> In k (keys r).
Proof.
  intros r k v. induction r as [| [k' v'] rest IH]; simpl; intro H.
  - discriminate.
  - destruct (String.eqb k' k) eqn:E.
    + left. apply String.eqb_eq. assumption.
    + right. auto.
Qed.

Lemma getitem_setitem_same : forall (r : record) (k : string) (v : value),
    getitem (setitem r k v) k = Ok v.
Proof.
  intros r k v. induction r as [| [k' v'] rest IH]; simpl.
  - rewrite String.eqb_refl. reflexivity.
  - destruct (String.eqb k' k) eqn:E; simpl; rewrite E; [reflexivity | exact IH].
Qed.

Lemma getitem_setitem_other : forall (r : record) (k k0 : string) (v : value),
    k0 <> k -> getitem (setitem r k v) k0 = getitem r k0.
Proof.
  intros r k k0 v Hne. induction r as [| [k' v'] rest IH]; simpl.
  - destruct (String.eqb k k0) eqn:E; [| reflexivity].
    apply String.eqb_eq in E. congruence.
  - destruct (String.eqb k' k) eqn:E; simpl.
    + apply String.eqb_eq in E. subst k'.
      destruct (String.eqb k k0) eqn:E0; [| reflexivity].
      apply String.eqb_eq in E0. congruence.
    + rewrite IH. reflexivity.
Qed.

Lemma keys_setitem : forall (r : record) (k : string) (v : value),
    In k (keys r) -> keys (setitem r k v) = keys r.
Proof.
  intros r k v. induction r as [| [k' v'] rest IH]; simpl; intro H.
  - contradiction.
  - destruct (String.eqb k' k) eqn:E; simpl; [reflexivity |].
    f_equal. apply IH. destruct H as [H | H]; [| assumption].
    subst k'. rewrite String.eqb_refl in E. discriminate.
Qed.

Lemma setitem_same : forall (r : record) (k : string) (v : value),
    getitem r k = Ok v -> setitem r k v = r.
Proof.
  intros r k v. induction r as [| [k' v'] rest IH]; simpl; intro H.
  - discriminate.
  - destruct (String.eqb k' k) eqn:E.
    + inversion H; reflexivity.
    + f_equal. auto.
Qed.

(** ** One pass *)

Lemma resolve_queue_app : forall q1 q2 r,
    resolve_queue (q1 ++ q2) r = (r1 <- resolve_queue q1 r ;; resolve_queue q2 r1).
Proof.
  induction q1 as [| k q1 IH]; intros q2 r; simpl.
  - reflexivity.
  - destruct (getitem r k) as [v | e]; simpl; [| reflexivity].
    destruct (fmap (resolve_leaf r) v) as [new | e]; simpl; [| reflexivity].
    apply IH.
Qed.

Lemma resolve_queue_untouched : forall q r r1 k,
    resolve_queue q r = Ok r1 -> ~ In k q -> getitem r1 k = getitem r k.
Proof.
  induction q as [| k0 q IH]; intros r r1 k H Hk; simpl in H.
  - inversion H; reflexivity.
  - apply bind_Ok in H. destruct H as [v [_ H]].
    apply bind_Ok in H. destruct H as [new [_ H]].
    rewrite (IH _ _ k H).
    + apply getitem_setitem_other. intro E. apply Hk. left. auto.
    + intro Hin. apply Hk. right. assumption.
Qed.

(** An invariant [I] of the fields that a step strengthens to [J] holds,
    as [J], for every field of the queue when the queue has drained. *)
Section pass_invariant.
Variable ks : list string.
Variables I J : string -> value -> Prop.
Hypothesis J_I : forall k v, J k v -> I k v.
Hypothesis step_J : forall r k v,
    keys r = ks ->
    (forall k' v', getitem r k' = Ok v' -> I k' v') ->
    getitem r k = Ok v ->
    exists v1, fmap (resolve_leaf r) v = Ok v1 /\ J k v1.

Lemma resolve_queue_invariant : forall q r done,
    keys r = ks ->
    (forall k v, getitem r k = Ok v -> I k v) ->
    (forall k, In k done -> exists v, getitem r k = Ok v /\ J k v) ->
    (forall k, In k q -> In k ks) ->
    exists r1,
      resolve_queue q r = Ok r1 /\ keys r1 = ks /\
      (forall k v, getitem r1 k = Ok v -> I k v) /\
      (forall k, In k (done ++ q) -> exists v, getitem r1 k = Ok v /\ J k v).
Proof.
  induction q as [| k q IH]; intros r done Hks HI HJ Hq.
  - exists r. rewrite app_nil_r. simpl. auto.
  - assert (Hk : In k (keys r)) by (rewrite Hks; apply Hq; left; reflexivity).
    destruct (getitem_In r k Hk) as [v Hv].
    destruct (step_J r k v Hks HI Hv) as [v1 [Hf HJ1]].
    destruct (IH (setitem r k v1) (done ++ [k])) as [r1 [Hr [Hk1 [HI1 HJ']]]].
    + rewrite keys_setitem; assumption.
    + intros k' v' Hg. destruct (string_dec k' k) as [E | E].
      * subst k'. rewrite getitem_setitem_same in Hg.
        inversion Hg; subst. apply J_I. assumption.
      * rewrite getitem_setitem_other in Hg by assumption. eauto.
    + intros k' Hin. apply in_app_or in Hin.
      destruct (string_dec k' k) as [E | E].
      * subst k'. exists v1. rewrite getitem_setitem_same. auto.
      * rewrite getitem_setitem_other by assumption.
        destruct Hin as [Hin | [Hin | []]]; [auto | congruence].
    + intros k' Hin. apply Hq. right. assumption.
    + exists r1. simpl. rewrite Hv. simpl. rewrite Hf. simpl.
      repeat split; try assumption.
      intros k' Hin. apply HJ'. rewrite <- app_assoc. exact Hin.
Qed.
End pass_invariant.

(** The same for a step that may raise: if the pass returns, [J] holds for
    the fields of the queue. *)
Section pass_invariant_partial.
Variables I J : string -> value -> Prop.
Hypothesis J_I : forall k v, J k v -> I k v.
Hypothesis step_J : forall r k v v1,
    (forall k' v', getitem r k' = Ok v' -> I k' v') ->
    getitem r k = Ok v ->
    fmap (resolve_leaf r) v = Ok v1 -> J k v1.

Lemma resolve_queue_invariant_partial : forall q r done r1,
    (forall k v, getitem r k = Ok v -> I k v) ->
    (forall k, In k done -> exists v, getitem r k = Ok v /\ J k v) ->
    resolve_queue q r = Ok r1 ->
    keys r1 = keys r /\
    (forall k, In k (done ++ q) -> exists v, getitem r1 k = Ok v /\ J k v).
Proof.
  induction q as [| k q IH]; intros r done r1 HI HJ Hrun.
  - inversion Hrun; subst. rewrite app_nil_r. auto.
  - simpl in Hrun.
    apply bind_Ok in Hrun. destruct Hrun as [v [Hv Hrun]].
    apply bind_Ok in Hrun. destruct Hrun as [v1 [Hf Hrun]].
    assert (HJ1 : J k v1) by (eapply step_J; eassumption).
    destruct (IH (setitem r k v1) (done ++ [k]) r1) as [Hk1 HJ'].
    + intros k' v' Hg. destruct (string_dec k' k) as [E | E].
      * subst k'. rewrite getitem_setitem_same in Hg.
        inversion Hg; subst. apply J_I. assumption.
      * rewrite getitem_setitem_other in Hg by assumption. eauto.
    + intros k' Hin. apply in_app_or in Hin.
      destruct (string_dec k' k) as [E | E].
      * subst k'. exists v1. rewrite getitem_setitem_same. auto.
      * rewrite getitem_setitem_other by assumption.
        destruct Hin as [Hin | [Hin | []]]; [auto | congruence].
    + exact Hrun.
    + split.
      * rewrite Hk1. apply keys_setitem. eapply getitem_keys. eassumption.
      * intros k' Hin. apply HJ'. rewrite <- app_assoc. exact Hin.
Qed.
End pass_invariant_partial.

Lemma initial_queue_perm : forall r : record,
    NoDup (keys r) -> Permutation (keys r) (initial_queue r).
Proof.
  intros r H. apply set_order_perm. assumption.
Qed.

(** C4 (as amended).  The work queue of a pass holds every field name
    once, in the iteration order of the set built from them, which is a
    permutation of the insertion order.  When a field is popped, its node
    is still the one the record had before the pass; it is resolved
    against the record as the entries before it left it, and its
    replacement is written back before the rest of the queue is
    processed, where a lookup of the field finds the replacement. *)
Theorem pass_order_and_write_back : forall r : record,
    NoDup (keys r) ->
    Permutation (keys r) (initial_queue r) /\
    forall q1 k q2,
      initial_queue r = q1 ++ k :: q2 ->
      RecRecord_resolve r =
      (r1 <- resolve_queue q1 r ;;
       v <- getitem r1 k ;;
       new <- fmap (resolve_leaf r1) v ;;
       resolve_queue q2 (setitem r1 k new)) /\
      (forall r1, resolve_queue q1 r = Ok r1 -> getitem r1 k = getitem r k) /\
      (forall r1 new,
          getitem (setitem r1 k new) k = Ok new /\
          (no_dot k = true ->
           resolve_leaf (setitem r1 k new) (Ref k) = Ok new)).
Proof.
  intros r Hnd.
  split; [apply initial_queue_perm; assumption |].
  intros q1 k q2 Hq. repeat split.
  - unfold RecRecord_resolve. rewrite Hq. rewrite resolve_queue_app.
    reflexivity.
  - intros r1 Hr1. apply (resolve_queue_untouched q1 r r1 k Hr1).
    assert (Hnq : NoDup (q1 ++ k :: q2)).
    { rewrite <- Hq.
      apply (Permutation_NoDup (initial_queue_perm r Hnd)). assumption. }
    apply NoDup_remove_2 in Hnq. intro Hin. apply Hnq.
    apply in_or_app. left. assumption.
  - apply getitem_setitem_same.
  - intro Hk. unfold resolve_leaf. simpl.
    rewrite (get_deep_field _ k Hk). rewrite getitem_setitem_same.
    reflexivity.
Qed.

(** ** Records without cross-field references *)

Lemma dict_store_Forall : forall (Qk Qv : value -> Prop) k v acc,
    Forall (fun kv => Qk (fst kv) /\ Qv (snd kv)) acc ->
    Qk k -> Qv v ->
    Forall (fun kv => Qk (fst kv) /\ Qv (snd kv)) (dict_store k v acc).
Proof.
  intros Qk Qv k v acc H Hk Hv.
  induction H as [| [k' v'] rest [Hk' Hv'] Hrest IH]; simpl.
  - constructor; [split; assumption | constructor].
  - destruct (key_eqb k' k).
    + constructor; [split; assumption | assumption].
    + constructor; [split; assumption | assumption].
Qed.

Lemma dict_store_distinct : forall k v acc,
    distinct_keys acc = true -> distinct_keys (dict_store k v acc) = true.
Proof.
  intros k v acc. induction acc as [| [k' v'] rest IH]; simpl; intro H.
  - reflexivity.
  - apply andb_prop in H. destruct H as [Hfresh Hrest].
    destruct (key_eqb k' k) eqn:E; simpl.
    + rewrite Hfresh, Hrest. reflexivity.
    + rewrite (IH Hrest), andb_true_r.
      apply forallb_forall. intros kv Hin.
      assert (HF : Forall (fun kv => key_eqb k' (fst kv) = false /\ True)
                          (dict_store k v rest)).
      { apply (dict_store_Forall (fun key => key_eqb k' key = false)
                                 (fun _ => True)); auto.
        apply Forall_forall. intros x Hx. split; [| exact I].
        rewrite forallb_forall in Hfresh. specialize (Hfresh x Hx).
        destruct (key_eqb k' (fst x)); [discriminate | reflexivity]. }
      rewrite Forall_forall in HF. destruct (HF kv Hin) as [Hkv _].
      rewrite Hkv. reflexivity.
Qed.

(** Plain data is left as it is by a pass, whatever the record. *)
Lemma plain_fixed : forall v,
    plain v = true ->
    forall d, fmap (fun x => resolve d (pure x)) v = Ok v.
Proof.
  induction v using value_nested_ind; intros Hp ctx;
    try discriminate; try reflexivity.
  - (* PyList *)
    simpl in *. rewrite mapM_fixed; [reflexivity |].
    rewrite forallb_forall in Hp. rewrite Forall_forall in *.
    intros x Hx. apply H; auto.
  - (* PyDict *)
    simpl in Hp. apply andb_prop in Hp. destruct Hp as [Hall Hd].
    rewrite forallb_forall in Hall. rewrite Forall_forall in H.
    assert (Hm : mapped_entries (fun x => resolve ctx (pure x)) items items).
    { clear Hd. unfold mapped_entries.
      induction items as [| kv rest IH]; constructor.
      - specialize (Hall kv (or_introl eq_refl)).
        apply andb_prop in Hall. destruct Hall as [Hall Hv].
        apply andb_prop in Hall. destruct Hall as [_ Hk].
        destruct (H kv (or_introl eq_refl)) as [IHk IHv]. split; auto.
      - apply IH; intros x Hx; [apply H | apply Hall]; right; exact Hx. }
    destruct (fmap_dict_mapped _ _ _ Hm) as [_ E]. apply E.
    + apply forallb_forall. intros kv Hin. specialize (Hall kv Hin).
      apply andb_prop in Hall. destruct Hall as [Hall _].
      apply andb_prop in Hall. tauto.
    + assumption.
  - (* Range *)
    simpl in *. apply andb_prop in Hp. destruct Hp as [H1 H2].
    rewrite (IHv1 H1 ctx), (IHv2 H2 ctx). reflexivity.
  - (* Locked *)
    simpl in *. rewrite mapM_fixed; [reflexivity |].
    rewrite forallb_forall in Hp. rewrite Forall_forall in *.
    intros x Hx. apply H; auto.
Qed.

Lemma plain_reference_free : forall v, plain v = true -> reference_free v = true.
Proof.
  induction v using value_nested_ind; intro Hp;
    try discriminate; try reflexivity.
  - simpl in *. rewrite forallb_forall in *. rewrite Forall_forall in H.
    intros x Hx. apply H; auto.
  - simpl in *. apply andb_prop in Hp. destruct Hp as [Hall _].
    rewrite forallb_forall in *. rewrite Forall_forall in H.
    intros kv Hin. specialize (Hall kv Hin).
    apply andb_prop in Hall. destruct Hall as [Hall Hv].
    apply andb_prop in Hall. destruct Hall as [_ Hk].
    destruct (H kv Hin) as [IHk IHv].
    rewrite (IHk Hk), (IHv Hv). reflexivity.
  - simpl in *. apply andb_prop in Hp. destruct Hp as [H1 H2].
    rewrite (IHv1 H1), (IHv2 H2). reflexivity.
  - simpl in *. rewrite forallb_forall in *. rewrite Forall_forall in H.
    intros x Hx. apply H; auto.
Qed.

Lemma plain_settled : forall v, plain v = true -> settled v.
Proof.
  intros v Hp. split.
  - apply plain_reference_free. exact Hp.
  - intro d. apply plain_fixed. exact Hp.
Qed.

Lemma reference_free_term : forall t,
    is_DeferredVal t = true -> reference_free t = true ->
    exists v, (forall d, resolve d t = Ok v) /\ (v = t \/ plain v = true).
Proof.
  induction t using value_nested_ind; intros Hd Hr; try discriminate.
  - (* Pure *)
    exists t. split; [reflexivity | right; exact Hr].
  - (* Add *)
    simpl in Hr.
    assert (Hts : exists vs, forall d, mapM (resolve d) ts = Ok vs).
    { clear Hd. induction ts as [| t ts IH].
      - exists []. reflexivity.
      - simpl in Hr. apply andb_prop in Hr. destruct Hr as [Ht Hr].
        apply andb_prop in Ht. destruct Ht as [Ht1 Ht2].
        inversion H as [| x l Hx Hl]; subst.
        destruct (Hx Ht1 Ht2) as [v [Hv _]].
        destruct (IH Hl Hr) as [vs Hvs].
        exists (v :: vs). intro d. simpl. rewrite Hv. simpl.
        rewrite Hvs. reflexivity. }
    destruct Hts as [vs Hvs].
    destruct (sum_from 0 vs) as [n | e] eqn:Hs.
    + exists (PyInt n). split; [| right; reflexivity].
      intro d. simpl. rewrite Hvs. simpl. unfold py_sum. rewrite Hs.
      reflexivity.
    + exists (Add ts). split; [| left; reflexivity].
      intro d. simpl. rewrite Hvs. simpl. unfold py_sum. rewrite Hs. simpl.
      assert (He : e = TypeError).
      { clear - Hs. generalize dependent 0.
        induction vs as [| x xs IH]; simpl; intros acc Hs; [discriminate |].
        destruct (as_number x); [eapply IH; eassumption |].
        inversion Hs; reflexivity. }
      subst e. reflexivity.
  - (* Sub *)
    simpl in Hr.
    apply andb_prop in Hr. destruct Hr as [Hr Hb2].
    apply andb_prop in Hr. destruct Hr as [Hr Hb1].
    apply andb_prop in Hr. destruct Hr as [Ha1 Ha2].
    destruct (IHt1 Ha1 Ha2) as [x [Hx _]].
    destruct (IHt2 Hb1 Hb2) as [y [Hy _]].
    destruct (py_sub x y) as [res | e] eqn:Hs.
    + exists res. split.
      * intro d. simpl. rewrite Hx, Hy. simpl. rewrite Hs. reflexivity.
      * right. unfold py_sub in Hs.
        destruct (as_number x); [| discriminate].
        destruct (as_number y); [| discriminate].
        inversion Hs; reflexivity.
    + exists (Sub t1 t2). split; [| left; reflexivity].
      intro d. simpl. rewrite Hx, Hy. simpl. rewrite Hs. reflexivity.
Qed.

Lemma outcome_list : forall l,
    Forall (fun x => reference_free x = true -> exists res, outcome_of x res) l ->
    forallb reference_free l = true ->
    exists res,
      (forall d, mapM (fmap (fun x => resolve d (pure x))) l = res) /\
      (forall l1, res = Ok l1 ->
                  forallb reference_free l1 = true /\
                  forall d, mapM (fmap (fun x => resolve d (pure x))) l1 = Ok l1).
Proof.
  intros l H. induction H as [| x xs Hx _ IH]; simpl; intro Hr.
  - exists (Ok []). split; [reflexivity |].
    intros l1 E. inversion E; subst. auto.
  - apply andb_prop in Hr. destruct Hr as [Hrx Hrxs].
    destruct (Hx Hrx) as [rx [Hx1 Hx2]].
    destruct (IH Hrxs) as [rl [Hl1 Hl2]].
    exists (y <- rx ;; ys <- rl ;; Ok (y :: ys)). split.
    + intro d. rewrite Hx1, Hl1. reflexivity.
    + intros l1 E.
      apply bind_Ok in E. destruct E as [y [Ey E]].
      apply bind_Ok in E. destruct E as [ys [Eys E]].
      inversion E; subst l1.
      destruct (Hx2 y Ey) as [Hry Hfy]. destruct (Hl2 ys Eys) as [Hrys Hfys].
      split.
      * simpl. rewrite Hry, Hrys. reflexivity.
      * intro d. simpl. rewrite (Hfy d). simpl. rewrite Hfys. reflexivity.
Qed.

Lemma outcome_entries : forall items,
    Forall (fun kv =>
              (reference_free (fst kv) = true -> exists res, outcome_of (fst kv) res) /\
              (reference_free (snd kv) = true -> exists res, outcome_of (snd kv) res))
           items ->
    forallb (fun kv => reference_free (fst kv) && reference_free (snd kv)) items
    = true ->
    forall acc,
      Forall settled_entry acc -> distinct_keys acc = true ->
      exists res,
        (forall d,
            dict_comprehension (fmap (fun x => resolve d (pure x))) items acc = res) /\
        (forall dd, res = Ok dd ->
                    Forall settled_entry dd /\ distinct_keys dd = true).
Proof.
  intros items H.
  induction H as [| [k v] rest [Hk Hv] _ IH]; simpl; intros Hr acc Hacc Hd.
  - exists (Ok acc). split; [reflexivity |].
    intros dd E. inversion E; subst. auto.
  - apply andb_prop in Hr. destruct Hr as [Hkv Hrest].
    apply andb_prop in Hkv. destruct Hkv as [Hrk Hrv].
    destruct (Hk Hrk) as [rk [Hk1 Hk2]].
    destruct (Hv Hrv) as [rv [Hv1 Hv2]].
    destruct rk as [k1 | e].
    2:{ exists (Raise e). split; [| discriminate].
        intro d. rewrite Hk1. reflexivity. }
    destruct rv as [v1 | e].
    2:{ exists (Raise e). split; [| discriminate].
        intro d. rewrite Hk1, Hv1. reflexivity. }
    destruct (hashable k1) eqn:Hh.
    2:{ exists (Raise TypeError). split; [| discriminate].
        intro d. rewrite Hk1, Hv1. simpl. unfold dict_setitem. rewrite Hh.
        reflexivity. }
    destruct (IH Hrest (dict_store k1 v1 acc)) as [res [Hres1 Hres2]].
    + apply (dict_store_Forall
               (fun key => hashable key = true /\ settled key) settled).
      * exact Hacc.
      * split; [exact Hh | apply Hk2; reflexivity].
      * apply Hv2. reflexivity.
    + apply dict_store_distinct. exact Hd.
    + exists res. split; [| exact Hres2].
      intro d. rewrite Hk1, Hv1. simpl. unfold dict_setitem. rewrite Hh.
      simpl. apply Hres1.
Qed.

Lemma settled_entries_fixed : forall dd,
    Forall settled_entry dd -> distinct_keys dd = true ->
    settled (PyDict dd).
Proof.
  intros dd HQ Hdist. split.
  - simpl. apply forallb_forall. intros kv Hin.
    rewrite Forall_forall in HQ.
    destruct (HQ kv Hin) as [[_ [Hk _]] [Hv _]].
    rewrite Hk, Hv. reflexivity.
  - intro d.
    assert (Hself : mapped_entries (fun x => resolve d (pure x)) dd dd).
    { unfold mapped_entries. clear - HQ.
      induction HQ as [| kv rest [[_ [_ Hk]] [_ Hv]] _ IH]; constructor.
      - split; [apply Hk | apply Hv].
      - exact IH. }
    destruct (fmap_dict_mapped _ _ _ Hself) as [_ E]. apply E.
    + apply forallb_forall. rewrite Forall_forall in HQ.
      intros kv Hin. destruct (HQ kv Hin) as [[Hh _] _]. exact Hh.
    + exact Hdist.
Qed.

(** What a pass makes of a node without references does not depend on the
    record, and has settled. *)
Lemma reference_free_outcome : forall v,
    reference_free v = true -> exists res, outcome_of v res.
Proof.
  induction v using value_nested_ind; intro Hr; try discriminate;
    try (eexists (Ok _); split;
         [intro ctx; reflexivity
         | intros v1 E; inversion E; subst; split;
           [reflexivity | intro ctx; reflexivity]]).
  - (* PyList *)
    destruct (outcome_list l H Hr) as [res [H1 H2]].
    exists (l' <- res ;; Ok (PyList l')). split.
    + intro ctx. simpl. rewrite H1. reflexivity.
    + intros v1 E. apply bind_Ok in E. destruct E as [l1 [El E]].
      inversion E; subst v1. destruct (H2 l1 El) as [Hrl Hfl]. split.
      * exact Hrl.
      * intro ctx. simpl. rewrite Hfl. reflexivity.
  - (* PyDict *)
    destruct (outcome_entries items H Hr [] (Forall_nil _) eq_refl)
      as [res [H1 H2]].
    exists (items' <- res ;; Ok (PyDict items')). split.
    + intro ctx. simpl. rewrite H1. reflexivity.
    + intros v1 E. apply bind_Ok in E. destruct E as [dd [Ed E]].
      inversion E; subst v1. destruct (H2 dd Ed) as [HQ Hdist].
      apply settled_entries_fixed; assumption.
  - (* Range *)
    simpl in Hr. apply andb_prop in Hr. destruct Hr as [Hr1 Hr2].
    destruct (IHv1 Hr1) as [ra [Ha1 Ha2]].
    destruct (IHv2 Hr2) as [rb [Hb1 Hb2]].
    exists (a <- ra ;; b <- rb ;; Ok (Range a b)). split.
    + intro ctx. simpl. rewrite Ha1, Hb1. reflexivity.
    + intros w E. apply bind_Ok in E. destruct E as [a [Ea E]].
      apply bind_Ok in E. destruct E as [b [Eb E]].
      inversion E; subst w.
      destruct (Ha2 a Ea) as [Hra Hfa]. destruct (Hb2 b Eb) as [Hrb Hfb].
      split.
      * simpl. rewrite Hra, Hrb. reflexivity.
      * intro ctx. simpl. rewrite (Hfa ctx), (Hfb ctx). reflexivity.
  - (* Pure *)
    exists (Ok v). split; [intro ctx; reflexivity |].
    intros v1 E. inversion E; subst v1. apply plain_settled. exact Hr.
  - (* Add *)
    destruct (reference_free_term (Add ts) eq_refl Hr) as [v [Hv Hcase]].
    exists (Ok v). split; [intro ctx; apply Hv |].
    intros v1 E. inversion E; subst v1.
    destruct Hcase as [E' | Hp]; [| apply plain_settled; exact Hp].
    subst v. split; [exact Hr | intro ctx; apply Hv].
  - (* Sub *)
    destruct (reference_free_term (Sub v1 v2) eq_refl Hr) as [v [Hv Hcase]].
    exists (Ok v). split; [intro ctx; apply Hv |].
    intros w E. inversion E; subst w.
    destruct Hcase as [E' | Hp]; [| apply plain_settled; exact Hp].
    subst v. split; [exact Hr | intro ctx; apply Hv].
  - (* Locked *)
    destruct (outcome_list l H Hr) as [res [H1 H2]].
    exists (l' <- res ;; Ok (Locked l')). split.
    + intro ctx. simpl. rewrite H1. reflexivity.
    + intros v1 E. apply bind_Ok in E. destruct E as [l1 [El E]].
      inversion E; subst v1. destruct (H2 l1 El) as [Hrl Hfl]. split.
      * exact Hrl.
      * intro ctx. simpl. rewrite Hfl. reflexivity.
  - (* LockedList *)
    destruct (outcome_list d H0 Hr) as [res [H1 H2]].
    exists (l' <- res ;; Ok (Locked l')). split.
    + intro ctx. simpl. rewrite H1. reflexivity.
    + intros v1 E. apply bind_Ok in E. destruct E as [l1 [El E]].
      inversion E; subst v1. destruct (H2 l1 El) as [Hrl Hfl]. split.
      * exact Hrl.
      * intro ctx. simpl. rewrite Hfl. reflexivity.
Qed.

(** With hashable plain keys in its dictionaries a pass over a node without
    references does not raise. *)
Lemma plain_keys_succeeds : forall v,
    reference_free v = true -> plain_keys v = true ->
    forall d, exists v1, fmap (fun x => resolve d (pure x)) v = Ok v1.
Proof.
  assert (Hlist : forall d l,
             Forall (fun x => reference_free x = true -> plain_keys x = true ->
                              forall d, exists x1,
                                  fmap (fun y => resolve d (pure y)) x = Ok x1) l ->
             forallb reference_free l = true -> forallb plain_keys l = true ->
             exists l1, mapM (fmap (fun y => resolve d (pure y))) l = Ok l1).
  { intros d l H. induction H as [| x xs Hx _ IH]; simpl; intros Hr Hp.
    - eauto.
    - apply andb_prop in Hr. destruct Hr as [Hrx Hrxs].
      apply andb_prop in Hp. destruct Hp as [Hpx Hpxs].
      destruct (Hx Hrx Hpx d) as [x1 Ex]. destruct (IH Hrxs Hpxs) as [l1 El].
      exists (x1 :: l1). rewrite Ex. simpl. rewrite El. reflexivity. }
  induction v using value_nested_ind; intros Hr Hp ctx; try discriminate;
    try (eexists; reflexivity).
  - (* PyList *)
    destruct (Hlist ctx l H Hr Hp) as [l1 El].
    exists (PyList l1). simpl. rewrite El. reflexivity.
  - (* PyDict *)
    simpl in Hr, Hp.
    assert (Hent : forall acc, exists dd,
                 dict_comprehension (fmap (fun y => resolve ctx (pure y)))
                                    items acc = Ok dd).
    { induction H as [| [k v] rest [_ Hv] _ IH]; intro acc; simpl.
      - eauto.
      - simpl in Hr, Hp.
        apply andb_prop in Hr. destruct Hr as [Hkv Hrrest].
        apply andb_prop in Hkv. destruct Hkv as [_ Hrv].
        apply andb_prop in Hp. destruct Hp as [Hkp Hprest].
        apply andb_prop in Hkp. destruct Hkp as [Hkp Hpv].
        apply andb_prop in Hkp. destruct Hkp as [Hh Hpk].
        rewrite (plain_fixed k Hpk ctx). simpl.
        destruct (Hv Hrv Hpv ctx) as [v1 Ev]. simpl in Ev. rewrite Ev. simpl.
        unfold dict_setitem. rewrite Hh. simpl.
        apply IH; assumption. }
    destruct (Hent []) as [dd Ed].
    exists (PyDict dd). simpl. rewrite Ed. reflexivity.
  - (* Range *)
    simpl in Hr, Hp.
    apply andb_prop in Hr. destruct Hr as [Hr1 Hr2].
    apply andb_prop in Hp. destruct Hp as [Hp1 Hp2].
    destruct (IHv1 Hr1 Hp1 ctx) as [a Ea]. destruct (IHv2 Hr2 Hp2 ctx) as [b Eb].
    exists (Range a b). simpl. rewrite Ea, Eb. reflexivity.
  - (* Add *)
    destruct (reference_free_term (Add ts) eq_refl Hr) as [v [Hv _]].
    exists v. apply Hv.
  - (* Sub *)
    destruct (reference_free_term (Sub v1 v2) eq_refl Hr) as [v [Hv _]].
    exists v. apply Hv.
  - (* Locked *)
    destruct (Hlist ctx l H Hr Hp) as [l1 El].
    exists (Locked l1). simpl. rewrite El. reflexivity.
  - (* LockedList *)
    destruct (Hlist ctx d H0 Hr Hp) as [l1 El].
    exists (Locked l1). simpl. rewrite El. reflexivity.
Qed.

Lemma getitem_In_pair : forall (r : record) (k : string) (v : value),
    getitem r k = Ok v -> exists k', In (k', v) r.
Proof.
  intros r k v. induction r as [| [k' v'] rest IH]; simpl; intro H.
  - discriminate.
  - destruct (String.eqb k' k).
    + inversion H; subst. eauto.
    + destruct (IH H) as [k0 Hin]. eauto.
Qed.

Lemma resolve_queue_fixed : forall q r,
    (forall k, In k q -> exists v, getitem r k = Ok v /\ fixed_by_pass v) ->
    resolve_queue q r = Ok r.
Proof.
  induction q as [| k q IH]; intros r H; simpl.
  - reflexivity.
  - destruct (H k (or_introl eq_refl)) as [v [Hv Hf]].
    rewrite Hv. simpl. unfold resolve_leaf. rewrite (Hf (as_dict r)). simpl.
    rewrite (setitem_same r k v Hv). apply IH.
    intros k' Hin. apply H. right. exact Hin.
Qed.

(** C9 (as amended).  For a record without cross-field references in
    which every [Pure] holds plain data: whenever a pass returns, a second
    pass returns the record the first one returned; and a pass returns when
    the keys of the dictionaries in the record are hashable plain data. *)
Theorem reference_free_pass_idempotent : forall r : record,
    reference_free_record r = true ->
    (forall r1, RecRecord_resolve r = Ok r1 -> RecRecord_resolve r1 = Ok r1) /\
    (NoDup (keys r) -> plain_keys_record r = true ->
     exists r1, RecRecord_resolve r = Ok r1).
Proof.
  intros r Hrf.
  assert (HI : forall k v, getitem r k = Ok v -> reference_free v = true).
  { intros k v Hv. destruct (getitem_In_pair r k v Hv) as [k' Hin].
    unfold reference_free_record in Hrf. rewrite forallb_forall in Hrf.
    apply (Hrf (k', v) Hin). }
  split.
  - intros r1 Hr1.
    destruct (resolve_queue_invariant_partial
                (fun _ v => reference_free v = true) (fun _ v => settled v))
      with (q := initial_queue r) (r := r) (done := @nil string) (r1 := r1)
      as [Hk1 HJ].
    + intros k v [H _]. exact H.
    + intros r0 k v v1 HI0 Hv Hf.
      destruct (reference_free_outcome v (HI0 k v Hv)) as [res [Hres1 Hres2]].
      apply Hres2. rewrite <- Hf. symmetry. apply Hres1.
    + exact HI.
    + intros k [].
    + exact Hr1.
    + unfold RecRecord_resolve, initial_queue. rewrite Hk1.
      apply resolve_queue_fixed. intros k Hin.
      destruct (HJ k Hin) as [v [Hv [_ Hf]]]. eauto.
  - intros Hnd Hpk.
    destruct (resolve_queue_invariant (keys r)
                (fun _ v => reference_free v = true /\
                            (fixed_by_pass v \/ plain_keys v = true))
                (fun _ v => reference_free v = true /\ fixed_by_pass v))
      with (q := initial_queue r) (r := r) (done := @nil string)
      as [r1 [Hr1 _]].
    + intros k v [H1 H2]. auto.
    + intros r0 k v _ HI0 Hv. destruct (HI0 k v Hv) as [Hrv [Hfix | Hp]].
      * exists v. split; [apply Hfix | auto].
      * destruct (plain_keys_succeeds v Hrv Hp (as_dict r0)) as [v1 Ev].
        exists v1. split; [exact Ev |].
        destruct (reference_free_outcome v Hrv) as [res [Hres1 Hres2]].
        apply Hres2. rewrite <- Ev. symmetry. apply Hres1.
    + reflexivity.
    + intros k v Hv. split; [eapply HI; eassumption |]. right.
      destruct (getitem_In_pair r k v Hv) as [k' Hin].
      unfold plain_keys_record in Hpk. rewrite forallb_forall in Hpk.
      apply (Hpk (k', v) Hin).
    + intros k [].
    + intros k Hin.
      apply (Permutation_in k (Permutation_sym (initial_queue_perm r Hnd))).
      exact Hin.
    + exists r1. exact Hr1.
Qed.

(** ** Reference chains *)

Lemma chain_keys : forall names lit, keys (chain names lit) = names.
Proof.
  intros names lit. induction names as [| n rest IH]; [reflexivity |].
  simpl. destruct rest as [| m rest']; [reflexivity |].
  simpl in *. rewrite IH. reflexivity.
Qed.

Lemma at_level_cons : forall n0 names lit d key v,
    at_level names lit d key v -> at_level (n0 :: names) lit d key v.
Proof.
  intros n0 names lit d key v [H | [i [j [t [Hi [Hj [Hv Hle]]]]]]].
  - left. exact H.
  - right. exists (S i), (S j), t. simpl. repeat split; auto. lia.
Qed.

Lemma chain_at_level_1 : forall names lit key v,
    getitem (chain names lit) key = Ok v -> at_level names lit 1 key v.
Proof.
  induction names as [| n rest IH]; intros lit key v H; simpl in H.
  - discriminate.
  - destruct rest as [| m rest'].
    + simpl in H. destruct (String.eqb n key); [| discriminate].
      inversion H. left. reflexivity.
    + cbn [getitem] in H. destruct (String.eqb n key) eqn:E.
      * inversion H; subst. apply String.eqb_eq in E. subst.
        right. exists 0%nat, 1%nat, m. simpl. repeat split. lia.
      * apply at_level_cons. apply IH. exact H.
Qed.

Lemma at_level_weaken : forall names lit d key v,
    at_level names lit (d + d) key v -> at_level names lit d key v.
Proof.
  intros names lit d key v [H | [i [j [t [Hi [Hj [Hv Hle]]]]]]].
  - left. exact H.
  - right. exists i, j, t. repeat split; auto. lia.
Qed.

Lemma primitive_fixed : forall lit d,
    is_primitive lit = true ->
    fmap (fun x => resolve d (pure x)) lit = Ok lit.
Proof.
  intros lit d H. destruct lit; try discriminate; reflexivity.
Qed.

(** One step of a pass doubles the distance a field of the chain refers
    over, whichever fields the pass has processed before. *)
Lemma chain_step : forall names lit d,
    NoDup names ->
    Forall (fun nm => no_dot nm = true) names ->
    is_primitive lit = true ->
    forall r key v,
      keys r = names ->
      (forall k' v', getitem r k' = Ok v' -> at_level names lit d k' v') ->
      getitem r key = Ok v ->
      exists v1, fmap (resolve_leaf r) v = Ok v1 /\
                 at_level names lit (d + d) key v1.
Proof.
  intros names lit d Hnd Hdot Hlit r key v Hks HI Hv.
  destruct (HI key v Hv) as [E | [i [j [t [Hi [Hj [E Hle]]]]]]].
  - subst v. exists lit. split; [| left; reflexivity].
    apply primitive_fixed. exact Hlit.
  - subst v.
    assert (Ht : In t names) by (eapply nth_error_In; eassumption).
    assert (Htd : no_dot t = true).
    { rewrite Forall_forall in Hdot. apply Hdot. exact Ht. }
    destruct (getitem_In r t) as [w Hw]; [rewrite Hks; exact Ht |].
    exists w. split.
    + simpl. unfold resolve_leaf. simpl.
      rewrite (get_deep_field r t Htd), Hw. reflexivity.
    + destruct (HI t w Hw) as [E | [i' [j' [t' [Hi' [Hj' [E Hle']]]]]]].
      * left. exact E.
      * right. exists i, j', t'. repeat split; auto.
        assert (Hij : i' = j).
        { apply (proj1 (NoDup_nth_error names) Hnd).
          - apply nth_error_Some. rewrite Hi'. discriminate.
          - rewrite Hi', Hj. reflexivity. }
        lia.
Qed.

Lemma chain_pass : forall names lit d,
    NoDup names ->
    Forall (fun nm => no_dot nm = true) names ->
    is_primitive lit = true ->
    forall r,
      keys r = names ->
      (forall k v, getitem r k = Ok v -> at_level names lit d k v) ->
      exists r1,
        RecRecord_resolve r = Ok r1 /\ keys r1 = names /\
        (forall k v, getitem r1 k = Ok v -> at_level names lit (d + d) k v).
Proof.
  intros names lit d Hnd Hdot Hlit r Hks HI.
  assert (Hperm : Permutation names (initial_queue r)).
  { rewrite <- Hks. apply initial_queue_perm. rewrite Hks. exact Hnd. }
  destruct (resolve_queue_invariant names
              (at_level names lit d) (at_level names lit (d + d)))
    with (q := initial_queue r) (r := r) (done := @nil string)
    as [r1 [Hr1 [Hk1 [_ HJ]]]].
  - apply at_level_weaken.
  - apply chain_step; assumption.
  - exact Hks.
  - exact HI.
  - intros k [].
  - intros k Hin. apply (Permutation_in k (Permutation_sym Hperm)). exact Hin.
  - exists r1. split; [exact Hr1 |]. split; [exact Hk1 |].
    intros k v Hv.
    assert (Hin : In k (initial_queue r)).
    { apply (Permutation_in k Hperm). rewrite <- Hk1.
      eapply getitem_keys. eassumption. }
    destruct (HJ k Hin) as [v' [Hv' HJv]]. simpl in Hv'.
    rewrite Hv in Hv'. inversion Hv'; subst. exact HJv.
Qed.

Lemma chain_rounds : forall names lit,
    NoDup names ->
    Forall (fun nm => no_dot nm = true) names ->
    is_primitive lit = true ->
    forall n d r,
      keys r = names ->
      (forall k v, getitem r k = Ok v -> at_level names lit d k v) ->
      exists r1,
        rounds n r = Ok r1 /\ keys r1 = names /\
        (forall k v, getitem r1 k = Ok v -> at_level names lit (d * 2 ^ n) k v).
Proof.
  intros names lit Hnd Hdot Hlit.
  induction n as [| n IH]; intros d r Hks HI.
  - exists r. simpl. rewrite Nat.mul_1_r. auto.
  - destruct (chain_pass names lit d Hnd Hdot Hlit r Hks HI)
      as [r1 [Hr1 [Hk1 HI1]]].
    destruct (IH (d + d)%nat r1 Hk1 HI1) as [r2 [Hr2 [Hk2 HI2]]].
    exists r2. cbn [rounds]. rewrite Hr1. simpl bind.
    replace (d * 2 ^ S n)%nat with ((d + d) * 2 ^ n)%nat
      by (rewrite Nat.pow_succ_r'; lia).
    auto.
Qed.

Lemma record_all_literal : forall names lit (r : record),
    NoDup names -> keys r = names ->
    (forall k v, getitem r k = Ok v -> v = lit) ->
    r = all_literal names lit.
Proof.
  induction names as [| n rest IH]; intros lit r Hnd Hks Hall.
  - destruct r; [reflexivity | discriminate].
  - destruct r as [| [k v] r']; [discriminate |].
    simpl in Hks. injection Hks as Hk Hrest. subst k.
    apply NoDup_cons_iff in Hnd. destruct Hnd as [Hnotin Hnd].
    simpl. f_equal.
    + f_equal. apply (Hall n). simpl. rewrite String.eqb_refl. reflexivity.
    + apply IH; auto. intros k' v' Hg. apply (Hall k'). simpl.
      destruct (String.eqb n k') eqn:E; [| exact Hg].
      apply String.eqb_eq in E. subst k'.
      exfalso. apply Hnotin. rewrite <- Hrest.
      eapply getitem_keys. eassumption.
Qed.

Lemma all_literal_resolved : forall names lit,
    is_primitive lit = true -> fully_resolved (all_literal names lit) = true.
Proof.
  intros names lit H. induction names as [| n rest IH]; [reflexivity |].
  unfold fully_resolved, all_literal in *. cbn [map forallb snd].
  rewrite IH. destruct lit; try discriminate; reflexivity.
Qed.

(** Whatever the order of the queue, [n] passes leave the literal in every
    field of a chain of at most [2 ^ n] fields. *)
Lemma chain_resolved_after : forall names lit n,
    NoDup names ->
    Forall (fun nm => no_dot nm = true) names ->
    is_primitive lit = true ->
    (List.length names <= 2 ^ n)%nat ->
    rounds n (chain names lit) = Ok (all_literal names lit).
Proof.
  intros names lit n Hnd Hdot Hlit Hlen.
  destruct (chain_rounds names lit Hnd Hdot Hlit n 1 (chain names lit))
    as [r1 [Hr1 [Hk1 HI1]]].
  - apply chain_keys.
  - apply chain_at_level_1.
  - rewrite Hr1. f_equal. apply record_all_literal; auto.
    intros k v Hv.
    destruct (HI1 k v Hv) as [E | [i [j [t [Hi [Hj [E Hle]]]]]]]; [exact E |].
    exfalso.
    assert (Hj' : (j < List.length names)%nat).
    { apply nth_error_Some. rewrite Hj. discriminate. }
    lia.
Qed.

(** In particular as many passes as the chain is deep are enough. *)
Lemma chain_resolved_within_depth : forall names lit,
    NoDup names ->
    Forall (fun nm => no_dot nm = true) names ->
    is_primitive lit = true ->
    rounds (List.length names - 1) (chain names lit) = Ok (all_literal names lit).
Proof.
  intros names lit Hnd Hdot Hlit.
  apply chain_resolved_after; try assumption.
  pose proof (Nat.pow_gt_lin_r 2 (List.length names - 1)) as H. lia.
Qed.

(** ** Generation from a record *)

Lemma draws_builds_just : forall (items : dict_items) (w : value),
    draws (SBuildsDict
             (map (fun kv => (Some (SJust (fst kv)), Some (SJust (snd kv)))) items))
          w <->
    exists d, build_dict items = Ok d /\ w = PyDict d.
Proof.
  intros items w. split.
  - intro H. inversion H as [| | | | sp tuples d HF Hb | |]; subst.
    assert (E : tuples = items).
    { clear - HF. revert tuples HF.
      induction items as [| [k v] rest IH]; intros tuples HF;
        inversion HF as [| x y l l' Hxy Hrest]; subst.
      - reflexivity.
      - destruct Hxy as [sk [sv [Hsp [Hk Hv]]]].
        inversion Hsp; subst. inversion Hk; subst. inversion Hv; subst.
        destruct y as [k' v']. simpl. f_equal. apply IH. exact Hrest. }
    subst tuples. eauto.
  - intros [d [Hb Hw]]. subst w. apply draws_builds with (tuples := items).
    + clear Hb. induction items as [| [k v] rest IH]; constructor.
      * exists (SJust k), (SJust v). simpl. repeat split; constructor.
      * exact IH.
    + exact Hb.
Qed.

Lemma draws_flatmap_fixed : forall (f : value -> result (option strategy))
                                   (s0 : strategy) (x : value),
    (forall w, draws s0 w <-> w = x) ->
    f x = Ok (Some s0) ->
    forall n w, draws (Nat.iter n (fun s => SFlatmap s f) s0) w <-> w = x.
Proof.
  intros f s0 x Hs0 Hf. induction n as [| n IH]; intro w.
  - apply Hs0.
  - simpl. split.
    + intro H. inversion H as [| | | | | | s f' v s' w' Hv Hfv Hw]; subst.
      apply IH in Hv. subst v. rewrite Hf in Hfv. inversion Hfv; subst.
      apply Hs0. exact Hw.
    + intro E. subst w. apply draws_flatmap with (v := x) (s' := s0).
      * apply IH. reflexivity.
      * exact Hf.
      * apply Hs0. reflexivity.
Qed.

(** A record of two fields that a pass does not change, and whose nodes
    are deferred references, is all that generation returns. *)
Lemma stuck_record_generation : forall (x y : string),
    RecRecord_resolve [("a", Ref x); ("b", Ref y)] =
    Ok [("a", Ref x); ("b", Ref y)] ->
    forall n w,
      draws (Nat.iter n (fun s => SFlatmap s strategize_round)
               (SBuildsDict [(Some (SJust (PyStr "a")), Some (SJust (Ref x)));
                             (Some (SJust (PyStr "b")), Some (SJust (Ref y)))]))
            w <->
      w = PyDict [(PyStr "a", Ref x); (PyStr "b", Ref y)].
Proof.
  intros x y Hfix. apply draws_flatmap_fixed.
  - intro w.
    rewrite (draws_builds_just [(PyStr "a", Ref x); (PyStr "b", Ref y)] w).
    split.
    + intros [d [Hd Hw]]. inversion Hd; subst. reflexivity.
    + intro E. subst w. eexists. split; reflexivity.
  - unfold strategize_round, _resolve_rec_dict. simpl.
    rewrite Hfix. reflexivity.
Qed.

(** C3.  For the record [a = Ref("b"), b = Ref("a")] the construction of
    the generator returns, and so does generation; what it returns, without
    any failure, is a mapping whose two fields are still references. *)
Theorem cyclic_record_returns_references :
  exists s v,
    RecRecord_strategize cyclic_record = Ok s /\
    (forall w, draws s w <-> w = v) /\
    (v = PyDict [(PyStr "a", Ref "a"); (PyStr "b", Ref "a")] \/
     v = PyDict [(PyStr "a", Ref "b"); (PyStr "b", Ref "b")]) /\
    has_deferred v = true.
Proof.
  assert (Hq : set_order ["a"; "b"] = ["a"; "b"] \/
               set_order ["a"; "b"] = ["b"; "a"]).
  { apply Permutation_length_2_inv. apply set_order_perm.
    repeat constructor; simpl; intuition discriminate. }
  destruct Hq as [Hq | Hq].
  - assert (Hpass : forall x,
               x = "a" \/ x = "b" ->
               RecRecord_resolve [("a", Ref x); ("b", Ref "a")] =
               Ok [("a", Ref "a"); ("b", Ref "a")]).
    { intros x [E | E]; subst x; unfold RecRecord_resolve, initial_queue;
        simpl; rewrite Hq; reflexivity. }
    exists (Nat.iter 8 (fun s => SFlatmap s strategize_round)
              (SBuildsDict [(Some (SJust (PyStr "a")), Some (SJust (Ref "a")));
                            (Some (SJust (PyStr "b")), Some (SJust (Ref "a")))])).
    exists (PyDict [(PyStr "a", Ref "a"); (PyStr "b", Ref "a")]).
    split; [| split; [| split; [left; reflexivity | reflexivity]]].
    + unfold RecRecord_strategize, cyclic_record.
      rewrite (Hpass "b" (or_intror eq_refl)). reflexivity.
    + intro w.
      apply (stuck_record_generation "a" "a" (Hpass "a" (or_introl eq_refl))).
  - assert (Hpass : forall x,
               x = "a" \/ x = "b" ->
               RecRecord_resolve [("a", Ref "b"); ("b", Ref x)] =
               Ok [("a", Ref "b"); ("b", Ref "b")]).
    { intros x [E | E]; subst x; unfold RecRecord_resolve, initial_queue;
        simpl; rewrite Hq; reflexivity. }
    exists (Nat.iter 8 (fun s => SFlatmap s strategize_round)
              (SBuildsDict [(Some (SJust (PyStr "a")), Some (SJust (Ref "b")));
                            (Some (SJust (PyStr "b")), Some (SJust (Ref "b")))])).
    exists (PyDict [(PyStr "a", Ref "b"); (PyStr "b", Ref "b")]).
    split; [| split; [| split; [right; reflexivity | reflexivity]]].
    + unfold RecRecord_strategize, cyclic_record.
      rewrite (Hpass "a" (or_introl eq_refl)). reflexivity.
    + intro w.
      apply (stuck_record_generation "b" "b" (Hpass "b" (or_intror eq_refl))).
Qed.

(** ** Reference chains resolved in field order *)

Lemma keys_tabulate : forall g names start, keys (tabulate g start names) = names.
Proof.
  intros g names. induction names as [| n rest IH]; intro start; simpl.
  - reflexivity.
  - unfold keys in IH. rewrite IH. reflexivity.
Qed.

Lemma tabulate_ext : forall g g' names start,
    (forall i, (start <= i < start + List.length names)%nat -> g i = g' i) ->
    tabulate g start names = tabulate g' start names.
Proof.
  intros g g' names. induction names as [| n rest IH]; intros start H; simpl.
  - reflexivity.
  - rewrite (H start) by (simpl; lia). f_equal.
    apply IH. intros i Hi. apply H. simpl. lia.
Qed.

Lemma getitem_tabulate : forall g names start p k,
    NoDup names -> nth_error names p = Some k ->
    getitem (tabulate g start names) k = Ok (g (start + p)%nat).
Proof.
  intros g names. induction names as [| n rest IH]; intros start p k Hnd Hp.
  - destruct p; discriminate.
  - apply NoDup_cons_iff in Hnd. destruct Hnd as [Hnotin Hnd]. simpl.
    destruct p as [| p]; simpl in Hp.
    + inversion Hp; subst. rewrite String.eqb_refl, Nat.add_0_r. reflexivity.
    + destruct (String.eqb n k) eqn:E.
      * apply String.eqb_eq in E. subst. exfalso. apply Hnotin.
        eapply nth_error_In. eassumption.
      * rewrite (IH (S start) p k Hnd Hp). f_equal. f_equal. lia.
Qed.

Lemma setitem_tabulate : forall g v names start p k,
    NoDup names -> nth_error names p = Some k ->
    setitem (tabulate g start names) k v =
    tabulate (fun i => if (i =? start + p)%nat then v else g i) start names.
Proof.
  intros g v names. induction names as [| n rest IH]; intros start p k Hnd Hp.
  - destruct p; discriminate.
  - apply NoDup_cons_iff in Hnd. destruct Hnd as [Hnotin Hnd]. simpl.
    destruct p as [| p]; simpl in Hp.
    + inversion Hp; subst. rewrite String.eqb_refl, Nat.add_0_r, Nat.eqb_refl.
      f_equal. apply tabulate_ext. intros i Hi.
      destruct (i =? start)%nat eqn:E; [| reflexivity].
      apply Nat.eqb_eq in E. lia.
    + destruct (String.eqb n k) eqn:E.
      * apply String.eqb_eq in E. subst. exfalso. apply Hnotin.
        eapply nth_error_In. eassumption.
      * destruct (start =? start + S p)%nat eqn:E';
          [apply Nat.eqb_eq in E'; lia |].
        f_equal. rewrite (IH (S start) p k Hnd Hp).
        apply tabulate_ext. intros i _.
        replace (S start + p)%nat with (start + S p)%nat by lia. reflexivity.
Qed.

Lemma chain_tabulate : forall names lit pre,
    chain names lit =
    tabulate (pointing (pre ++ names) lit 1) (List.length pre) names.
Proof.
  induction names as [| n rest IH]; intros lit pre.
  - reflexivity.
  - assert (Hhead : pointing (pre ++ n :: rest) lit 1 (List.length pre) =
                    match rest with
                    | [] => lit
                    | m :: _ => Ref m
                    end).
    { unfold pointing. rewrite nth_error_app2 by lia.
      replace (List.length pre + 1 - List.length pre)%nat with 1%nat by lia.
      destruct rest; reflexivity. }
    assert (Htail : chain rest lit =
                    tabulate (pointing (pre ++ n :: rest) lit 1)
                             (S (List.length pre)) rest).
    { rewrite (IH lit (pre ++ [n])). rewrite <- app_assoc. simpl.
      rewrite length_app. simpl.
      replace (List.length pre + 1)%nat with (S (List.length pre)) by lia.
      reflexivity. }
    cbn [tabulate]. rewrite Hhead. destruct rest as [| m rest'].
    + reflexivity.
    + cbn [chain]. cbn [chain] in Htail. rewrite Htail. reflexivity.
Qed.

Lemma chain_is_state : forall names lit, chain names lit = chain_state names lit 1.
Proof.
  intros names lit. exact (chain_tabulate names lit []).
Qed.

(** The rest of a pass in field order, from field number [p] on. *)
Lemma field_order_queue : forall names lit d,
    NoDup names ->
    Forall (fun nm => no_dot nm = true) names ->
    is_primitive lit = true ->
    forall queue p,
      skipn p names = queue ->
      resolve_queue queue (tabulate (half_done names lit d p) 0 names) =
      Ok (tabulate (half_done names lit d (List.length names)) 0 names).
Proof.
  intros names lit d Hnd Hdot Hlit.
  induction queue as [| k queue IH]; intros p Hp.
  - simpl. f_equal. apply tabulate_ext. intros i Hi. unfold half_done.
    assert (Hlen : (List.length names <= p)%nat).
    { destruct (Nat.le_gt_cases (List.length names) p) as [H | H]; [exact H |].
      assert (Hl : List.length (skipn p names) = 0%nat) by (rewrite Hp; reflexivity).
      rewrite length_skipn in Hl. lia. }
    destruct (Nat.ltb_spec i p), (Nat.ltb_spec i (List.length names));
      try reflexivity; lia.
  - assert (Hk : nth_error names p = Some k).
    { rewrite <- (firstn_skipn p names) at 1. rewrite Hp.
      assert (Hl : (p <= List.length names)%nat).
      { destruct (Nat.le_gt_cases p (List.length names)) as [H | H]; [exact H |].
        rewrite skipn_all2 in Hp by lia. discriminate. }
      rewrite nth_error_app2; rewrite length_firstn, Nat.min_l by exact Hl;
        [| lia].
      rewrite Nat.sub_diag. reflexivity. }
    assert (Hnext : skipn (S p) names = queue).
    { replace (S p) with (1 + p)%nat by lia.
      rewrite <- skipn_skipn, Hp. reflexivity. }
    cbn [resolve_queue].
    rewrite (getitem_tabulate _ names 0 p k Hnd Hk). simpl.
    assert (Hnew : fmap (resolve_leaf (tabulate (half_done names lit d p) 0 names))
                        (half_done names lit d p p) =
                   Ok (pointing names lit (d + d) p)).
    { unfold half_done at 2. rewrite Nat.ltb_irrefl.
      unfold pointing at 1.
      destruct (nth_error names (p + d)) as [t |] eqn:Ht.
      - assert (Htd : no_dot t = true).
        { rewrite Forall_forall in Hdot. apply Hdot.
          eapply nth_error_In. eassumption. }
        simpl. unfold resolve_leaf. simpl.
        rewrite (get_deep_field _ t Htd).
        rewrite (getitem_tabulate _ names 0 (p + d) t Hnd Ht). simpl.
        unfold half_done.
        destruct (Nat.ltb_spec (p + d) p) as [Hlt | Hge]; [lia |].
        unfold pointing.
        replace (p + (d + d))%nat with (p + d + d)%nat by lia. reflexivity.
      - unfold resolve_leaf. rewrite (primitive_fixed lit _ Hlit).
        unfold pointing.
        assert (Hnone : nth_error names (p + (d + d)) = None).
        { apply nth_error_None. apply nth_error_None in Ht. lia. }
        rewrite Hnone. reflexivity. }
    rewrite Hnew. simpl.
    rewrite (setitem_tabulate _ _ names 0 p k Hnd Hk).
    rewrite <- (IH (S p) Hnext). f_equal.
    apply tabulate_ext. intros i Hi. unfold half_done. simpl.
    destruct (Nat.eqb_spec i p) as [E | E].
    + subst i. destruct (Nat.ltb_spec p (S p)); [reflexivity | lia].
    + destruct (Nat.ltb_spec i p), (Nat.ltb_spec i (S p));
        try reflexivity; lia.
Qed.

Lemma field_order_pass : forall names lit d,
    NoDup names ->
    Forall (fun nm => no_dot nm = true) names ->
    is_primitive lit = true ->
    set_order names = names ->
    RecRecord_resolve (chain_state names lit d) =
    Ok (chain_state names lit (d + d)).
Proof.
  intros names lit d Hnd Hdot Hlit Hord.
  unfold RecRecord_resolve, initial_queue, chain_state.
  rewrite keys_tabulate, Hord.
  assert (E0 : tabulate (pointing names lit d) 0 names =
               tabulate (half_done names lit d 0) 0 names).
  { apply tabulate_ext. intros i _. reflexivity. }
  rewrite E0.
  rewrite (field_order_queue names lit d Hnd Hdot Hlit names 0 eq_refl).
  f_equal. apply tabulate_ext. intros i Hi. unfold half_done.
  destruct (Nat.ltb_spec i (List.length names)); [reflexivity | lia].
Qed.

Lemma field_order_rounds : forall names lit,
    NoDup names ->
    Forall (fun nm => no_dot nm = true) names ->
    is_primitive lit = true ->
    set_order names = names ->
    forall n d,
      rounds n (chain_state names lit d) = Ok (chain_state names lit (d * 2 ^ n)).
Proof.
  intros names lit Hnd Hdot Hlit Hord.
  induction n as [| n IH]; intro d; simpl.
  - rewrite Nat.mul_1_r. reflexivity.
  - rewrite (field_order_pass names lit d Hnd Hdot Hlit Hord). simpl.
    rewrite IH. f_equal. f_equal. lia.
Qed.

Lemma tabulate_resolved : forall g names start,
    fully_resolved (tabulate g start names) = true <->
    forall i, (start <= i < start + List.length names)%nat ->
              has_deferred (g i) = false.
Proof.
  intros g names. induction names as [| n rest IH]; intro start; simpl.
  - split; [intros _ i Hi; lia | reflexivity].
  - unfold fully_resolved in *. cbn [forallb snd].
    rewrite andb_true_iff, IH, negb_true_iff. split.
    + intros [H0 Hrest] i Hi.
      destruct (Nat.eq_dec i start) as [E | E]; [subst; exact H0 |].
      apply Hrest. lia.
    + intro H. split; [apply H; lia |].
      intros i Hi. apply H. lia.
Qed.

Lemma chain_state_resolved : forall names lit d,
    is_primitive lit = true ->
    (fully_resolved (chain_state names lit d) = true <->
     (List.length names <= d)%nat).
Proof.
  intros names lit d Hlit. unfold chain_state. rewrite tabulate_resolved.
  assert (Hl : has_deferred lit = false).
  { destruct lit; try discriminate; reflexivity. }
  split.
  - intro H. destruct names as [| n rest]; [simpl; lia |].
    destruct (Nat.le_gt_cases (List.length (n :: rest)) d) as [Hle | Hgt];
      [exact Hle |].
    specialize (H 0%nat). simpl in H. unfold pointing in H. simpl in H.
    destruct (nth_error (n :: rest) d) eqn:E.
    + discriminate H. simpl in Hgt. lia.
    + apply nth_error_None in E. lia.
  - intros Hle i Hi. unfold pointing.
    assert (E : nth_error names (i + d) = None) by (apply nth_error_None; lia).
    rewrite E. exact Hl.
Qed.

(** C5 (as amended).  For the reference chain over distinct field names
    without dots, ending in a primitive literal: whatever the order of the
    queue, [n] passes return the record in which every field holds the
    literal as soon as the chain has at most [2 ^ n] fields, and so do as
    many passes as the chain is deep; and when the queue is in field order,
    the record after [n] passes is fully resolved exactly when the chain has
    at most [2 ^ n] fields. *)
Theorem chain_rounds_needed : forall names lit,
    NoDup names ->
    Forall (fun nm => no_dot nm = true) names ->
    is_primitive lit = true ->
    rounds (List.length names - 1) (chain names lit) = Ok (all_literal names lit) /\
    fully_resolved (all_literal names lit) = true /\
    (forall n, (List.length names <= 2 ^ n)%nat ->
               rounds n (chain names lit) = Ok (all_literal names lit)) /\
    (set_order names = names ->
     forall n, exists r,
         rounds n (chain names lit) = Ok r /\
         (fully_resolved r = true <-> (List.length names <= 2 ^ n)%nat)).
Proof.
  intros names lit Hnd Hdot Hlit. split; [| split; [| split]].
  - apply chain_resolved_within_depth; assumption.
  - apply all_literal_resolved. exact Hlit.
  - intros n Hlen. apply chain_resolved_after; assumption.
  - intros Hord n. exists (chain_state names lit (1 * 2 ^ n)). split.
    + rewrite chain_is_state.
      apply field_order_rounds; assumption.
    + rewrite Nat.mul_1_l. apply chain_state_resolved. exact Hlit.
Qed.

(** * Further properties *)

(** ** Paths *)

Lemma split_cons : forall s, exists w ws, split "." s = w :: ws.
Proof.
  induction s as [| c s [w [ws IH]]]; simpl.
  - eauto.
  - destruct (Ascii.eqb c "."); [eauto |]. rewrite IH. eauto.
Qed.

Lemma split_app : forall p q,
    split "." (p ++ String "." q) = split "." p ++ split "." q.
Proof.
  induction p as [| c p IH]; intro q; simpl.
  - reflexivity.
  - destruct (Ascii.eqb c "."); rewrite IH; [reflexivity |].
    destruct (split_cons p) as [w [ws E]]. rewrite E. reflexivity.
Qed.

Lemma get_steps_bind : forall segments acc,
    fold_left get_step segments acc =
    (d' <- acc ;; fold_left get_step segments (Ok d')).
Proof.
  intros segments [d | e]; simpl; [reflexivity | apply get_steps_Raise].
Qed.

Lemma get_steps_empty : forall segments,
    fold_left get_step segments (Ok (PyDict [])) = Ok (PyDict []).
Proof.
  induction segments as [| k ks IH]; simpl; [reflexivity | exact IH].
Qed.

(** X1.  A dotted path is followed piece by piece: looking up [p.q] is
    looking up [q] in what the lookup of [p] returns, and raises what that
    lookup raises. *)
Theorem get_deep_compose : forall d p q,
    get_deep d (p ++ String "." q) = (d' <- get_deep d p ;; get_deep d' q).
Proof.
  intros d p q. unfold get_deep.
  rewrite split_app, fold_left_app. apply get_steps_bind.
Qed.

(** X2.  Below a key that is missing every lookup returns the empty
    mapping, however long the rest of the path is; it never raises. *)
Theorem get_deep_below_missing_key : forall items k q,
    no_dot k = true ->
    dict_lookup (PyStr k) items = None ->
    get_deep (PyDict items) k = Ok (PyDict []) /\
    get_deep (PyDict items) (k ++ String "." q) = Ok (PyDict []).
Proof.
  intros items k q Hk Hnone.
  assert (E : get_deep (PyDict items) k = Ok (PyDict [])).
  { unfold get_deep. rewrite (split_no_dot k Hk). simpl. rewrite Hnone.
    reflexivity. }
  split; [exact E |].
  unfold get_deep. rewrite split_app, fold_left_app.
  fold (get_deep (PyDict items) k). rewrite E. apply get_steps_empty.
Qed.

(** ** The Range validator, as the code has it *)

(** X3.  What [Range.__call__] does with a value.  It never raises
    [Invalid]: every rejection is the type error of the call that should
    have built the exception.  A number is rejected exactly when it is
    above the minimum and, if a maximum is set, not below it, and is
    returned otherwise, so a validator without a minimum rejects no number;
    a value that is no number raises a type error, from the comparison, as
    soon as a bound is set. *)
Theorem Range_call_outcomes : forall (mn mx : option Z) (v : value),
    Range_call mn mx v <> Raise Invalid /\
    (forall n, as_number v = Some n ->
               (Range_call mn mx v = Raise TypeError <->
                (exists m, mn = Some m /\ n > m) /\
                (mx = None \/ exists m, mx = Some m /\ n >= m)) /\
               (Range_call mn mx v = Raise TypeError \/ Range_call mn mx v = Ok v) /\
               (mn = None -> Range_call mn mx v = Ok v)) /\
    (as_number v = None ->
     Range_call mn mx v =
     match mn, mx with
     | None, None => Ok v
     | _, _ => Raise TypeError
     end).
Proof.
  intros mn mx v. split; [apply Range_call_never_Invalid |].
  unfold Range_call, le_number, ge_number. split.
  - intros n Hn. rewrite Hn.
    destruct mn as [a |], mx as [b |]; simpl.
    + destruct (n <=? a) eqn:Ha, (n >=? b) eqn:Hb; simpl;
        (split; [split; intro H | split; [auto | intro; discriminate]]);
        try discriminate; try reflexivity.
      * destruct H as [[m [Hm Hgt]] _]. inversion Hm; subst. lia.
      * destruct H as [[m [Hm Hgt]] _]. inversion Hm; subst. lia.
      * split; [exists a; split; [reflexivity | lia] |].
        right. exists b. split; [reflexivity | lia].
      * destruct H as [_ [Hn' | [m [Hm Hge]]]]; [discriminate |].
        inversion Hm; subst. lia.
    + destruct (n <=? a) eqn:Ha; simpl;
        (split; [split; intro H | split; [auto | intro; discriminate]]);
        try discriminate; try reflexivity.
      * destruct H as [[m [Hm Hgt]] _]. inversion Hm; subst. lia.
      * split; [exists a; split; [reflexivity | lia] | left; reflexivity].
    + split; [split; intro H | split; [auto | reflexivity]].
      * destruct (n >=? b); discriminate.
      * destruct H as [[m [Hm _]] _]. discriminate.
    + split; [split; intro H | split; [auto | reflexivity]].
      * discriminate.
      * destruct H as [[m [Hm _]] _]. discriminate.
  - intro Hn. rewrite Hn. destruct mn, mx; reflexivity.
Qed.

(** X4.  The generator of a [Range]: with both bounds numbers or unset it
    draws integers, and every integer it draws lies within the bounds; with
    a bound that is anything else it draws the validator itself,
    unchanged. *)
Theorem Range_strategize_draws : forall mn mx,
    (forall lo hi,
        numeric_bound mn = Some lo -> numeric_bound mx = Some hi ->
        forall w, draws (Range_strategize mn mx) w <->
                  exists z, w = PyInt z /\ in_bounds lo hi z) /\
    (numeric_bound mn = None \/ numeric_bound mx = None ->
     forall w, draws (Range_strategize mn mx) w <-> w = Range mn mx).
Proof.
  intros mn mx. unfold Range_strategize. split.
  - intros lo hi Hlo Hhi w. rewrite Hlo, Hhi. split.
    + intro H. inversion H; subst. eauto.
    + intros [z [E Hz]]. subst w. constructor. exact Hz.
  - intros Hnone w.
    assert (E : match numeric_bound mn, numeric_bound mx with
                | Some lo, Some hi => SIntegers lo hi
                | _, _ => SJust (Range mn mx)
                end = SJust (Range mn mx)).
    { destruct Hnone as [H | H]; rewrite H;
        [| destruct (numeric_bound mn)]; reflexivity. }
    rewrite E. apply draws_just_iff.
Qed.

(** ** Arithmetic nodes *)

(** X5.  [Add] and [Sub] compute on numbers and stay deferred otherwise:
    when every term of an [Add] resolves to a number the node resolves to
    their sum, and when the terms resolve but one of them is no number it
    resolves to itself; a [Sub] whose operands resolve gives their
    difference when both are numbers and itself when not. *)
Theorem arithmetic_on_numbers : forall d : value,
    (forall terms ns,
        Forall2 (fun t n => exists v, resolve d (pure t) = Ok v /\
                                      as_number v = Some n) terms ns ->
        resolve d (Add_init terms) = Ok (PyInt (fold_right Z.add 0 ns))) /\
    (forall terms vs,
        mapM (resolve d) (map pure terms) = Ok vs ->
        Exists (fun v => as_number v = None) vs ->
        resolve d (Add_init terms) = Ok (Add_init terms)) /\
    (forall a b x y,
        resolve d (pure a) = Ok x -> resolve d (pure b) = Ok y ->
        resolve d (Sub_init a b) =
        match as_number x, as_number y with
        | Some m, Some n => Ok (PyInt (m - n))
        | _, _ => Ok (Sub_init a b)
        end).
Proof.
  intro d. split; [| split].
  - intros terms ns H.
    assert (Hvs : exists vs, mapM (resolve d) (map pure terms) = Ok vs /\
                             Forall2 (fun v n => as_number v = Some n) vs ns).
    { induction H as [| t n ts ns' [v [Hv Hn]] _ [vs [Hm HF]]].
      - exists []. split; [reflexivity | constructor].
      - exists (v :: vs). split.
        + cbn [map]. rewrite mapM_cons, Hv, Hm. reflexivity.
        + constructor; assumption. }
    destruct Hvs as [vs [Hm HF]].
    unfold Add_init. cbn [resolve]. rewrite Hm. simpl. unfold py_sum.
    rewrite (sum_from_numbers vs ns 0 HF). reflexivity.
  - intros terms vs Hm Hex.
    unfold Add_init. cbn [resolve]. rewrite Hm. simpl. unfold py_sum.
    rewrite (sum_from_not_number vs 0 Hex). reflexivity.
  - intros a b x y Hx Hy.
    unfold Sub_init. cbn [resolve]. rewrite Hx, Hy. simpl. unfold py_sub.
    destruct (as_number x), (as_number y); reflexivity.
Qed.

(** ** Fields that are missing *)

Lemma getitem_missing : forall (r : record) (k : string),
    ~ In k (keys r) -> getitem r k = Raise KeyError.
Proof.
  intros r k. induction r as [| [k' v] rest IH]; simpl; intro H.
  - reflexivity.
  - destruct (String.eqb k' k) eqn:E.
    + apply String.eqb_eq in E. exfalso. apply H. left. exact E.
    + apply IH. intro Hin. apply H. right. exact Hin.
Qed.

Lemma split1_no_dot : forall s, no_dot s = true -> split1 "." s = [s].
Proof.
  induction s as [| c s IH]; simpl; intro H.
  - reflexivity.
  - apply andb_prop in H. destruct H as [Hc Hs].
    destruct (Ascii.eqb c "."); [discriminate |].
    rewrite (IH Hs). reflexivity.
Qed.

(** X6.  What the deferred values make of a field the record does not
    have: a [Ref] resolves to the empty mapping; a [Sub] over it, and an
    [Add] over it whose other terms resolve, stay deferred; but a
    [DefListAgg] with [sum] over it resolves to 0, with or without a
    sub-field in its path. *)
Theorem missing_field_outcomes : forall (r : record) (k : string),
    no_dot k = true ->
    ~ In k (keys r) ->
    resolve (as_dict r) (Ref k) = Ok (PyDict []) /\
    (forall b, resolve (as_dict r) (Sub_init (Ref k) b) = Ok (Sub_init (Ref k) b)) /\
    (forall ts vs,
        mapM (resolve (as_dict r)) (map pure ts) = Ok vs ->
        resolve (as_dict r) (Add_init (Ref k :: ts)) = Ok (Add_init (Ref k :: ts))) /\
    (forall p, resolve (as_dict r) (DefListAgg_init AggSum k p) = Ok (PyInt 0)) /\
    (forall f p,
        resolve (as_dict r) (DefListAgg_init AggSum (k ++ String "." f) p) =
        Ok (PyInt 0)).
Proof.
  intros r k Hk Hnot.
  assert (E : get_deep (as_dict r) k = Ok (PyDict [])).
  { rewrite (get_deep_field r k Hk), (getitem_missing r k Hnot). reflexivity. }
  split; [exact E |]. split; [| split; [| split]].
  - intro b. unfold Sub_init. cbn [resolve pure is_DeferredVal]. rewrite E.
    simpl. destruct (resolve (as_dict r) (pure b)); reflexivity.
  - intros ts vs Hm. unfold Add_init. cbn [map]. cbn [resolve].
    rewrite mapM_cons. cbn [pure is_DeferredVal resolve]. rewrite E, Hm.
    reflexivity.
  - intro p. unfold DefListAgg_init. rewrite (split1_no_dot k Hk).
    cbn [resolve]. rewrite E. destruct p; reflexivity.
  - intros f p. unfold DefListAgg_init. rewrite (split1_dotted k f Hk).
    cbn [resolve]. rewrite E. destruct p; reflexivity.
Qed.

(** ** What a pass keeps *)

(** X7.  A pass that returns has neither added nor removed nor reordered
    a field, whatever the order of its queue, and so has any number of
    passes. *)
Theorem pass_keeps_fields : forall (n : nat) (r r1 : record),
    rounds n r = Ok r1 -> keys r1 = keys r.
Proof.
  assert (Hpass : forall r r1, RecRecord_resolve r = Ok r1 -> keys r1 = keys r).
  { intros r r1 H.
    destruct (resolve_queue_invariant_partial (fun _ _ => True) (fun _ _ => True))
      with (q := initial_queue r) (r := r) (done := @nil string) (r1 := r1)
      as [Hk _]; auto.
    intros k []. }
  induction n as [| n IH]; intros r r1 H; simpl in H.
  - inversion H; reflexivity.
  - apply bind_Ok in H. destruct H as [r' [Hr' H]].
    rewrite (IH r' r1 H). apply Hpass. exact Hr'.
Qed.

(** ** Records and dictionaries *)

Lemma kwargs_as_dict : forall r : record, kwargs (as_dict r) = Ok r.
Proof.
  intro r. unfold kwargs, as_dict. induction r as [| [k v] rest IH].
  - reflexivity.
  - cbn [map]. rewrite mapM_cons, IH. reflexivity.
Qed.

Lemma kwargs_not_str : forall items,
    existsb (fun kv => negb (is_str (fst kv))) items = true ->
    kwargs (PyDict items) = Raise TypeError.
Proof.
  intros items H. unfold kwargs. induction items as [| [k v] rest IH].
  - discriminate.
  - rewrite mapM_cons. cbn [existsb fst snd] in *.
    destruct k; try reflexivity.
    simpl in H. rewrite (IH H). reflexivity.
Qed.

(** X8.  Resolving the dictionary a record is gives what resolving the
    record gives; a dictionary with a key that is no string cannot be made
    a record, and resolving it raises a type error. *)
Theorem resolve_rec_dict_of_record :
  (forall r : record,
      _resolve_rec_dict (as_dict r) =
      (r1 <- RecRecord_resolve r ;; Ok (as_dict r1))) /\
  (forall items,
      existsb (fun kv => negb (is_str (fst kv))) items = true ->
      _resolve_rec_dict (PyDict items) = Raise TypeError).
Proof.
  split.
  - intro r. unfold _resolve_rec_dict. rewrite kwargs_as_dict. reflexivity.
  - intros items H. unfold _resolve_rec_dict.
    rewrite (kwargs_not_str items H). reflexivity.
Qed.

(** ** The structural map *)

(** X9.  Mapping the identity over a structure without a [LockedList]
    returns the structure: lists, frozen draws, dictionaries and validators
    are rebuilt as they were. *)
Theorem fmap_identity : forall v,
    regular v = true -> fmap (fun x => Ok x) v = Ok v.
Proof.
  induction v using value_nested_ind; intro Hr;
    try discriminate; try reflexivity.
  - (* PyList *)
    simpl in *. rewrite mapM_fixed; [reflexivity |].
    rewrite forallb_forall in Hr. rewrite Forall_forall in *.
    intros x Hx. apply H; auto.
  - (* PyDict *)
    simpl in Hr. apply andb_prop in Hr. destruct Hr as [Hall Hd].
    rewrite forallb_forall in Hall. rewrite Forall_forall in H.
    assert (Hm : mapped_entries (fun x => Ok x) items items).
    { clear Hd. unfold mapped_entries.
      induction items as [| kv rest IH]; constructor.
      - specialize (Hall kv (or_introl eq_refl)).
        apply andb_prop in Hall. destruct Hall as [Hall Hv].
        apply andb_prop in Hall. destruct Hall as [_ Hk].
        destruct (H kv (or_introl eq_refl)) as [IHk IHv]. split; auto.
      - apply IH; intros x Hx; [apply H | apply Hall]; right; exact Hx. }
    destruct (fmap_dict_mapped _ _ _ Hm) as [_ E]. apply E.
    + apply forallb_forall. intros kv Hin. specialize (Hall kv Hin).
      apply andb_prop in Hall. destruct Hall as [Hall _].
      apply andb_prop in Hall. tauto.
    + assumption.
  - (* Range *)
    simpl in *. apply andb_prop in Hr. destruct Hr as [H1 H2].
    rewrite (IHv1 H1), (IHv2 H2). reflexivity.
  - (* Locked *)
    simpl in *. rewrite mapM_fixed; [reflexivity |].
    rewrite forallb_forall in Hr. rewrite Forall_forall in *.
    intros x Hx. apply H; auto.
Qed.

(** ** The stable draw container, mapped and constructed *)

(** X10.  Structural maps of a [LockedList] accumulate on its frozen
    draw: after a map with [f] and a map with [g] the object holds, and
    returns, the image under [g] of the image under [f] of the draw it
    had; its source list is as it was. *)
Theorem LockedList_fmap_accumulates :
  forall f g the_list draw res1 self1 res2 self2,
    LockedList_fmap f (LockedList the_list draw) = Ok (res1, self1) ->
    LockedList_fmap g self1 = Ok (res2, self2) ->
    exists d1 d2,
      mapM (fmap f) draw = Ok d1 /\ mapM (fmap g) d1 = Ok d2 /\
      res1 = Locked d1 /\ res2 = Locked d2 /\
      self2 = LockedList the_list d2 /\
      LockedList_resolve self2 = Ok (Locked d2, self2) /\
      LockedList_strategize self2 = Ok (SJust (Locked d2), self2).
Proof.
  intros f g the_list draw res1 self1 res2 self2 H1 H2.
  unfold LockedList_fmap in H1.
  apply bind_Ok in H1. destruct H1 as [d1 [Hd1 H1]]. inversion H1; subst.
  unfold LockedList_fmap in H2.
  apply bind_Ok in H2. destruct H2 as [d2 [Hd2 H2]]. inversion H2; subst.
  exists d1, d2. repeat split; assumption.
Qed.

(** X11.  What the constructor of a [LockedList] freezes: every element
    of the draw is an example of the generator of some element of the
    source list, every element of the source list has a generator, and the
    draw of an empty source list is empty. *)
Theorem LockedList_init_draw_from_source : forall the_list self,
    LockedList_init the_list self ->
    exists draw,
      self = LockedList the_list draw /\
      Forall (fun v => exists x s, In x the_list /\ strategize x = Some s /\
                                   draws s v) draw /\
      Forall (fun x => strategize x <> None) the_list /\
      (the_list = [] -> draw = []).
Proof.
  intros the_list self [draw Hdraw]. exists draw. split; [reflexivity |].
  inversion Hdraw as [| | | | | elements vs Hsome Hvs |]; subst.
  split; [| split].
  - eapply Forall_impl; [| exact Hvs]. simpl.
    intros v [s [Hin Hs]]. apply in_map_iff in Hin.
    destruct Hin as [x [Hx Hin]]. eauto.
  - apply Forall_forall. intros x Hx.
    rewrite Forall_forall in Hsome. apply Hsome.
    apply in_map. exact Hx.
  - intro E. subst the_list. destruct draw as [| v rest]; [reflexivity |].
    inversion Hvs as [| v0 l0 [s [[] _]] _].
Qed.

(** ** What strategize never draws *)

(** X12.  No generator that [strategize] returns draws [None], the one
    key that the generator of a mapping leaves out. *)
Theorem strategize_never_draws_None : forall v s w,
    strategize v = Some s -> draws s w -> w <> PyNone.
Proof.
  induction v using value_nested_ind; intros s0 w Hs Hw; simpl in Hs;
    try discriminate;
    try (inversion Hs; subst; inversion Hw; subst; discriminate).
  - (* PyType *)
    destruct t; inversion Hs; subst; inversion Hw; subst; discriminate.
  - (* Schema *)
    eapply IHv; eassumption.
  - (* Range *)
    inversion Hs; subst. unfold Range_strategize in Hw.
    destruct (numeric_bound v1); [destruct (numeric_bound v2) |];
      inversion Hw; subst; discriminate.
Qed.

(** ** Aggregates over the items themselves *)

Lemma genexp_items : forall p items,
    Forall (fun it => (exists n, as_number it = Some n) /\
                      (exists b, apply_predicate p it = Ok b)) items ->
    exists vs,
      genexp p ItemId items = (vs, None) /\
      forall acc,
        sum_from acc vs =
        Ok (acc + fold_right Z.add 0 (map number_of (filter (holds p) items))).
Proof.
  intros p items H.
  induction H as [| item rest [[n Hn] [b Hb]] _ [vs [Hg Hs]]].
  - exists []. split; [reflexivity |]. intro acc. simpl. f_equal. lia.
  - assert (Hh : holds p item = truthy b).
    { unfold holds. rewrite Hb. reflexivity. }
    cbn [genexp filter]. rewrite Hb, Hh. destruct (truthy b).
    + cbn [apply_item_resolver]. rewrite Hg.
      exists (item :: vs). split; [reflexivity |].
      intro acc. cbn [sum_from map fold_right]. rewrite Hn, Hs.
      unfold number_of at 2. rewrite Hn. f_equal. lia.
    + exists vs. split; [exact Hg | exact Hs].
Qed.

(** X13.  With a path of one segment a [DefListAgg] aggregates the items
    themselves: against a record whose field holds numbers, it resolves to
    the sum of those the predicate holds for. *)
Theorem DefListAgg_sum_of_items :
  forall (r : record) (k : string) (predicate : option string)
         (lst : value) (items : list value),
    no_dot k = true ->
    getitem r k = Ok lst ->
    py_iter lst = Ok items ->
    Forall (fun it =>
              (exists n, as_number it = Some n) /\
              (exists b, apply_predicate
                           match predicate with Some n => PredFn n | None => PredTrue end
                           it = Ok b)) items ->
    resolve (as_dict r) (DefListAgg_init AggSum k predicate) =
    Ok (PyInt (fold_right Z.add 0
                 (map number_of
                      (filter (holds match predicate with
                                     | Some n => PredFn n
                                     | None => PredTrue
                                     end) items)))).
Proof.
  intros r k predicate lst items Hk Hget Hiter Hitems.
  unfold DefListAgg_init. rewrite (split1_no_dot k Hk). cbn [resolve].
  rewrite (get_deep_field r k Hk), Hget. simpl bind. rewrite Hiter. simpl bind.
  destruct (genexp_items _ items Hitems) as [vs [Hg Hs]].
  cbn [apply_agg]. rewrite Hg. unfold sum_gen. simpl. rewrite Hs.
  reflexivity.
Qed.

(** ** Generation from concrete data *)

Lemma concrete_plain : forall v, concrete v = true -> plain v = true.
Proof.
  induction v using value_nested_ind; intro Hc;
    try discriminate; try reflexivity.
  - simpl in *. apply andb_prop in Hc. destruct Hc as [Hall Hd].
    rewrite Hd, andb_true_r.
    rewrite forallb_forall in *. rewrite Forall_forall in H.
    intros kv Hin. specialize (Hall kv Hin).
    apply andb_prop in Hall. destruct Hall as [Hk Hv].
    destruct (H kv Hin) as [_ IHv]. rewrite (IHv Hv).
    destruct (fst kv); try discriminate. reflexivity.
  - exact Hc.
Qed.

Lemma str_keys_kept : forall items : dict_items,
    forallb (fun kv => is_str (fst kv)) items = true ->
    filter (fun kv => negb (is_None (fst kv))) items = items /\
    forallb (fun kv => hashable (fst kv)) items = true.
Proof.
  induction items as [| [k v] rest IH]; simpl; intro H.
  - auto.
  - apply andb_prop in H. destruct H as [Hk Hrest].
    destruct (IH Hrest) as [E1 E2].
    destruct k; try discriminate. simpl. rewrite E1, E2. auto.
Qed.

Lemma build_dict_str_keys : forall items : dict_items,
    forallb (fun kv => is_str (fst kv)) items = true ->
    distinct_keys items = true ->
    build_dict items = Ok items.
Proof.
  intros items Hs Hd. unfold build_dict.
  destruct (str_keys_kept items Hs) as [E1 E2]. rewrite E1.
  apply (dict_of_pairs_distinct items [] E2 Hd). reflexivity.
Qed.

Lemma draws_builds_concrete : forall items,
    Forall (fun kv =>
              is_str (fst kv) = true /\
              exists s, strategize (snd kv) = Some s /\
                        forall w, draws s w <-> w = snd kv) items ->
    distinct_keys items = true ->
    forall w,
      draws (SBuildsDict
               (map (fun kv => (strategize (fst kv), strategize (snd kv))) items))
            w <-> w = PyDict items.
Proof.
  intros items HF Hd w.
  assert (Hs : forallb (fun kv => is_str (fst kv)) items = true).
  { apply forallb_forall. rewrite Forall_forall in HF.
    intros kv Hin. apply (HF kv Hin). }
  split.
  - intro H. inversion H as [| | | | sp tuples d HF2 Hb | |]; subst.
    assert (E : tuples = items).
    { clear - HF HF2. revert tuples HF2.
      induction HF as [| [k v] rest [Hk [s [Hsv Hdr]]] _ IH]; intros tuples HF2;
        inversion HF2 as [| x y l l' Hxy Hrest]; subst.
      - reflexivity.
      - destruct Hxy as [sk [sv [Hsp [Hdk Hdv]]]]. simpl in *.
        destruct k; try discriminate. simpl in Hsp.
        rewrite Hsv in Hsp. inversion Hsp; subst.
        inversion Hdk; subst. apply Hdr in Hdv.
        destruct y as [k' v']. simpl in *. subst. f_equal.
        apply IH. exact Hrest. }
    subst tuples. rewrite (build_dict_str_keys items Hs Hd) in Hb.
    inversion Hb; reflexivity.
  - intro E. subst w. apply draws_builds with (tuples := items).
    + clear Hd Hs. induction HF as [| [k v] rest [Hk [s [Hsv Hdr]]] _ IH];
        constructor; [| exact IH].
      simpl in *. destruct k; try discriminate.
      exists (SJust (PyStr s0)), s. simpl. rewrite Hsv.
      repeat split; [constructor | apply Hdr; reflexivity].
    + apply build_dict_str_keys; assumption.
Qed.

(** The generator of concrete data draws the data itself and nothing
    else. *)
Lemma concrete_generates : forall v,
    concrete v = true ->
    exists s, strategize v = Some s /\ forall w, draws s w <-> w = v.
Proof.
  induction v using value_nested_ind; intro Hc; try discriminate;
    try (eexists; split; [reflexivity | intro w; apply draws_just_iff]).
  (* PyDict *)
  simpl in Hc. apply andb_prop in Hc. destruct Hc as [Hall Hd].
  eexists. split; [reflexivity |].
  apply draws_builds_concrete; [| exact Hd].
  rewrite forallb_forall in Hall. rewrite Forall_forall in *.
  intros kv Hin. specialize (Hall kv Hin).
  apply andb_prop in Hall. destruct Hall as [Hk Hv].
  split; [exact Hk |]. apply (H kv Hin). exact Hv.
Qed.

Lemma distinct_str_keys : forall r : record,
    NoDup (keys r) ->
    distinct_keys (map (fun kv => (PyStr (fst kv), snd kv)) r) = true.
Proof.
  induction r as [| [k v] rest IH]; simpl; intro Hnd.
  - reflexivity.
  - apply NoDup_cons_iff in Hnd. destruct Hnd as [Hnotin Hnd].
    rewrite (IH Hnd), andb_true_r.
    apply forallb_forall. intros kv Hin. apply in_map_iff in Hin.
    destruct Hin as [[k' v'] [E Hin]]. subst kv. simpl.
    rewrite key_eqb_str. destruct (String.eqb k k') eqn:Ek; [| reflexivity].
    apply String.eqb_eq in Ek. subst k'. exfalso. apply Hnotin.
    apply in_map_iff. exists (k, v'). auto.
Qed.

Lemma concrete_as_dict : forall r : record,
    NoDup (keys r) -> concrete_record r = true -> concrete (as_dict r) = true.
Proof.
  intros r Hnd Hc. unfold as_dict. simpl.
  rewrite (distinct_str_keys r Hnd), andb_true_r.
  unfold concrete_record in Hc. rewrite forallb_forall in *.
  intros kv Hin. apply in_map_iff in Hin. destruct Hin as [kv' [E Hin]].
  subst kv. simpl. apply Hc. exact Hin.
Qed.

Lemma concrete_dict_record : forall items,
    concrete (PyDict items) = true ->
    exists r : record,
      PyDict items = as_dict r /\ NoDup (keys r) /\ concrete_record r = true.
Proof.
  induction items as [| [k v] rest IH]; intro Hc.
  - exists []. repeat split. constructor.
  - simpl in Hc. apply andb_prop in Hc. destruct Hc as [Hall Hd].
    apply andb_prop in Hall. destruct Hall as [Hkv Hall].
    apply andb_prop in Hkv. destruct Hkv as [Hk Hv].
    apply andb_prop in Hd. destruct Hd as [Hfresh Hd].
    destruct IH as [r [E [Hnd Hcr]]].
    { simpl. rewrite Hall, Hd. reflexivity. }
    destruct k; try discriminate.
    exists ((s, v) :: r). unfold as_dict in *. inversion E; subst rest.
    split; [reflexivity |]. split.
    + simpl. constructor; [| exact Hnd].
      intro Hin. apply in_map_iff in Hin. destruct Hin as [[k' v'] [Ek Hin]].
      simpl in Ek. subst k'.
      rewrite forallb_forall in Hfresh.
      specialize (Hfresh (PyStr s, v')). simpl in Hfresh.
      rewrite key_eqb_str, String.eqb_refl in Hfresh.
      assert (Hf : negb true = true); [| discriminate Hf].
      apply Hfresh. apply in_map_iff. exists (s, v'). auto.
    + unfold concrete_record. simpl. rewrite Hv. exact Hcr.
Qed.

Lemma concrete_record_fixed : forall r : record,
    NoDup (keys r) -> concrete_record r = true -> RecRecord_resolve r = Ok r.
Proof.
  intros r Hnd Hc. apply resolve_queue_fixed. intros k Hin.
  assert (Hk : In k (keys r)).
  { apply (Permutation_in k (Permutation_sym (initial_queue_perm r Hnd))).
    exact Hin. }
  destruct (getitem_In r k Hk) as [v Hv]. exists v. split; [exact Hv |].
  intro d. apply plain_fixed. apply concrete_plain.
  destruct (getitem_In_pair r k v Hv) as [k' Hp].
  unfold concrete_record in Hc. rewrite forallb_forall in Hc.
  apply (Hc (k', v) Hp).
Qed.

(** A round on a concrete dictionary returns a generator that draws this
    dictionary and nothing else. *)
Lemma round_concrete : forall items,
    concrete (PyDict items) = true ->
    exists s,
      strategize_round (PyDict items) = Ok (Some s) /\
      forall w, draws s w <-> w = PyDict items.
Proof.
  intros items Hc.
  destruct (concrete_dict_record items Hc) as [r [E [Hnd Hcr]]].
  destruct (concrete_generates (PyDict items) Hc) as [s [Hs Hdr]].
  exists s. split; [| exact Hdr].
  rewrite E in Hs |- *.
  unfold strategize_round, _resolve_rec_dict. rewrite kwargs_as_dict.
  cbn [bind]. rewrite (concrete_record_fixed r Hnd Hcr). cbn [bind].
  rewrite Hs. reflexivity.
Qed.

(** Once the draws are concrete dictionaries, further rounds change
    nothing. *)
Lemma rounds_idle : forall s0 : strategy,
    (forall w, draws s0 w -> exists items, w = PyDict items /\ concrete w = true) ->
    forall n w,
      draws (Nat.iter n (fun s => SFlatmap s strategize_round) s0) w <->
      draws s0 w.
Proof.
  intros s0 Hall. induction n as [| n IH]; intro w; [reflexivity |].
  simpl. split.
  - intro H. inversion H as [| | | | | | s f v s' w' Hv Hf Hw]; subst.
    apply IH in Hv. destruct (Hall v Hv) as [items [E Hc]]. subst v.
    destruct (round_concrete items Hc) as [s [Hs Hdr]].
    rewrite Hs in Hf. inversion Hf; subst s'.
    apply Hdr in Hw. subst w. exact Hv.
  - intro H. destruct (Hall w H) as [items [E Hc]]. subst w.
    destruct (round_concrete items Hc) as [s [Hs Hdr]].
    apply draws_flatmap with (v := PyDict items) (s' := s).
    + apply IH. exact H.
    + exact Hs.
    + apply Hdr. reflexivity.
Qed.

(** *** Draws that cannot raise *)

Lemma concrete_tuples : forall items tuples,
    Forall (fun kv =>
              is_str (fst kv) = true /\
              exists s, strategize (snd kv) = Some s /\
                        forall w, draws s w <-> w = snd kv) items ->
    Forall2 (fun sp kv =>
               exists sk sv, sp = (Some sk, Some sv) /\
                             draws sk (fst kv) /\ draws sv (snd kv))
            (map (fun kv => (strategize (fst kv), strategize (snd kv))) items)
            tuples ->
    tuples = items.
Proof.
  intros items tuples HF. revert tuples.
  induction HF as [| [k v] rest [Hk [s [Hsv Hdr]]] _ IH]; intros tuples HF2;
    inversion HF2 as [| x y l l' Hxy Hrest]; subst.
  - reflexivity.
  - destruct Hxy as [sk [sv [Hsp [Hdk Hdv]]]]. simpl in *.
    destruct k; try discriminate. simpl in Hsp.
    rewrite Hsv in Hsp. inversion Hsp; subst.
    inversion Hdk; subst. apply Hdr in Hdv.
    destruct y as [k' v']. simpl in *. subst. f_equal.
    apply IH. exact Hrest.
Qed.

Lemma just_safe : forall v, ~ fails (SJust v).
Proof. intros v H. inversion H. Qed.

(** The generator of concrete data cannot raise. *)
Lemma concrete_safe : forall v,
    concrete v = true -> forall s, strategize v = Some s -> ~ fails s.
Proof.
  induction v using value_nested_ind; intros Hc st Hs; try discriminate;
    try (inversion Hs; subst st; apply just_safe).
  (* PyDict *)
  simpl in Hc. apply andb_prop in Hc. destruct Hc as [Hall Hd].
  rewrite forallb_forall in Hall.
  assert (Hkv : forall kv, In kv items ->
                           is_str (fst kv) = true /\ concrete (snd kv) = true).
  { intros kv Hin. apply andb_prop. apply Hall. exact Hin. }
  assert (Hgen : Forall (fun kv =>
                           is_str (fst kv) = true /\
                           exists s, strategize (snd kv) = Some s /\
                                     forall w, draws s w <-> w = snd kv) items).
  { apply Forall_forall. intros kv Hin. destruct (Hkv kv Hin) as [Hk Hv].
    split; [exact Hk | apply concrete_generates; exact Hv]. }
  assert (Hstr : forallb (fun kv => is_str (fst kv)) items = true).
  { apply forallb_forall. intros kv Hin. apply (Hkv kv Hin). }
  cbn [strategize] in Hs. inversion Hs; subst st. clear Hs.
  rewrite Forall_forall in H.
  intro Hf.
  inversion Hf as [| sps sp Hin Hnone | sps sk sv Hin Hsk | sps sk sv Hin Hsv
                   | sps tuples e HF2 Hb | | | | | |]; subst.
  - apply in_map_iff in Hin. destruct Hin as [kv [E Hin]]. subst sp.
    destruct (Hkv kv Hin) as [Hk Hv]. cbn [fst snd] in Hnone.
    destruct Hnone as [Hn | Hn].
    + destruct (fst kv); discriminate.
    + destruct (concrete_generates _ Hv) as [s [Hs _]]. congruence.
  - apply in_map_iff in Hin. destruct Hin as [kv [E Hin]].
    destruct (Hkv kv Hin) as [Hk _]. inversion E as [[E1 E2]].
    destruct (fst kv); try discriminate. inversion E1; subst sk.
    exact (just_safe _ Hsk).
  - apply in_map_iff in Hin. destruct Hin as [kv [E Hin]].
    destruct (Hkv kv Hin) as [_ Hv]. inversion E as [[E1 E2]].
    exact (proj2 (H kv Hin) Hv sv E2 Hsv).
  - rewrite (concrete_tuples items tuples Hgen HF2) in Hb.
    rewrite (build_dict_str_keys items Hstr Hd) in Hb. discriminate Hb.
Qed.

Lemma fails_rounds : forall (f : value -> result (option strategy)) s n,
    fails s -> fails (Nat.iter n (fun s' => SFlatmap s' f) s).
Proof.
  intros f s n H. induction n as [| n IH]; [exact H |].
  simpl. apply fails_flatmap_source. exact IH.
Qed.

(** Rounds on concrete dictionaries cannot raise. *)
Lemma rounds_idle_safe : forall s0 : strategy,
    (forall w, draws s0 w -> exists items, w = PyDict items /\ concrete w = true) ->
    ~ fails s0 ->
    forall n, ~ fails (Nat.iter n (fun s => SFlatmap s strategize_round) s0).
Proof.
  intros s0 Hall Hsafe. induction n as [| n IH]; [exact Hsafe |].
  simpl. intro Hf.
  assert (Hround : forall v,
             draws (Nat.iter n (fun s => SFlatmap s strategize_round) s0) v ->
             exists s, strategize_round v = Ok (Some s) /\ ~ fails s).
  { intros v Hv. apply (rounds_idle s0 Hall) in Hv.
    destruct (Hall v Hv) as [items [E Hc]]. subst v.
    destruct (round_concrete items Hc) as [s [Hs _]].
    exists s. split; [exact Hs |].
    assert (Hst : strategize (PyDict items) = Some s).
    { destruct (concrete_generates _ Hc) as [s1 [Hs1 _]].
      destruct (concrete_dict_record items Hc) as [r [E [Hnd Hcr]]].
      unfold strategize_round, _resolve_rec_dict in Hs.
      rewrite E, kwargs_as_dict in Hs. cbn [bind] in Hs.
      rewrite (concrete_record_fixed r Hnd Hcr) in Hs. cbn [bind] in Hs.
      rewrite <- E in Hs. congruence. }
    apply (concrete_safe _ Hc s Hst). }
  inversion Hf as [| | | | | | | s1 f1 Hsrc | s1 f1 v e Hv He | s1 f1 v Hv He
                   | s1 f1 v s' Hv He Hs']; subst.
  - exact (IH Hsrc).
  - destruct (Hround v Hv) as [s2 [Hs _]]. congruence.
  - destruct (Hround v Hv) as [s2 [Hs _]]. congruence.
  - destruct (Hround v Hv) as [s2 [Hs Hsafe']].
    rewrite Hs in He. inversion He; subst s'. exact (Hsafe' Hs').
Qed.

(** X14.  Generation from a record of concrete data returns the record,
    as a dictionary, and nothing else: the first pass and the eight rounds
    leave concrete data as it is. *)
Theorem concrete_record_generates_itself : forall r : record,
    NoDup (keys r) ->
    concrete_record r = true ->
    exists s,
      RecRecord_strategize r = Ok s /\
      forall w, draws s w <-> w = as_dict r.
Proof.
  intros r Hnd Hc.
  pose proof (concrete_as_dict r Hnd Hc) as Hcd.
  destruct (concrete_generates (as_dict r) Hcd) as [s0 [Hs0 Hdr]].
  exists (Nat.iter 8 (fun s => SFlatmap s strategize_round) s0). split.
  - unfold RecRecord_strategize. rewrite (concrete_record_fixed r Hnd Hc).
    cbn [bind]. rewrite Hs0. reflexivity.
  - intro w. rewrite (rounds_idle s0).
    + apply Hdr.
    + intros w' Hw'. apply Hdr in Hw'. subst w'.
      exists (map (fun kv => (PyStr (fst kv), snd kv)) r). split; [reflexivity |].
      exact Hcd.
Qed.

(** ** References between the fields of a record *)

Lemma resolve_queue_one_deferred : forall (r : record) k t v,
    getitem r k = Ok t ->
    (forall k' v', k' <> k -> getitem r k' = Ok v' -> plain v' = true) ->
    fmap (resolve_leaf r) t = Ok v ->
    plain v = true ->
    forall q,
      (forall x, In x q -> In x (keys r)) ->
      resolve_queue q r =
      Ok (if in_dec string_dec k q then setitem r k v else r).
Proof.
  intros r k t v Hk Hothers Hf Hv.
  assert (Hdone : forall q,
             (forall x, In x q -> In x (keys r)) ->
             resolve_queue q (setitem r k v) = Ok (setitem r k v)).
  { intros q Hq. apply resolve_queue_fixed. intros x Hx.
    destruct (string_dec x k) as [E | Hne].
    - subst x. exists v. split; [apply getitem_setitem_same |].
      intro d. apply plain_fixed. exact Hv.
    - destruct (getitem_In r x (Hq x Hx)) as [v' Hv'].
      exists v'. split.
      + rewrite (getitem_setitem_other r k x v Hne). exact Hv'.
      + intro d. apply plain_fixed. apply (Hothers x v' Hne Hv'). }
  induction q as [| x q IH]; intro Hq.
  - reflexivity.
  - cbn [resolve_queue]. destruct (string_dec x k) as [E | Hne].
    + subst x. rewrite Hk. cbn [bind].
      rewrite Hf. cbn [bind]. rewrite Hdone.
      * destruct (in_dec string_dec k (k :: q)) as [_ | Hn]; [reflexivity |].
        exfalso. apply Hn. left. reflexivity.
      * intros y Hy. apply Hq. right. exact Hy.
    + destruct (getitem_In r x (Hq x (or_introl eq_refl))) as [v' Hv'].
      rewrite Hv'. cbn [bind]. unfold resolve_leaf.
      rewrite (plain_fixed v' (Hothers x v' Hne Hv') (as_dict r)). cbn [bind].
      rewrite (setitem_same r x v' Hv'). rewrite IH.
      * destruct (in_dec string_dec k q) as [Hin | Hn];
          destruct (in_dec string_dec k (x :: q)) as [Hin' | Hn'];
          try reflexivity.
        -- exfalso. apply Hn'. right. exact Hin.
        -- exfalso. destruct Hin' as [E | Hin']; [congruence | auto].
      * intros y Hy. apply Hq. right. exact Hy.
Qed.

(** A record whose fields are plain data, except for one deferred term
    that resolves to plain data against the record, is resolved by a
    single pass in any order of the queue. *)
Lemma pass_one_deferred : forall (r : record) k t v,
    NoDup (keys r) ->
    getitem r k = Ok t ->
    (forall k' v', k' <> k -> getitem r k' = Ok v' -> plain v' = true) ->
    fmap (resolve_leaf r) t = Ok v ->
    plain v = true ->
    RecRecord_resolve r = Ok (setitem r k v) /\
    RecRecord_resolve (setitem r k v) = Ok (setitem r k v).
Proof.
  intros r k t v Hnd Hk Hothers Hf Hv.
  assert (Hin : In k (keys r)) by (apply (getitem_keys r k _ Hk)).
  split.
  - unfold RecRecord_resolve.
    rewrite (resolve_queue_one_deferred r k t v Hk Hothers Hf Hv).
    + destruct (in_dec string_dec k (initial_queue r)) as [_ | Hn];
        [reflexivity |].
      exfalso. apply Hn.
      apply (Permutation_in k (initial_queue_perm r Hnd)). exact Hin.
    + intros x Hx.
      apply (Permutation_in x (Permutation_sym (initial_queue_perm r Hnd))).
      exact Hx.
  - assert (Hkeys : keys (setitem r k v) = keys r) by (apply keys_setitem; exact Hin).
    apply resolve_queue_fixed. intros x Hx.
    assert (Hxr : In x (keys r)).
    { rewrite <- Hkeys.
      apply (Permutation_in x (Permutation_sym
                                 (initial_queue_perm (setitem r k v)
                                    ltac:(rewrite Hkeys; exact Hnd)))).
      exact Hx. }
    destruct (string_dec x k) as [E | Hne].
    + subst x. exists v. split; [apply getitem_setitem_same |].
      intro d. apply plain_fixed. exact Hv.
    + destruct (getitem_In r x Hxr) as [v' Hv'].
      exists v'. split.
      * rewrite (getitem_setitem_other r k x v Hne). exact Hv'.
      * intro d. apply plain_fixed. apply (Hothers x v' Hne Hv').
Qed.

(** X15.  A record whose fields are plain data, except for one [Ref] whose
    path leads to plain data, is resolved by a single pass, whatever the
    order of the queue: the reference is replaced by the data it points
    to, the other fields are kept, and a second pass changes nothing. *)
Theorem one_hop_reference_resolves : forall (r : record) k path v,
    NoDup (keys r) ->
    getitem r k = Ok (Ref path) ->
    (forall k' v', k' <> k -> getitem r k' = Ok v' -> plain v' = true) ->
    get_deep (as_dict r) path = Ok v ->
    plain v = true ->
    RecRecord_resolve r = Ok (setitem r k v) /\
    RecRecord_resolve (setitem r k v) = Ok (setitem r k v).
Proof.
  intros r k path v Hnd Hk Hothers Hget Hv.
  apply (pass_one_deferred r k (Ref path) v Hnd Hk Hothers); [exact Hget | exact Hv].
Qed.

Lemma two_field_queue : forall (k1 k2 : string) (v1 v2 : value),
    k1 <> k2 ->
    initial_queue [(k1, v1); (k2, v2)] = [k1; k2] \/
    initial_queue [(k1, v1); (k2, v2)] = [k2; k1].
Proof.
  intros k1 k2 v1 v2 Hne. apply Permutation_length_2_inv.
  apply (initial_queue_perm [(k1, v1); (k2, v2)]). simpl.
  constructor; [| constructor; [| constructor]]; simpl; intuition.
Qed.

Lemma draws_builds_field : forall (k : string) (s : strategy) (w : value),
    draws (SBuildsDict [(Some (SJust (PyStr k)), Some s)]) w <->
    exists v, draws s v /\ w = PyDict [(PyStr k, v)].
Proof.
  intros k s w. split.
  - intro H. inversion H as [| | | | sp tuples d HF Hb | |]; subst.
    inversion HF as [| x1 [k1 v1] l1 l1' [sk1 [sv1 [E1 [Hk1 Hv1]]]] HF1]; subst.
    inversion HF1; subst. inversion E1; subst.
    simpl in Hk1, Hv1. inversion Hk1; subst.
    exists v1. split; [exact Hv1 |].
    rewrite build_dict_str_keys in Hb by reflexivity.
    inversion Hb; reflexivity.
  - intros [v [Hv E]]. subst w.
    apply draws_builds with (tuples := [(PyStr k, v)]).
    + constructor; [| constructor].
      exists (SJust (PyStr k)), s. repeat split; [constructor | exact Hv].
    + apply build_dict_str_keys; reflexivity.
Qed.

Lemma draws_builds_fields : forall (k1 k2 : string) (s1 s2 : strategy) (w : value),
    k1 <> k2 ->
    draws (SBuildsDict [(Some (SJust (PyStr k1)), Some s1);
                        (Some (SJust (PyStr k2)), Some s2)]) w <->
    exists v1 v2,
      draws s1 v1 /\ draws s2 v2 /\ w = PyDict [(PyStr k1, v1); (PyStr k2, v2)].
Proof.
  intros k1 k2 s1 s2 w Hne.
  assert (Hd : forall v1 v2,
             build_dict [(PyStr k1, v1); (PyStr k2, v2)] =
             Ok [(PyStr k1, v1); (PyStr k2, v2)]).
  { intros v1 v2. apply build_dict_str_keys; [reflexivity |].
    simpl. rewrite key_eqb_str.
    destruct (String.eqb k1 k2) eqn:E; [| reflexivity].
    apply String.eqb_eq in E. contradiction. }
  split.
  - intro H. inversion H as [| | | | sp tuples d HF Hb | |]; subst.
    inversion HF as [| x1 [a1 v1] l1 l1' [sk1 [sv1 [E1 [Hk1 Hv1]]]] HF1]; subst.
    inversion HF1 as [| x2 [a2 v2] l2 l2' [sk2 [sv2 [E2 [Hk2 Hv2]]]] HF2]; subst.
    inversion HF2; subst. inversion E1; subst. inversion E2; subst.
    simpl in Hk1, Hv1, Hk2, Hv2. inversion Hk1; subst. inversion Hk2; subst.
    exists v1, v2. split; [exact Hv1 |]. split; [exact Hv2 |].
    rewrite Hd in Hb. inversion Hb; reflexivity.
  - intros [v1 [v2 [Hv1 [Hv2 E]]]]. subst w.
    apply draws_builds with (tuples := [(PyStr k1, v1); (PyStr k2, v2)]).
    + constructor; [| constructor; [| constructor]].
      * exists (SJust (PyStr k1)), s1. repeat split; [constructor | exact Hv1].
      * exists (SJust (PyStr k2)), s2. repeat split; [constructor | exact Hv2].
    + apply Hd.
Qed.

(** A pass over two fields, the first of which the pass leaves as it is:
    both orders of the queue give the same record. *)
Lemma two_field_pass : forall (ka kb : string) (va vb vb' : value),
    ka <> kb ->
    (forall r : record, fmap (resolve_leaf r) va = Ok va) ->
    (forall r : record, getitem r ka = Ok va -> fmap (resolve_leaf r) vb = Ok vb') ->
    RecRecord_resolve [(ka, va); (kb, vb)] = Ok [(ka, va); (kb, vb')].
Proof.
  intros ka kb va vb vb' Hne Ha Hb.
  assert (Hab : String.eqb ka kb = false) by (apply String.eqb_neq; exact Hne).
  assert (Hba : String.eqb kb ka = false)
    by (apply String.eqb_neq; intro E; apply Hne; symmetry; exact E).
  unfold RecRecord_resolve.
  destruct (two_field_queue ka kb va vb Hne) as [Hq | Hq]; rewrite Hq.
  - cbn [resolve_queue getitem]. rewrite String.eqb_refl. cbn [bind].
    rewrite Ha. cbn [bind setitem]. rewrite String.eqb_refl.
    cbn [getitem]. rewrite Hab, String.eqb_refl. cbn [bind].
    rewrite (Hb [(ka, va); (kb, vb)]).
    + cbn [bind setitem]. rewrite Hab, String.eqb_refl. reflexivity.
    + cbn [getitem]. rewrite String.eqb_refl. reflexivity.
  - cbn [resolve_queue getitem]. rewrite Hab, String.eqb_refl. cbn [bind].
    rewrite (Hb [(ka, va); (kb, vb)]).
    + cbn [bind setitem]. rewrite Hab, String.eqb_refl.
      cbn [getitem]. rewrite String.eqb_refl. cbn [bind].
      rewrite Ha. cbn [bind setitem]. rewrite String.eqb_refl. reflexivity.
    + cbn [getitem]. rewrite String.eqb_refl. reflexivity.
Qed.

Lemma dependent_bound_leaf : forall (r : record) (ka : string) (va mx : value),
    no_dot ka = true ->
    getitem r ka = Ok va ->
    (forall r' : record, fmap (resolve_leaf r') mx = Ok mx) ->
    fmap (resolve_leaf r) (Range (DefRef ka) mx) =
    Ok (Range (if is_Range va then DefRef ka else va) mx).
Proof.
  intros r ka va mx Hdot Hka Hmx.
  change (fmap (resolve_leaf r) (Range (DefRef ka) mx))
    with (a <- resolve_leaf r (DefRef ka) ;;
          b <- fmap (resolve_leaf r) mx ;; Ok (Range a b)).
  rewrite Hmx.
  change (resolve_leaf r (DefRef ka))
    with (res <- get_deep (as_dict r) ka ;;
          if is_Range res then Ok (DefRef ka) else Ok res).
  rewrite (get_deep_field r ka Hdot), Hka. cbn [bind].
  destruct (is_Range va); reflexivity.
Qed.

Lemma builds_fields_fails : forall (k1 k2 : string) (s1 s2 : strategy),
    k1 <> k2 ->
    fails (SBuildsDict [(Some (SJust (PyStr k1)), Some s1);
                        (Some (SJust (PyStr k2)), Some s2)]) <->
    fails s1 \/ fails s2.
Proof.
  intros k1 k2 s1 s2 Hne. split.
  - intro H.
    inversion H as [| sps sp Hin Hnone | sps sk sv Hin Hsk | sps sk sv Hin Hsv
                    | sps tuples e HF Hb | | | | | |]; subst.
    + destruct Hin as [E | [E | []]]; subst sp;
        destruct Hnone as [Hn | Hn]; discriminate Hn.
    + destruct Hin as [E | [E | []]]; inversion E; subst;
        exfalso; exact (just_safe _ Hsk).
    + destruct Hin as [E | [E | []]]; inversion E; subst; auto.
    + inversion HF as [| x1 [a1 v1] l1 l1' [sk1 [sv1 [E1 [Hk1 Hv1]]]] HF1]; subst.
      inversion HF1 as [| x2 [a2 v2] l2 l2' [sk2 [sv2 [E2 [Hk2 Hv2]]]] HF2];
        subst.
      inversion HF2; subst. inversion E1; subst. inversion E2; subst.
      simpl in Hk1, Hk2. inversion Hk1; subst. inversion Hk2; subst.
      rewrite build_dict_str_keys in Hb; [discriminate Hb | reflexivity |].
      simpl. rewrite key_eqb_str.
      destruct (String.eqb k1 k2) eqn:E; [| reflexivity].
      apply String.eqb_eq in E. contradiction.
  - intros [H | H].
    + apply fails_builds_value
        with (sk := Some (SJust (PyStr k1))) (sv := s1); [left; reflexivity | exact H].
    + apply fails_builds_value
        with (sk := Some (SJust (PyStr k2))) (sv := s2);
        [right; left; reflexivity | exact H].
Qed.

(** X16.  Two fields with dependent bounds: [ka] is a range between two
    integers, and the lower bound of [kb] is a deferred reference to [ka].
    The first pass leaves the reference in place, because it points to a
    [Range]; the first round after the draw of [ka] replaces it by the
    number drawn, and the remaining rounds are idle.  For [lo <= hi], a
    draw can raise exactly when [hi2 < hi]: the round then asks the
    generator library for integers whose minimum, the number drawn for
    [ka], can be above their maximum, which the library rejects.  When
    [hi <= hi2] no draw raises, and the generated dictionaries are exactly
    those with [lo <= ka <= hi] and [ka <= kb <= hi2], in every order of
    the queue. *)
Theorem dependent_ranges_generation : forall (ka kb : string) (lo hi hi2 : Z),
    ka <> kb ->
    no_dot ka = true ->
    lo <= hi ->
    exists s,
      RecRecord_strategize [(ka, Range (PyInt lo) (PyInt hi));
                            (kb, Range (DefRef ka) (PyInt hi2))] = Ok s /\
      (fails s <-> hi2 < hi) /\
      (hi <= hi2 ->
       forall w,
         draws s w <->
         exists x y,
           lo <= x <= hi /\ x <= y <= hi2 /\
           w = PyDict [(PyStr ka, PyInt x); (PyStr kb, PyInt y)]).
Proof.
  intros ka kb lo hi hi2 Hne Hdot Hlohi.
  set (s0 := SBuildsDict
               [(Some (SJust (PyStr ka)), Some (SIntegers (Some lo) (Some hi)));
                (Some (SJust (PyStr kb)),
                 Some (SJust (Range (DefRef ka) (PyInt hi2))))]).
  assert (Hfirst :
            RecRecord_strategize [(ka, Range (PyInt lo) (PyInt hi));
                                  (kb, Range (DefRef ka) (PyInt hi2))] =
            Ok (Nat.iter 8 (fun s => SFlatmap s strategize_round) s0)).
  { unfold RecRecord_strategize.
    rewrite (two_field_pass ka kb (Range (PyInt lo) (PyInt hi))
               (Range (DefRef ka) (PyInt hi2)) (Range (DefRef ka) (PyInt hi2)) Hne).
    - reflexivity.
    - intro r. reflexivity.
    - intros r Hr.
      rewrite (dependent_bound_leaf r ka _ (PyInt hi2) Hdot Hr); reflexivity. }
  assert (Hs0 : forall w,
             draws s0 w <->
             exists x, lo <= x <= hi /\
                       w = PyDict [(PyStr ka, PyInt x);
                                   (PyStr kb, Range (DefRef ka) (PyInt hi2))]).
  { intro w. unfold s0. rewrite (draws_builds_fields ka kb _ _ w Hne). split.
    - intros [v1 [v2 [H1 [H2 E]]]]. inversion H1 as [| lo' hi' z Hz | | | | |]; subst.
      inversion H2; subst. exists z. split; [exact Hz | reflexivity].
    - intros [x [Hx E]]. exists (PyInt x), (Range (DefRef ka) (PyInt hi2)).
      split; [constructor; exact Hx |]. split; [constructor | exact E]. }
  assert (Hround : forall x,
             strategize_round (PyDict [(PyStr ka, PyInt x);
                                       (PyStr kb, Range (DefRef ka) (PyInt hi2))]) =
             Ok (Some (SBuildsDict
                         [(Some (SJust (PyStr ka)), Some (SJust (PyInt x)));
                          (Some (SJust (PyStr kb)),
                           Some (SIntegers (Some x) (Some hi2)))]))).
  { intro x. unfold strategize_round, _resolve_rec_dict.
    change (kwargs (PyDict [(PyStr ka, PyInt x);
                            (PyStr kb, Range (DefRef ka) (PyInt hi2))]))
      with (Ok [(ka, PyInt x); (kb, Range (DefRef ka) (PyInt hi2))]
            : result record).
    cbn [bind].
    rewrite (two_field_pass ka kb (PyInt x)
               (Range (DefRef ka) (PyInt hi2)) (Range (PyInt x) (PyInt hi2)) Hne).
    - reflexivity.
    - intro r. reflexivity.
    - intros r Hr.
      rewrite (dependent_bound_leaf r ka _ (PyInt hi2) Hdot Hr); reflexivity. }
  assert (Hs1 : forall w,
             draws (SFlatmap s0 strategize_round) w <->
             exists x y,
               lo <= x <= hi /\ x <= y <= hi2 /\
               w = PyDict [(PyStr ka, PyInt x); (PyStr kb, PyInt y)]).
  { intro w. split.
    - intro H. inversion H as [| | | | | | s f v s' w' Hv Hf Hw]; subst.
      apply Hs0 in Hv. destruct Hv as [x [Hx E]]. subst v.
      rewrite Hround in Hf. inversion Hf; subst s'.
      apply (draws_builds_fields ka kb _ _ w Hne) in Hw.
      destruct Hw as [v1 [v2 [H1 [H2 E]]]].
      inversion H1; subst. inversion H2 as [| lo' hi' z Hz | | | | |]; subst.
      exists x, z. split; [exact Hx |]. split; [exact Hz | reflexivity].
    - intros [x [y [Hx [Hy E]]]]. subst w.
      apply draws_flatmap
        with (v := PyDict [(PyStr ka, PyInt x);
                           (PyStr kb, Range (DefRef ka) (PyInt hi2))])
             (s' := SBuildsDict
                      [(Some (SJust (PyStr ka)), Some (SJust (PyInt x)));
                       (Some (SJust (PyStr kb)),
                        Some (SIntegers (Some x) (Some hi2)))]).
      + apply Hs0. exists x. split; [exact Hx | reflexivity].
      + apply Hround.
      + apply (draws_builds_fields ka kb _ _ _ Hne).
        exists (PyInt x), (PyInt y).
        split; [constructor |]. split; [constructor; exact Hy | reflexivity]. }
  assert (Hconcrete : forall w,
             draws (SFlatmap s0 strategize_round) w ->
             exists items, w = PyDict items /\ concrete w = true).
  { intros w' Hw'. apply Hs1 in Hw'. destruct Hw' as [x [y [_ [_ E]]]].
    subst w'. eexists. split; [reflexivity |].
    simpl. rewrite key_eqb_str.
    destruct (String.eqb ka kb) eqn:E; [| reflexivity].
    apply String.eqb_eq in E. contradiction. }
  assert (Hs0_fails : fails s0 <-> hi < lo).
  { unfold s0. rewrite (builds_fields_fails ka kb _ _ Hne). split.
    - intros [H | H]; [| exfalso; exact (just_safe _ H)].
      inversion H; subst. assumption.
    - intro H. left. apply fails_integers. exact H. }
  assert (Hround_fails : forall x,
             fails (SBuildsDict
                      [(Some (SJust (PyStr ka)), Some (SJust (PyInt x)));
                       (Some (SJust (PyStr kb)),
                        Some (SIntegers (Some x) (Some hi2)))]) <->
             hi2 < x).
  { intro x. rewrite (builds_fields_fails ka kb _ _ Hne). split.
    - intros [H | H]; [exfalso; exact (just_safe _ H) |].
      inversion H; subst. assumption.
    - intro H. right. apply fails_integers. exact H. }
  assert (Hs1_fails : fails (SFlatmap s0 strategize_round) <-> hi2 < hi).
  { split.
    - intro H.
      inversion H as [| | | | | | | s1 f1 Hsrc | s1 f1 v e Hv He | s1 f1 v Hv He
                      | s1 f1 v s' Hv He Hs']; subst.
      + apply Hs0_fails in Hsrc. lia.
      + apply Hs0 in Hv. destruct Hv as [x [_ E]]. subst v.
        rewrite Hround in He. discriminate He.
      + apply Hs0 in Hv. destruct Hv as [x [_ E]]. subst v.
        rewrite Hround in He. discriminate He.
      + apply Hs0 in Hv. destruct Hv as [x [Hx E]]. subst v.
        rewrite Hround in He. inversion He; subst s'.
        apply Hround_fails in Hs'. lia.
    - intro H.
      apply fails_flatmap_inner
        with (v := PyDict [(PyStr ka, PyInt hi);
                           (PyStr kb, Range (DefRef ka) (PyInt hi2))])
             (s' := SBuildsDict
                      [(Some (SJust (PyStr ka)), Some (SJust (PyInt hi)));
                       (Some (SJust (PyStr kb)),
                        Some (SIntegers (Some hi) (Some hi2)))]).
      + apply Hs0. exists hi. split; [lia | reflexivity].
      + apply Hround.
      + apply Hround_fails. exact H. }
  exists (Nat.iter 8 (fun s => SFlatmap s strategize_round) s0).
  split; [exact Hfirst |].
  change (Nat.iter 8 (fun s => SFlatmap s strategize_round) s0)
    with (Nat.iter 7 (fun s => SFlatmap s strategize_round)
            (SFlatmap s0 strategize_round)).
  split.
  - split.
    + intro H.
      destruct (Z_lt_dec hi2 hi) as [Hlt | Hge2]; [exact Hlt |].
      exfalso.
      apply (rounds_idle_safe (SFlatmap s0 strategize_round) Hconcrete) in H;
        [exact H |].
      intro Hf. apply Hs1_fails in Hf. lia.
    + intro H. apply fails_rounds. apply Hs1_fails. exact H.
  - intros _ w. rewrite <- (Hs1 w).
    apply rounds_idle. exact Hconcrete.
Qed.

(** ** The input contract of a state machine *)

Lemma numeric_bound_number : forall (v : value) (b : Z),
    as_number v = Some b -> numeric_bound v = Some (Some b).
Proof.
  intros v b H. destruct v; simpl in *; try discriminate; rewrite ?H; congruence.
Qed.

Lemma field_number_inv : forall (fk : string) (s : value) (b : Z),
    field_number fk s = Some b ->
    exists its v,
      s = PyDict its /\ dict_lookup (PyStr fk) its = Some v /\
      as_number v = Some b.
Proof.
  intros fk s b H. destruct s; try discriminate. simpl in H.
  match type of H with
  | match dict_lookup ?k ?l with _ => _ end = _ =>
      destruct (dict_lookup k l) as [v |] eqn:Hl; [| discriminate];
        exists l, v; auto
  end.
Qed.

Lemma contract_event_leaf : forall (r : record) (its : dict_items)
                                   (ak fk : string) (v : value),
    no_dot fk = true ->
    dict_lookup (PyStr fk) its = Some v ->
    getitem r "init_state" = Ok (PyDict its) ->
    fmap (resolve_leaf r)
         (PyDict [(PyStr ak, Range PyNone (Ref ("init_state" ++ String "." fk)))]) =
    Ok (PyDict [(PyStr ak, Range PyNone v)]).
Proof.
  intros r its ak fk v Hdot Hl Hr.
  assert (Hget : get_deep (as_dict r) ("init_state" ++ String "." fk) = Ok v).
  { unfold get_deep. rewrite split_app, fold_left_app.
    fold (get_deep (as_dict r) "init_state").
    rewrite (get_deep_field r "init_state" eq_refl), Hr.
    rewrite (split_no_dot fk Hdot). simpl. rewrite Hl. reflexivity. }
  change (fmap (resolve_leaf r)
            (PyDict [(PyStr ak, Range PyNone (Ref ("init_state" ++ String "." fk)))]))
    with (items' <- (v' <- (b' <- get_deep (as_dict r)
                                           ("init_state" ++ String "." fk) ;;
                            Ok (Range PyNone b')) ;;
                     acc' <- dict_setitem (PyStr ak) v' [] ;; Ok acc') ;;
          Ok (PyDict items')).
  rewrite Hget. reflexivity.
Qed.

Lemma contract_state_generation : forall (s : value) (ak fk : string) (b : Z),
    no_dot fk = true ->
    concrete s = true ->
    field_number fk s = Some b ->
    exists c,
      RecRecord_strategize
        [("init_state", s);
         ("event",
          PyDict [(PyStr ak, Range PyNone (Ref ("init_state" ++ String "." fk)))])] =
      Ok c /\
      forall w,
        draws c w <->
        exists a, a <= b /\
                  w = PyDict [(PyStr "init_state", s);
                              (PyStr "event", PyDict [(PyStr ak, PyInt a)])].
Proof.
  intros s ak fk b Hdot Hc Hb.
  assert (Hne : "init_state"%string <> "event"%string) by discriminate.
  destruct (concrete_generates s Hc) as [ss [Hss Hdr]].
  destruct (field_number_inv fk s b Hb) as [its [v [Es [Hl Hv]]]].
  assert (Hpass :
            RecRecord_resolve
              [("init_state", s);
               ("event",
                PyDict [(PyStr ak,
                         Range PyNone (Ref ("init_state" ++ String "." fk)))])] =
            Ok [("init_state", s); ("event", PyDict [(PyStr ak, Range PyNone v)])]).
  { apply two_field_pass; [exact Hne | |].
    - intro r. unfold resolve_leaf. apply plain_fixed. apply concrete_plain.
      exact Hc.
    - intros r Hr. rewrite Es in Hr.
      apply (contract_event_leaf r its ak fk v Hdot Hl Hr). }
  set (s0 := SBuildsDict
               [(Some (SJust (PyStr "init_state")), Some ss);
                (Some (SJust (PyStr "event")),
                 Some (SBuildsDict
                         [(Some (SJust (PyStr ak)),
                           Some (SIntegers None (Some b)))]))]).
  assert (Hs0 : forall w,
             draws s0 w <->
             exists a, a <= b /\
                       w = PyDict [(PyStr "init_state", s);
                                   (PyStr "event", PyDict [(PyStr ak, PyInt a)])]).
  { intro w. unfold s0.
    rewrite (draws_builds_fields "init_state" "event" _ _ w Hne). split.
    - intros [v1 [v2 [H1 [H2 E]]]]. apply Hdr in H1. subst v1.
      apply draws_builds_field in H2. destruct H2 as [u [Hu E2]]. subst v2.
      inversion Hu as [| lo' hi' z Hz | | | | |]; subst.
      exists z. split; [apply Hz | reflexivity].
    - intros [a [Ha E]]. exists s, (PyDict [(PyStr ak, PyInt a)]).
      split; [apply Hdr; reflexivity |]. split; [| exact E].
      apply draws_builds_field. exists (PyInt a).
      split; [| reflexivity]. constructor. split; [exact I | exact Ha]. }
  exists (Nat.iter 8 (fun s => SFlatmap s strategize_round) s0). split.
  - unfold RecRecord_strategize. rewrite Hpass. cbn [bind].
    unfold as_dict. cbn [map fst snd strategize]. unfold Range_strategize.
    rewrite Hss, (numeric_bound_number v b Hv). reflexivity.
  - intro w. rewrite <- (Hs0 w). apply rounds_idle.
    intros w' Hw'. apply Hs0 in Hw'. destruct Hw' as [a [_ E]]. subst w'.
    eexists. split; [reflexivity |].
    simpl. rewrite Hc. reflexivity.
Qed.

Lemma contract_generation :
  forall (state_schema : node) (st : strategy) (ak fk : string),
    no_dot fk = true ->
    strategize_node state_schema = Ok (Some st) ->
    (forall s, draws st s ->
               concrete s = true /\ exists b, field_number fk s = Some b) ->
    exists c,
      SMInputContract_strategize
        state_schema
        (PyDict [(PyStr ak, Range PyNone (Ref ("init_state" ++ String "." fk)))]) =
      Ok (Some c) /\
      forall w,
        draws c w <->
        exists s b a,
          draws st s /\ field_number fk s = Some b /\ a <= b /\
          w = PyDict [(PyStr "init_state", s);
                      (PyStr "event", PyDict [(PyStr ak, PyInt a)])].
Proof.
  intros state_schema st ak fk Hdot Hst Hstates.
  exists (SFlatmap st
            (fun s => strategize_node
                        (RecRecordNode
                           [("init_state", s);
                            ("event",
                             PyDict [(PyStr ak,
                                      Range PyNone
                                            (Ref ("init_state" ++ String "." fk)))])]))).
  split.
  - unfold SMInputContract_strategize. rewrite Hst. reflexivity.
  - intro w. split.
    + intro H. inversion H as [| | | | | | s0 f s s' w' Hs Hf Hw]; subst.
      destruct (Hstates s Hs) as [Hc [b Hb]].
      destruct (contract_state_generation s ak fk b Hdot Hc Hb) as [c [Hgen Hdr]].
      assert (Hf' : (c0 <- RecRecord_strategize
                             [("init_state", s);
                              ("event",
                               PyDict [(PyStr ak,
                                        Range PyNone
                                              (Ref ("init_state" ++ String "." fk)))])] ;;
                     Ok (Some c0)) = Ok (Some s')) by exact Hf.
      rewrite Hgen in Hf'. inversion Hf'; subst s'. apply Hdr in Hw. destruct Hw as [a [Ha E]].
      exists s, b, a. auto.
    + intros [s [b [a [Hs [Hb [Ha E]]]]]].
      destruct (Hstates s Hs) as [Hc _].
      destruct (contract_state_generation s ak fk b Hdot Hc Hb) as [c [Hgen Hdr]].
      apply draws_flatmap with (v := s) (s' := c).
      * exact Hs.
      * change ((c0 <- RecRecord_strategize
                         [("init_state", s);
                          ("event",
                           PyDict [(PyStr ak,
                                    Range PyNone
                                          (Ref ("init_state" ++ String "." fk)))])] ;;
                 Ok (Some c0)) = Ok (Some c)).
        rewrite Hgen. reflexivity.
      * apply Hdr. exists a. auto.
Qed.

(** X17.  The input contract of a transition: a state is drawn from the
    state schema, then the event schema is generated in a record that
    holds the state as [init_state].  With the event schema
    [{ak: Range(max=Ref('init_state.' + fk))}] and states that are concrete
    dictionaries with a number in field [fk], the generated inputs are
    exactly the pairs of a state and an event whose [ak] is an integer not
    above that number. *)
Theorem contract_event_bounded_by_state :
  forall (state_schema : node) (st : strategy) (ak fk : string),
    no_dot fk = true ->
    strategize_node state_schema = Ok (Some st) ->
    (forall s, draws st s ->
               concrete s = true /\ exists b, field_number fk s = Some b) ->
    exists c,
      SMInputContract_strategize
        state_schema
        (PyDict [(PyStr ak, Range PyNone (Ref ("init_state" ++ String "." fk)))]) =
      Ok (Some c) /\
      forall w,
        draws c w <->
        exists s b a,
          draws st s /\ field_number fk s = Some b /\ a <= b /\
          w = PyDict [(PyStr "init_state", s);
                      (PyStr "event", PyDict [(PyStr ak, PyInt a)])].
Proof.
  exact contract_generation.
Qed.

(** ** The credit contract of example.py *)

Lemma list_item_draws : forall (field status : string) (lo hi : Z)
                               (l : list value),
    field <> status ->
    draws (SLists (map strategize
                       [PyDict [(PyStr field, Range (PyInt lo) (PyInt hi));
                                (PyStr status, PyType TBool)]]))
          (PyList l) ->
    Forall (drawn_item field status lo hi) l.
Proof.
  intros field status lo hi l Hne H.
  inversion H as [| | | | | elements vs Hel Hvs |]; subst.
  apply Forall_forall. intros it Hin. rewrite Forall_forall in Hvs.
  destruct (Hvs it Hin) as [s [Hs Hd]].
  destruct Hs as [E | []].
  assert (E' : s = SBuildsDict
                     [(Some (SJust (PyStr field)),
                       Some (SIntegers (Some lo) (Some hi)));
                      (Some (SJust (PyStr status)), Some SBooleans)]).
  { inversion E. reflexivity. }
  subst s. clear E.
  apply (draws_builds_fields field status _ _ it Hne) in Hd.
  destruct Hd as [v1 [v2 [H1 [H2 E]]]].
  inversion H1 as [| lo' hi' z Hz | | | | |]; subst.
  inversion H2; subst.
  exists z. eexists. split; [reflexivity | exact Hz].
Qed.

Lemma drawn_item_plain : forall field status lo hi it,
    field <> status ->
    drawn_item field status lo hi it -> plain it = true.
Proof.
  intros field status lo hi it Hne [n [b [E _]]]. subst it. simpl.
  rewrite key_eqb_str.
  destruct (String.eqb field status) eqn:Es; [| reflexivity].
  apply String.eqb_eq in Es. contradiction.
Qed.

Lemma drawn_item_concrete : forall field status lo hi it,
    field <> status ->
    (forall x, call status x = key_callable status x) ->
    drawn_item field status lo hi it ->
    concrete_item field (PredFn status) it.
Proof.
  intros field status lo hi it Hne Hcall [n [b [E _]]]. subst it.
  assert (Hfs : String.eqb field status = false)
    by (apply String.eqb_neq; exact Hne).
  split.
  - exists n. unfold field_number. cbn [dict_lookup].
    rewrite key_eqb_str, String.eqb_refl. reflexivity.
  - exists (PyBool b). cbn [apply_predicate]. rewrite Hcall.
    unfold key_callable. cbn [dict_lookup].
    rewrite !key_eqb_str, Hfs, String.eqb_refl. reflexivity.
Qed.

Lemma frozen_draw_fixed : forall (r : record) (l : list value),
    forallb plain l = true ->
    forall the_list,
      fmap (resolve_leaf r) (LockedList the_list l) = Ok (Locked l) /\
      fmap (resolve_leaf r) (Locked l) = Ok (Locked l).
Proof.
  intros r l Hl the_list.
  assert (Hm : mapM (fmap (resolve_leaf r)) l = Ok l).
  { apply mapM_fixed. apply Forall_forall. intros x Hx.
    rewrite forallb_forall in Hl. unfold resolve_leaf.
    apply plain_fixed. apply Hl. exact Hx. }
  split.
  - change (fmap (resolve_leaf r) (LockedList the_list l))
      with (l' <- mapM (fmap (resolve_leaf r)) l ;; Ok (Locked l')).
    rewrite Hm. reflexivity.
  - change (fmap (resolve_leaf r) (Locked l))
      with (l' <- mapM (fmap (resolve_leaf r)) l ;; Ok (Locked l')).
    rewrite Hm. reflexivity.
Qed.

(** Over a frozen draw of concrete items the aggregate is their manual
    sum. *)
Lemma aggregate_over_draw : forall (r : record) (lf field p : string)
                                   (items : list value),
    no_dot lf = true ->
    no_dot field = true ->
    getitem r lf = Ok (Locked items) ->
    Forall (concrete_item field (PredFn p)) items ->
    resolve (as_dict r) (DefListAgg AggSum (DefRef lf) (ItemRef field) (PredFn p)) =
    Ok (PyInt (manual_sum field (PredFn p) items)).
Proof.
  intros r lf field p items Hlf Hf Hget Hitems.
  cbn [resolve]. rewrite (get_deep_field r lf Hlf), Hget.
  cbn [bind is_Range py_iter].
  destruct (genexp_concrete field (PredFn p) items Hf Hitems) as [vs [Hg Hs]].
  rewrite Hg. unfold apply_agg, sum_gen. cbn [fst snd].
  rewrite Hs. reflexivity.
Qed.

(** Over the [LockedList] object itself the aggregate iterates the source
    list, whose [field] is a [Range]: the sum fails and the node is
    returned. *)
Lemma aggregate_over_source : forall (r : record) (lf field p : string)
                                     (lo hi : Z) (draw : list value),
    no_dot lf = true ->
    no_dot field = true ->
    field <> p ->
    (forall x, call p x = key_callable p x) ->
    getitem r lf =
    Ok (LockedList [PyDict [(PyStr field, Range (PyInt lo) (PyInt hi));
                            (PyStr p, PyType TBool)]] draw) ->
    resolve (as_dict r) (DefListAgg AggSum (DefRef lf) (ItemRef field) (PredFn p)) =
    Ok (DefListAgg AggSum (DefRef lf) (ItemRef field) (PredFn p)).
Proof.
  intros r lf field p lo hi draw Hlf Hf Hne Hcall Hget.
  assert (Hfp : String.eqb field p = false) by (apply String.eqb_neq; exact Hne).
  cbn [resolve]. rewrite (get_deep_field r lf Hlf), Hget.
  cbn [bind is_Range py_iter genexp apply_predicate]. rewrite Hcall.
  unfold key_callable. cbn [dict_lookup].
  rewrite !key_eqb_str, Hfp, String.eqb_refl. cbn [truthy apply_item_resolver].
  unfold get_deep. rewrite (split_no_dot field Hf).
  cbn [fold_left get_step bind dict_get dict_lookup].
  rewrite key_eqb_str, String.eqb_refl. reflexivity.
Qed.

Lemma resolve_Sub : forall d a b x y,
    resolve d a = Ok x ->
    resolve d b = Ok y ->
    resolve d (Sub a b) =
    match py_sub x y with
    | Ok res => Ok res
    | Raise _ => Ok (Sub a b)
    end.
Proof.
  intros d a b x y Ha Hb. cbn [resolve]. rewrite Ha, Hb. reflexivity.
Qed.

Lemma balance_node_eq :
  balance_node =
  Sub (DefListAgg AggSum (DefRef "charges") (ItemRef "amount")
                  (PredFn "charge_status"))
      (DefListAgg AggSum (DefRef "payments") (ItemRef "amount")
                  (PredFn "payment_status")).
Proof. reflexivity. Qed.

Section credit.
Hypothesis charge_status_call :
  forall x, call "charge_status" x = key_callable "charge_status" x.
Hypothesis payment_status_call :
  forall x, call "payment_status" x = key_callable "payment_status" x.
Variables dp dc : list value.
Hypothesis payments_drawn : Forall (drawn_item "amount" "payment_status" 4 5) dp.
Hypothesis charges_drawn : Forall (drawn_item "amount" "charge_status" 10 20) dc.

Lemma payments_plain : forallb plain dp = true.
Proof.
  apply forallb_forall. intros it Hin. rewrite Forall_forall in payments_drawn.
  apply (drawn_item_plain "amount" "payment_status" 4 5 it);
    [discriminate | auto].
Qed.

Lemma charges_plain : forallb plain dc = true.
Proof.
  apply forallb_forall. intros it Hin. rewrite Forall_forall in charges_drawn.
  apply (drawn_item_plain "amount" "charge_status" 10 20 it);
    [discriminate | auto].
Qed.

Lemma payments_concrete :
  Forall (concrete_item "amount" (PredFn "payment_status")) dp.
Proof.
  apply Forall_forall. intros it Hin. rewrite Forall_forall in payments_drawn.
  apply (drawn_item_concrete "amount" "payment_status" 4 5 it);
    [discriminate | exact payment_status_call | auto].
Qed.

Lemma charges_concrete :
  Forall (concrete_item "amount" (PredFn "charge_status")) dc.
Proof.
  apply Forall_forall. intros it Hin. rewrite Forall_forall in charges_drawn.
  apply (drawn_item_concrete "amount" "charge_status" 10 20 it);
    [discriminate | exact charge_status_call | auto].
Qed.

(** The balance against a record that holds both frozen draws. *)
Lemma balance_resolved : forall r : record,
    getitem r "payments" = Ok (Locked dp) ->
    getitem r "charges" = Ok (Locked dc) ->
    fmap (resolve_leaf r) balance_node = Ok (PyInt (credit_balance dc dp)).
Proof.
  intros r Hp Hc.
  change (fmap (resolve_leaf r) balance_node)
    with (resolve (as_dict r)
            (Sub (DefListAgg AggSum (DefRef "charges") (ItemRef "amount")
                             (PredFn "charge_status"))
                 (DefListAgg AggSum (DefRef "payments") (ItemRef "amount")
                             (PredFn "payment_status")))).
  rewrite (resolve_Sub (as_dict r) _ _ _ _
             (aggregate_over_draw r "charges" "amount" "charge_status" dc
                eq_refl eq_refl Hc charges_concrete)
             (aggregate_over_draw r "payments" "amount" "payment_status" dp
                eq_refl eq_refl Hp payments_concrete)).
  reflexivity.
Qed.

(** The balance against a record in which a [LockedList] object has not
    been replaced by its draw yet. *)
Lemma balance_deferred : forall (r : record) (vp vc : value),
    getitem r "payments" = Ok vp ->
    getitem r "charges" = Ok vc ->
    vp = LockedList payment_schema dp \/ vp = Locked dp ->
    vc = LockedList charge_schema dc \/ vc = Locked dc ->
    vp = LockedList payment_schema dp \/ vc = LockedList charge_schema dc ->
    fmap (resolve_leaf r) balance_node = Ok balance_node.
Proof.
  intros r vp vc Hp Hc Hvp Hvc Hraw.
  assert (Hcn : "amount"%string <> "charge_status"%string) by discriminate.
  assert (Hpn : "amount"%string <> "payment_status"%string) by discriminate.
  change (fmap (resolve_leaf r) balance_node)
    with (resolve (as_dict r)
            (Sub (DefListAgg AggSum (DefRef "charges") (ItemRef "amount")
                             (PredFn "charge_status"))
                 (DefListAgg AggSum (DefRef "payments") (ItemRef "amount")
                             (PredFn "payment_status")))).
  destruct Hvp as [Ep | Ep]; destruct Hvc as [Ec | Ec]; subst vp vc.
  - rewrite (resolve_Sub (as_dict r) _ _ _ _
               (aggregate_over_source r "charges" "amount" "charge_status" 10 20 dc
                  eq_refl eq_refl Hcn charge_status_call Hc)
               (aggregate_over_source r "payments" "amount" "payment_status" 4 5 dp
                  eq_refl eq_refl Hpn payment_status_call Hp)).
    reflexivity.
  - rewrite (resolve_Sub (as_dict r) _ _ _ _
               (aggregate_over_draw r "charges" "amount" "charge_status" dc
                  eq_refl eq_refl Hc charges_concrete)
               (aggregate_over_source r "payments" "amount" "payment_status" 4 5 dp
                  eq_refl eq_refl Hpn payment_status_call Hp)).
    reflexivity.
  - rewrite (resolve_Sub (as_dict r) _ _ _ _
               (aggregate_over_source r "charges" "amount" "charge_status" 10 20 dc
                  eq_refl eq_refl Hcn charge_status_call Hc)
               (aggregate_over_draw r "payments" "amount" "payment_status" dp
                  eq_refl eq_refl Hp payments_concrete)).
    reflexivity.
  - destruct Hraw as [E | E]; discriminate E.
Qed.

Lemma credit_field_payments : forall stepped v,
    credit_field dp dc stepped "payments" v ->
    (stepped = false /\ v = LockedList payment_schema dp) \/ v = Locked dp.
Proof.
  intros stepped v [[_ H] | [[E _] | [E _]]]; [exact H | discriminate E ..].
Qed.

Lemma credit_field_charges : forall stepped v,
    credit_field dp dc stepped "charges" v ->
    (stepped = false /\ v = LockedList charge_schema dc) \/ v = Locked dc.
Proof.
  intros stepped v [[E _] | [[_ H] | [E _]]];
    [discriminate E | exact H | discriminate E].
Qed.

Lemma credit_step : forall (r : record) k v,
    keys r = ["payments"; "charges"; "balance"]%string ->
    (forall k' v', getitem r k' = Ok v' -> credit_field dp dc false k' v') ->
    getitem r k = Ok v ->
    exists v1, fmap (resolve_leaf r) v = Ok v1 /\ credit_field dp dc true k v1.
Proof.
  intros r k v Hks HI Hv.
  destruct (HI k v Hv) as [[Ek Hform] | [[Ek Hform] | [Ek Hform]]]; subst k.
  - exists (Locked dp). split.
    + destruct Hform as [[_ E] | E]; subst v;
        apply (frozen_draw_fixed r dp payments_plain payment_schema).
    + left. split; [reflexivity | right; reflexivity].
  - exists (Locked dc). split.
    + destruct Hform as [[_ E] | E]; subst v;
        apply (frozen_draw_fixed r dc charges_plain charge_schema).
    + right. left. split; [reflexivity | right; reflexivity].
  - destruct Hform as [E | E]; subst v.
    + assert (Hinp : In "payments"%string (keys r))
        by (rewrite Hks; simpl; auto).
      assert (Hinc : In "charges"%string (keys r))
        by (rewrite Hks; simpl; auto).
      destruct (getitem_In r _ Hinp) as [vp Hp].
      destruct (getitem_In r _ Hinc) as [vc Hc].
      pose proof (credit_field_payments false vp (HI _ _ Hp)) as Fp.
      pose proof (credit_field_charges false vc (HI _ _ Hc)) as Fc.
      destruct Fp as [[_ Ep] | Ep].
      * exists balance_node. split.
        -- apply (balance_deferred r vp vc Hp Hc); [left; exact Ep | | left; exact Ep].
           destruct Fc as [[_ Ec] | Ec]; [left | right]; exact Ec.
        -- right. right. split; [reflexivity | left; reflexivity].
      * destruct Fc as [[_ Ec] | Ec].
        -- exists balance_node. split.
           ++ apply (balance_deferred r vp vc Hp Hc);
                [right; exact Ep | left; exact Ec | right; exact Ec].
           ++ right. right. split; [reflexivity | left; reflexivity].
        -- subst vp vc. exists (PyInt (credit_balance dc dp)). split.
           ++ apply (balance_resolved r Hp Hc).
           ++ right. right. split; [reflexivity | right; reflexivity].
    + exists (PyInt (credit_balance dc dp)). split; [reflexivity |].
      right. right. split; [reflexivity | right; reflexivity].
Qed.

Lemma record_of_three : forall (r : record) (k1 k2 k3 : string) (v1 v2 v3 : value),
    keys r = [k1; k2; k3] ->
    k1 <> k2 -> k1 <> k3 -> k2 <> k3 ->
    getitem r k1 = Ok v1 -> getitem r k2 = Ok v2 -> getitem r k3 = Ok v3 ->
    r = [(k1, v1); (k2, v2); (k3, v3)].
Proof.
  intros r k1 k2 k3 v1 v2 v3 Hks H12 H13 H23 G1 G2 G3.
  destruct r as [| [a x] [| [b y] [| [c z] [| ? ?]]]]; try discriminate Hks.
  simpl in Hks. inversion Hks; subst a b c.
  assert (E12 : String.eqb k1 k2 = false) by (apply String.eqb_neq; exact H12).
  assert (E13 : String.eqb k1 k3 = false) by (apply String.eqb_neq; exact H13).
  assert (E23 : String.eqb k2 k3 = false) by (apply String.eqb_neq; exact H23).
  cbn [getitem] in G1, G2, G3.
  rewrite String.eqb_refl in G1. rewrite E12, String.eqb_refl in G2.
  rewrite E13, E23, String.eqb_refl in G3.
  inversion G1; inversion G2; inversion G3; subst. reflexivity.
Qed.

(** The first pass over the state schema replaces the two [LockedList]
    objects by their draws; the balance is computed when its step comes
    after theirs, and is left deferred when not. *)
Lemma credit_first_pass :
  exists b1,
    (b1 = balance_node \/ b1 = PyInt (credit_balance dc dp)) /\
    RecRecord_resolve
      (credit_state_schema (LockedList payment_schema dp)
                           (LockedList charge_schema dc)) =
    Ok [("payments", Locked dp); ("charges", Locked dc); ("balance", b1)].
Proof.
  set (r := credit_state_schema (LockedList payment_schema dp)
                                (LockedList charge_schema dc)).
  assert (Hnd : NoDup (keys r)).
  { simpl. repeat (apply NoDup_cons;
                   [simpl; intuition discriminate |]). apply NoDup_nil. }
  assert (HI : forall k v, getitem r k = Ok v -> credit_field dp dc false k v).
  { intros k v Hg. unfold r, credit_state_schema in Hg. cbn [getitem] in Hg.
    destruct (String.eqb "payments" k) eqn:E1.
    - apply String.eqb_eq in E1. subst k. inversion Hg.
      left. split; [reflexivity | left; split; reflexivity].
    - destruct (String.eqb "charges" k) eqn:E2.
      + apply String.eqb_eq in E2. subst k. inversion Hg.
        right. left. split; [reflexivity | left; split; reflexivity].
      + destruct (String.eqb "balance" k) eqn:E3; [| discriminate Hg].
        apply String.eqb_eq in E3. subst k. inversion Hg.
        right. right. split; [reflexivity | left; reflexivity]. }
  assert (JI : forall k v, credit_field dp dc true k v ->
                           credit_field dp dc false k v).
  { intros k v [[E [[F _] | H]] | [[E [[F _] | H]] | H]]; try discriminate F.
    - left. split; [exact E | right; exact H].
    - right. left. split; [exact E | right; exact H].
    - right. right. exact H. }
  destruct (resolve_queue_invariant
              ["payments"; "charges"; "balance"]%string
              (credit_field dp dc false) (credit_field dp dc true)
              JI credit_step (initial_queue r) r [] eq_refl HI)
    as [r1 [Hr [Hk1 [_ HJ]]]].
  { intros k []. }
  { intros k Hin.
    apply (Permutation_in k (Permutation_sym (initial_queue_perm r Hnd))).
    exact Hin. }
  assert (Hall : forall k, In k (keys r) ->
                           exists v, getitem r1 k = Ok v /\
                                     credit_field dp dc true k v).
  { intros k Hin. apply HJ. simpl.
    apply (Permutation_in k (initial_queue_perm r Hnd)). exact Hin. }
  destruct (Hall "payments"%string) as [vp [Gp Fp]]; [simpl; auto |].
  destruct (Hall "charges"%string) as [vc [Gc Fc]]; [simpl; auto |].
  destruct (Hall "balance"%string) as [vb [Gb Fb]]; [simpl; auto |].
  apply credit_field_payments in Fp. destruct Fp as [[F _] | Ep];
    [discriminate F |].
  apply credit_field_charges in Fc. destruct Fc as [[F _] | Ec];
    [discriminate F |].
  destruct Fb as [[E _] | [[E _] | [_ Eb]]]; try discriminate E.
  subst vp vc. exists vb. split; [exact Eb |].
  unfold RecRecord_resolve. rewrite Hr. f_equal.
  apply (record_of_three r1 "payments" "charges" "balance");
    try assumption; discriminate.
Qed.

Lemma credit_state_concrete :
  NoDup (keys (credit_state dp dc)) /\ concrete_record (credit_state dp dc) = true.
Proof.
  split.
  - simpl. repeat (apply NoDup_cons; [simpl; intuition discriminate |]).
    apply NoDup_nil.
  - unfold concrete_record, credit_state. cbn [forallb snd concrete].
    rewrite payments_plain, charges_plain. reflexivity.
Qed.

(** A round on what the first pass returned gives the state. *)
Lemma credit_round : forall b1,
    b1 = balance_node \/ b1 = PyInt (credit_balance dc dp) ->
    RecRecord_resolve
      [("payments", Locked dp); ("charges", Locked dc); ("balance", b1)] =
    Ok (credit_state dp dc).
Proof.
  intros b1 [E | E]; subst b1.
  - apply (pass_one_deferred
             [("payments", Locked dp); ("charges", Locked dc);
              ("balance", balance_node)]
             "balance" balance_node (PyInt (credit_balance dc dp))).
    + simpl. repeat (apply NoDup_cons; [simpl; intuition discriminate |]).
      apply NoDup_nil.
    + reflexivity.
    + intros k' v' Hne Hg. cbn [getitem] in Hg.
      destruct (String.eqb "payments" k').
      * inversion Hg. apply payments_plain.
      * destruct (String.eqb "charges" k').
        -- inversion Hg. apply charges_plain.
        -- destruct (String.eqb "balance" k') eqn:E3; [| discriminate Hg].
           apply String.eqb_eq in E3. exfalso. apply Hne. symmetry. exact E3.
    + apply balance_resolved; reflexivity.
    + reflexivity.
  - destruct credit_state_concrete as [Hnd Hc].
    apply (concrete_record_fixed (credit_state dp dc) Hnd Hc).
Qed.

(** The generator of the state schema draws the state and nothing else. *)
Lemma credit_state_generation :
  exists st,
    RecRecord_strategize
      (credit_state_schema (LockedList payment_schema dp)
                           (LockedList charge_schema dc)) = Ok st /\
    forall s, draws st s <-> s = as_dict (credit_state dp dc).
Proof.
  destruct credit_first_pass as [b1 [Hb1 Hpass]].
  destruct credit_state_concrete as [Hnd Hc].
  pose proof (concrete_as_dict _ Hnd Hc) as Hcd.
  destruct (concrete_generates _ Hcd) as [sf [Hsf Hdf]].
  set (r1 := [("payments", Locked dp); ("charges", Locked dc); ("balance", b1)]).
  set (s0 := SBuildsDict
               (map (fun kv => (Some (SJust (fst kv)), Some (SJust (snd kv))))
                    [(PyStr "payments", Locked dp); (PyStr "charges", Locked dc);
                     (PyStr "balance", b1)])).
  assert (Hs0 : strategize (as_dict r1) = Some s0).
  { destruct Hb1 as [E | E]; subst b1; reflexivity. }
  assert (Hd0 : forall w, draws s0 w <-> w = as_dict r1).
  { intro w. unfold s0. rewrite draws_builds_just.
    rewrite build_dict_str_keys by reflexivity. split.
    - intros [d [E1 E2]]. inversion E1; subst. reflexivity.
    - intro E. eexists. split; [reflexivity | exact E]. }
  assert (Hround : strategize_round (as_dict r1) = Ok (Some sf)).
  { unfold strategize_round, _resolve_rec_dict. rewrite kwargs_as_dict.
    cbn [bind]. unfold r1. rewrite (credit_round b1 Hb1). cbn [bind].
    rewrite Hsf. reflexivity. }
  assert (Hd1 : forall w,
             draws (SFlatmap s0 strategize_round) w <->
             w = as_dict (credit_state dp dc)).
  { intro w. split.
    - intro H. inversion H as [| | | | | | s f v s' w' Hv Hf Hw]; subst.
      apply Hd0 in Hv. subst v. rewrite Hround in Hf.
      inversion Hf; subst s'. apply Hdf. exact Hw.
    - intro E. subst w.
      apply draws_flatmap with (v := as_dict r1) (s' := sf).
      + apply Hd0. reflexivity.
      + exact Hround.
      + apply Hdf. reflexivity. }
  exists (Nat.iter 8 (fun s => SFlatmap s strategize_round) s0). split.
  - unfold RecRecord_strategize. rewrite Hpass. cbn [bind]. fold r1.
    rewrite Hs0. reflexivity.
  - intro s.
    change (Nat.iter 8 (fun s => SFlatmap s strategize_round) s0)
      with (Nat.iter 7 (fun s => SFlatmap s strategize_round)
              (SFlatmap s0 strategize_round)).
    rewrite <- (Hd1 s). apply rounds_idle.
    intros w Hw. apply Hd1 in Hw. subst w.
    eexists. split; [reflexivity | exact Hcd].
Qed.

End credit.

(** X18.  The contract of example.py.  Whatever the two [LockedList]
    objects drew when they were constructed, and in every order of the
    queues, the generated inputs are exactly the pairs of one state and an
    event: the state holds the two frozen draws and, as [balance], the sum
    of the amounts of the charges whose status is set minus that of the
    payments whose status is set; the [amount] of the event is any integer
    not above this balance.  Every payment drawn has an amount between 4
    and 5 and every charge one between 10 and 20. *)
Theorem credit_contract_inputs : forall payments charges : value,
    (forall x, call "charge_status" x = key_callable "charge_status" x) ->
    (forall x, call "payment_status" x = key_callable "payment_status" x) ->
    LockedList_init payment_schema payments ->
    LockedList_init charge_schema charges ->
    exists dp dc c,
      payments = LockedList payment_schema dp /\
      charges = LockedList charge_schema dc /\
      Forall (drawn_item "amount" "payment_status" 4 5) dp /\
      Forall (drawn_item "amount" "charge_status" 10 20) dc /\
      test_credit_input_contract payments charges = Ok (Some c) /\
      forall w,
        draws c w <->
        exists a,
          a <= credit_balance dc dp /\
          w = PyDict [(PyStr "init_state", as_dict (credit_state dp dc));
                      (PyStr "event", PyDict [(PyStr "amount", PyInt a)])].
Proof.
  intros payments charges Hcs Hps Hp Hc.
  destruct Hp as [dp Hdp]. destruct Hc as [dc Hdc].
  assert (Fp : Forall (drawn_item "amount" "payment_status" 4 5) dp).
  { apply list_item_draws; [discriminate | exact Hdp]. }
  assert (Fc : Forall (drawn_item "amount" "charge_status" 10 20) dc).
  { apply list_item_draws; [discriminate | exact Hdc]. }
  destruct (credit_state_generation Hcs Hps dp dc Fp Fc) as [st [Hst Hdst]].
  destruct (credit_state_concrete dp dc Fp Fc) as [Hnd Hcr].
  destruct (contract_generation
              (RecRecordNode
                 (credit_state_schema (LockedList payment_schema dp)
                                      (LockedList charge_schema dc)))
              st "amount" "balance" eq_refl) as [c [Hc Hdc']].
  { cbn [strategize_node]. rewrite Hst. reflexivity. }
  { intros s Hs. apply Hdst in Hs. subst s. split.
    - apply concrete_as_dict; assumption.
    - exists (credit_balance dc dp). reflexivity. }
  exists dp, dc, c.
  repeat (split; [first [reflexivity | assumption] |]).
  intro w. rewrite (Hdc' w). split.
  - intros [s [b [a [Hs [Hb [Ha E]]]]]]. apply Hdst in Hs. subst s.
    assert (Eb : b = credit_balance dc dp).
    { assert (Hb' : field_number "balance" (as_dict (credit_state dp dc)) =
                    Some (credit_balance dc dp)) by reflexivity.
      rewrite Hb' in Hb. inversion Hb. reflexivity. }
    subst b. exists a. split; [exact Ha | exact E].
  - intros [a [Ha E]].
    exists (as_dict (credit_state dp dc)), (credit_balance dc dp), a.
    split; [apply Hdst; reflexivity |].
    split; [reflexivity |]. split; [exact Ha | exact E].
Qed.

End Resolution.

(** * The properties on concrete records *)

Ltac distinct_strings :=
  repeat (apply NoDup_cons;
          [let H := fresh "H" in
           simpl; intro H;
           repeat (destruct H as [H | H]; [discriminate H |]); exact H |]);
  apply NoDup_nil.

Lemma field_order_perm : forall l, NoDup l -> Permutation l (field_order l).
Proof.
  intros l _. apply Permutation_refl.
Defined.

Lemma reversed_order_perm : forall l, NoDup l -> Permutation l (reversed_order l).
Proof.
  intros l _. apply Permutation_rev.
Defined.

(** C1: a [Ref] whose path crosses a number raises, and so does an [Add]
    over it; on a missing key a [Ref] returns the empty mapping, not
    itself. *)
Lemma resolve_raises_on_non_mapping :
  resolve no_callable no_agg (PyDict [(PyStr "a", PyInt 4)]) (Ref "a.b") =
  Raise AttributeError /\
  resolve no_callable no_agg (PyDict [(PyStr "a", PyInt 4)])
          (Add_init [Ref "a.b"; PyInt 1]) = Raise AttributeError /\
  resolve no_callable no_agg (PyDict [(PyStr "a", PyInt 4)]) (Ref "c") =
  Ok (PyDict []) /\
  ~ (forall d node, is_DeferredVal node = true ->
                    exists v, resolve no_callable no_agg d node = Ok v).
Proof.
  repeat split.
  intro H.
  destruct (H (PyDict [(PyStr "a", PyInt 4)]) (Ref "a.b") eq_refl) as [v Hv].
  discriminate Hv.
Qed.

Lemma resolve_failure_modes_witness :
  resolve no_callable no_agg (PyDict [(PyStr "a", PyInt 4)]) (Ref "c") =
  Ok (PyDict []) /\
  resolve no_callable no_agg (PyDict [(PyStr "a", PyInt 4)])
          (Sub (Ref "a") (Pure (PyInt 1))) = Ok (PyInt 3) /\
  resolve no_callable no_agg (PyDict [(PyStr "a", PyInt 4)])
          (Sub (Ref "a.b") (Pure (PyInt 1))) =
  Ok (Sub (Ref "a.b") (Pure (PyInt 1))) /\
  resolve no_callable no_agg (PyDict [(PyStr "a", PyInt 4)])
          (DefListAgg AggSum (Ref "a") ItemId PredTrue) =
  Ok (DefListAgg AggSum (Ref "a") ItemId PredTrue) /\
  resolve no_callable no_agg (PyDict [(PyStr "a", PyInt 4)])
          (Add [Ref "a"; Pure (PyInt 1)]) = Ok (PyInt 5) /\
  resolve no_callable no_agg (PyDict [(PyStr "a", PyInt 4)])
          (Add [Pure (PyInt 1); Ref "a.b"; Ref "a"]) = Raise AttributeError.
Proof.
  destruct (resolve_failure_modes no_callable no_agg
              (PyDict [(PyStr "a", PyInt 4)]))
    as [_ [[_ [Hsub Hsub_raise]] [[_ [_ [Hagg_raise _]]] [_ [Hmissing
        [Hsum [_ Hfirst]]]]]]].
  assert (Hts : Forall2 (fun t v =>
                           resolve no_callable no_agg
                                   (PyDict [(PyStr "a", PyInt 4)]) t = Ok v)
                        [Ref "a"; Pure (PyInt 1)] [PyInt 4; PyInt 1]).
  { repeat constructor. }
  assert (Hns : Forall2 (fun v n => as_number v = Some n)
                        [PyInt 4; PyInt 1] [4; 1]).
  { repeat constructor. }
  assert (Hpre : Forall2 (fun t v =>
                            resolve no_callable no_agg
                                    (PyDict [(PyStr "a", PyInt 4)]) t = Ok v)
                         [Pure (PyInt 1)] [PyInt 1]).
  { repeat constructor. }
  split; [exact (Hmissing [(PyStr "a", PyInt 4)] "c" eq_refl eq_refl eq_refl) |].
  split; [exact (Hsub (Ref "a") (Pure (PyInt 1)) (PyInt 4) (PyInt 1)
                      eq_refl eq_refl) |].
  split; [exact (Hsub_raise (Ref "a.b") (Pure (PyInt 1)) AttributeError
                            (or_introl eq_refl)) |].
  split; [exact (Hagg_raise AggSum (Ref "a") ItemId PredTrue TypeError
                            (or_intror (ex_intro _ (PyInt 4)
                                          (conj eq_refl eq_refl)))) |].
  split; [exact (Hsum _ _ _ Hts Hns) |].
  exact (Hfirst [Pure (PyInt 1)] (Ref "a.b") [Ref "a"] [PyInt 1] AttributeError
                Hpre eq_refl).
Defined.

(** C4: with the reversed order, a permutation like any other, the queue is
    not in insertion order, and the pass returns another record than it
    does in insertion order. *)
Lemma queue_not_in_insertion_order :
  (forall l, NoDup l -> Permutation l (reversed_order l)) /\
  NoDup (keys [("a", Ref "b"); ("b", Ref "c"); ("c", PyInt 1)]) /\
  initial_queue reversed_order [("a", Ref "b"); ("b", Ref "c"); ("c", PyInt 1)] <>
  keys [("a", Ref "b"); ("b", Ref "c"); ("c", PyInt 1)] /\
  RecRecord_resolve no_callable no_agg reversed_order
    [("a", Ref "b"); ("b", Ref "c"); ("c", PyInt 1)] =
  Ok [("a", PyInt 1); ("b", PyInt 1); ("c", PyInt 1)] /\
  RecRecord_resolve no_callable no_agg field_order
    [("a", Ref "b"); ("b", Ref "c"); ("c", PyInt 1)] =
  Ok [("a", Ref "c"); ("b", PyInt 1); ("c", PyInt 1)].
Proof.
  split; [exact reversed_order_perm |].
  split; [simpl; distinct_strings |].
  split; [discriminate |].
  split; reflexivity.
Qed.

Lemma pass_order_and_write_back_witness :
  Permutation (keys [("a", Ref "b"); ("b", PyInt 1)])
              (initial_queue field_order [("a", Ref "b"); ("b", PyInt 1)]) /\
  RecRecord_resolve no_callable no_agg field_order
    [("a", Ref "b"); ("b", PyInt 1)] =
  (r1 <- resolve_queue no_callable no_agg ["a"] [("a", Ref "b"); ("b", PyInt 1)] ;;
   v <- getitem r1 "b" ;;
   new <- fmap (resolve_leaf no_callable no_agg r1) v ;;
   resolve_queue no_callable no_agg [] (setitem r1 "b" new)).
Proof.
  assert (H : NoDup (keys [("a", Ref "b"); ("b", PyInt 1)])).
  { simpl. distinct_strings. }
  destruct (pass_order_and_write_back no_callable no_agg field_order
              field_order_perm [("a", Ref "b"); ("b", PyInt 1)] H) as [Hp Hq].
  split; [exact Hp | exact (proj1 (Hq ["a"] "b" [] eq_refl))].
Defined.

(** C9: a [Pure] that holds a [Pure] loses one layer in each pass. *)
Lemma nested_Pure_not_idempotent :
  reference_free_record [("a", Pure (Pure (PyInt 3)))] = false /\
  has_deferred (Pure (Pure (PyInt 3))) = true /\
  RecRecord_resolve no_callable no_agg field_order [("a", Pure (Pure (PyInt 3)))] =
  Ok [("a", Pure (PyInt 3))] /\
  RecRecord_resolve no_callable no_agg field_order [("a", Pure (PyInt 3))] =
  Ok [("a", PyInt 3)] /\
  ~ (forall r r1 r2 : record,
        RecRecord_resolve no_callable no_agg field_order r = Ok r1 ->
        RecRecord_resolve no_callable no_agg field_order r1 = Ok r2 ->
        r2 = r1).
Proof.
  repeat split.
  intro H.
  specialize (H [("a", Pure (Pure (PyInt 3)))] [("a", Pure (PyInt 3))]
                [("a", PyInt 3)] eq_refl eq_refl).
  discriminate H.
Qed.

Lemma reference_free_pass_idempotent_witness :
  (forall r1,
      RecRecord_resolve no_callable no_agg field_order
        [("a", Add_init [PyInt 1; PyInt 2]);
         ("b", Range (PyInt 1) (Pure (PyInt 5)));
         ("c", PyDict [(PyStr "x", Sub_init (PyInt 5) (PyStr "y"))])] = Ok r1 ->
      RecRecord_resolve no_callable no_agg field_order r1 = Ok r1) /\
  exists r1,
    RecRecord_resolve no_callable no_agg field_order
      [("a", Add_init [PyInt 1; PyInt 2]);
       ("b", Range (PyInt 1) (Pure (PyInt 5)));
       ("c", PyDict [(PyStr "x", Sub_init (PyInt 5) (PyStr "y"))])] = Ok r1.
Proof.
  destruct (reference_free_pass_idempotent no_callable no_agg field_order
              field_order_perm
              [("a", Add_init [PyInt 1; PyInt 2]);
               ("b", Range (PyInt 1) (Pure (PyInt 5)));
               ("c", PyDict [(PyStr "x", Sub_init (PyInt 5) (PyStr "y"))])]
              eq_refl) as [H1 H2].
  split; [exact H1 |].
  apply H2; [simpl; distinct_strings | reflexivity].
Defined.

(** C5: the chain of depth 3 is fully resolved after 2 passes, in field
    order and in every other order of the queue; in reversed order one pass
    resolves the chain of depth 2. *)
Lemma chain_of_depth_3_resolved_after_2_rounds :
  rounds no_callable no_agg field_order 2
         (chain ["f0"; "f1"; "f2"; "f3"] (PyInt 7)) =
  Ok (all_literal ["f0"; "f1"; "f2"; "f3"] (PyInt 7)) /\
  fully_resolved (all_literal ["f0"; "f1"; "f2"; "f3"] (PyInt 7)) = true /\
  (forall set_order,
      (forall l, NoDup l -> Permutation l (set_order l)) ->
      rounds no_callable no_agg set_order 2
             (chain ["f0"; "f1"; "f2"; "f3"] (PyInt 7)) =
      Ok (all_literal ["f0"; "f1"; "f2"; "f3"] (PyInt 7))) /\
  rounds no_callable no_agg reversed_order 1
         (chain ["f0"; "f1"; "f2"] (PyInt 7)) =
  Ok (all_literal ["f0"; "f1"; "f2"] (PyInt 7)).
Proof.
  split; [reflexivity |]. split; [reflexivity |]. split; [| reflexivity].
  intros set_order Hperm.
  apply (chain_resolved_after no_callable no_agg set_order Hperm).
  - distinct_strings.
  - repeat constructor.
  - reflexivity.
  - simpl. lia.
Qed.

(** C7 on two items, one of them selected. *)
Lemma DefListAgg_sum_is_manual_sum_witness :
  resolve key_callable no_agg
    (as_dict [("items",
               PyList [PyDict [(PyStr "amount", PyInt 12); (PyStr "ok", PyBool true)];
                       PyDict [(PyStr "amount", PyInt 15); (PyStr "ok", PyBool false)]])])
    (DefListAgg_init AggSum "items.amount" (Some "ok")) =
  Ok (PyInt 12).
Proof.
  assert (Hitems : Forall (concrete_item key_callable "amount" (PredFn "ok"))
                     [PyDict [(PyStr "amount", PyInt 12); (PyStr "ok", PyBool true)];
                      PyDict [(PyStr "amount", PyInt 15); (PyStr "ok", PyBool false)]]).
  { repeat constructor; eexists; reflexivity. }
  exact (proj1 (DefListAgg_sum_is_manual_sum key_callable no_agg
           [("items",
             PyList [PyDict [(PyStr "amount", PyInt 12); (PyStr "ok", PyBool true)];
                     PyDict [(PyStr "amount", PyInt 15); (PyStr "ok", PyBool false)]])]
           "items" "amount" (Some "ok") _ _
           eq_refl eq_refl eq_refl (or_introl eq_refl) Hitems)).
Defined.

(** C6 on a list of one element, drawn twice. *)
Lemma LockedList_returns_frozen_draw_witness :
  exists draw,
    LockedList [PyInt 1] [PyInt 1; PyInt 1] = LockedList [PyInt 1] draw /\
    draws (SLists (map strategize [PyInt 1])) (PyList draw) /\
    forall calls, exists outs,
        ll_run calls (LockedList [PyInt 1] [PyInt 1; PyInt 1]) =
        Ok (outs, LockedList [PyInt 1] [PyInt 1; PyInt 1]) /\
        Forall (is_frozen_draw draw) outs.
Proof.
  apply (LockedList_returns_frozen_draw [PyInt 1]).
  constructor. apply draws_lists.
  - repeat constructor; discriminate.
  - repeat constructor;
      (exists (SJust (PyInt 1)); split; [left; reflexivity | constructor]).
Defined.

(** C10: two keys that resolve to the same string leave one entry, and a
    key that resolves to a list raises a type error; in neither case is
    the result the mapping of the entries [(fmap f k, fmap f v)]. *)
Lemma fmap_keys_collapse_or_raise :
  mapped_entries
    (resolve_leaf no_callable no_agg [("a", PyStr "x"); ("b", PyStr "x")])
    [(Ref "a", PyInt 1); (Ref "b", PyInt 2)]
    [(PyStr "x", PyInt 1); (PyStr "x", PyInt 2)] /\
  fmap (resolve_leaf no_callable no_agg [("a", PyStr "x"); ("b", PyStr "x")])
       (PyDict [(Ref "a", PyInt 1); (Ref "b", PyInt 2)]) =
  Ok (PyDict [(PyStr "x", PyInt 2)]) /\
  mapped_entries
    (resolve_leaf no_callable no_agg [("a", PyList [PyInt 1])])
    [(Ref "a", PyInt 1)] [(PyList [PyInt 1], PyInt 1)] /\
  fmap (resolve_leaf no_callable no_agg [("a", PyList [PyInt 1])])
       (PyDict [(Ref "a", PyInt 1)]) = Raise TypeError /\
  ~ (forall f items items',
        mapped_entries f items items' ->
        fmap f (PyDict items) = Ok (PyDict items')).
Proof.
  assert (H1 : mapped_entries
                 (resolve_leaf no_callable no_agg [("a", PyList [PyInt 1])])
                 [(Ref "a", PyInt 1)] [(PyList [PyInt 1], PyInt 1)]).
  { repeat constructor. }
  split; [repeat constructor |]. split; [reflexivity |].
  split; [exact H1 |]. split; [reflexivity |].
  intro H. specialize (H _ _ _ H1). discriminate H.
Qed.

(** C10 on a mapping with a deferred key, and on one whose key resolves to
    a list. *)
Lemma fmap_dict_keys_and_values_witness :
  fmap (resolve_leaf no_callable no_agg [("b", PyStr "k")])
       (PyDict [(PyStr "a", PyInt 1); (Ref "b", Pure (PyInt 2))]) =
  Ok (PyDict [(PyStr "a", PyInt 1); (PyStr "k", PyInt 2)]) /\
  fmap (resolve_leaf no_callable no_agg [("b", PyList [])])
       (PyDict [(PyStr "a", PyInt 1); (Ref "b", Pure (PyInt 2))]) =
  Raise TypeError.
Proof.
  assert (Hm : mapped_entries (resolve_leaf no_callable no_agg [("b", PyStr "k")])
                 [(PyStr "a", PyInt 1); (Ref "b", Pure (PyInt 2))]
                 [(PyStr "a", PyInt 1); (PyStr "k", PyInt 2)]).
  { repeat constructor. }
  assert (Hl : mapped_entries (resolve_leaf no_callable no_agg [("b", PyList [])])
                 [(PyStr "a", PyInt 1); (Ref "b", Pure (PyInt 2))]
                 [(PyStr "a", PyInt 1); (PyList [], PyInt 2)]).
  { repeat constructor. }
  split.
  - exact (proj2 (proj2 (fmap_dict_keys_and_values _ _ _ Hm eq_refl))
                 eq_refl eq_refl).
  - exact (proj1 (proj2 (fmap_dict_keys_and_values _ _ _ Hl eq_refl)) eq_refl).
Defined.

(** C3 in field order. *)
Lemma cyclic_record_returns_references_witness :
  exists s v,
    RecRecord_strategize no_callable no_agg field_order cyclic_record = Ok s /\
    (forall w, draws s w <-> w = v) /\
    (v = PyDict [(PyStr "a", Ref "a"); (PyStr "b", Ref "a")] \/
     v = PyDict [(PyStr "a", Ref "b"); (PyStr "b", Ref "b")]) /\
    has_deferred v = true.
Proof.
  exact (cyclic_record_returns_references no_callable no_agg field_order
           field_order_perm).
Defined.

(** C5 on the chain of depth 2, in field order. *)
Lemma chain_rounds_needed_witness :
  rounds no_callable no_agg field_order 2 (chain ["f0"; "f1"; "f2"] (PyInt 7)) =
  Ok (all_literal ["f0"; "f1"; "f2"] (PyInt 7)) /\
  exists r,
    rounds no_callable no_agg field_order 1 (chain ["f0"; "f1"; "f2"] (PyInt 7)) =
    Ok r /\
    (fully_resolved r = true <-> (List.length ["f0"; "f1"; "f2"] <= 2 ^ 1)%nat).
Proof.
  assert (Hnd : NoDup ["f0"; "f1"; "f2"]) by distinct_strings.
  assert (Hdot : Forall (fun nm => no_dot nm = true) ["f0"; "f1"; "f2"]).
  { repeat constructor. }
  destruct (chain_rounds_needed no_callable no_agg field_order field_order_perm
              ["f0"; "f1"; "f2"] (PyInt 7) Hnd Hdot eq_refl) as [H1 [_ [_ H3]]].
  split; [exact H1 | exact (H3 eq_refl 1%nat)].
Defined.


(** * The further properties on concrete records *)

Lemma get_deep_below_missing_key_witness :
  get_deep (PyDict [(PyStr "a", PyInt 4)]) "c" = Ok (PyDict []) /\
  get_deep (PyDict [(PyStr "a", PyInt 4)]) "c.d.e" = Ok (PyDict []).
Proof.
  exact (get_deep_below_missing_key [(PyStr "a", PyInt 4)] "c" "d.e"
           eq_refl eq_refl).
Defined.

(** X3: the upper bound itself is rejected, a validator without a minimum
    accepts a number above its maximum, and a string raises a type
    error. *)
Lemma Range_call_outcomes_witness :
  Range_call (Some 0) (Some 10) (PyInt 10) = Raise TypeError /\
  Range_call None (Some 10) (PyInt 11) = Ok (PyInt 11) /\
  Range_call (Some 0) None (PyStr "x") = Raise TypeError.
Proof.
  destruct (Range_call_outcomes (Some 0) (Some 10) (PyInt 10)) as [_ [H1 _]].
  destruct (Range_call_outcomes None (Some 10) (PyInt 11)) as [_ [H2 _]].
  destruct (Range_call_outcomes (Some 0) None (PyStr "x")) as [_ [_ H3]].
  split; [| split].
  - apply (proj2 (proj1 (H1 10 eq_refl))).
    split.
    + exists 0. split; [reflexivity | lia].
    + right. exists 10. split; [reflexivity | lia].
  - exact (proj2 (proj2 (H2 11 eq_refl)) eq_refl).
  - exact (H3 eq_refl).
Defined.

Lemma Range_strategize_draws_witness :
  (forall w, draws (Range_strategize (PyInt 1) (PyInt 5)) w <->
             exists z, w = PyInt z /\ in_bounds (Some 1) (Some 5) z) /\
  (forall w, draws (Range_strategize (DefRef "a") (PyInt 5)) w <->
             w = Range (DefRef "a") (PyInt 5)).
Proof.
  split.
  - exact (proj1 (Range_strategize_draws (PyInt 1) (PyInt 5))
                 (Some 1) (Some 5) eq_refl eq_refl).
  - exact (proj2 (Range_strategize_draws (DefRef "a") (PyInt 5))
                 (or_introl eq_refl)).
Defined.

Lemma arithmetic_on_numbers_witness :
  resolve no_callable no_agg (PyDict [(PyStr "a", PyInt 4)])
          (Add_init [Ref "a"; PyInt 1]) = Ok (PyInt 5) /\
  resolve no_callable no_agg (PyDict [(PyStr "a", PyInt 4)])
          (Add_init [Ref "a"; PyStr "x"]) = Ok (Add_init [Ref "a"; PyStr "x"]) /\
  resolve no_callable no_agg (PyDict [(PyStr "a", PyInt 4)])
          (Sub_init (Ref "a") (PyStr "x")) = Ok (Sub_init (Ref "a") (PyStr "x")).
Proof.
  assert (H : Forall2
                (fun t n =>
                   exists v,
                     resolve no_callable no_agg (PyDict [(PyStr "a", PyInt 4)])
                             (pure t) = Ok v /\
                     as_number v = Some n)
                [Ref "a"; PyInt 1] [4; 1]).
  { constructor; [exists (PyInt 4); split; reflexivity |].
    constructor; [exists (PyInt 1); split; reflexivity | constructor]. }
  assert (E : Exists (fun v => as_number v = None) [PyInt 4; PyStr "x"]).
  { right. left. reflexivity. }
  destruct (arithmetic_on_numbers no_callable no_agg
              (PyDict [(PyStr "a", PyInt 4)])) as [H1 [H2 H3]].
  split; [exact (H1 _ _ H) |].
  split; [exact (H2 [Ref "a"; PyStr "x"] _ eq_refl E) |].
  exact (H3 (Ref "a") (PyStr "x") (PyInt 4) (PyStr "x") eq_refl eq_refl).
Defined.

Lemma missing_field_outcomes_witness :
  resolve no_callable no_agg (as_dict [("a", PyInt 4)]) (Ref "c") =
  Ok (PyDict []) /\
  resolve no_callable no_agg (as_dict [("a", PyInt 4)])
          (DefListAgg_init AggSum "c.amount" None) = Ok (PyInt 0).
Proof.
  assert (H : ~ In "c"%string (keys [("a", PyInt 4)])).
  { simpl. intros [E | F]; [discriminate E | exact F]. }
  destruct (missing_field_outcomes no_callable no_agg [("a", PyInt 4)] "c"
              eq_refl H) as [H1 [_ [_ [_ H5]]]].
  split; [exact H1 | exact (H5 "amount"%string None)].
Defined.

Lemma pass_keeps_fields_witness :
  rounds no_callable no_agg reversed_order 2 [("a", Ref "b"); ("b", PyInt 1)] =
  Ok [("a", PyInt 1); ("b", PyInt 1)] /\
  keys [("a", PyInt 1); ("b", PyInt 1)] = keys [("a", Ref "b"); ("b", PyInt 1)].
Proof.
  split; [reflexivity |].
  exact (pass_keeps_fields no_callable no_agg reversed_order 2
           [("a", Ref "b"); ("b", PyInt 1)] [("a", PyInt 1); ("b", PyInt 1)]
           eq_refl).
Defined.

Lemma resolve_rec_dict_of_record_witness :
  _resolve_rec_dict no_callable no_agg field_order
    (PyDict [(PyStr "a", PyInt 1); (PyInt 1, PyInt 2)]) = Raise TypeError.
Proof.
  exact (proj2 (resolve_rec_dict_of_record no_callable no_agg field_order)
               [(PyStr "a", PyInt 1); (PyInt 1, PyInt 2)] eq_refl).
Defined.

Lemma fmap_identity_witness :
  fmap (fun x => Ok x)
       (PyDict [(PyStr "a", PyList [PyInt 1; Range (Ref "b") PyNone])]) =
  Ok (PyDict [(PyStr "a", PyList [PyInt 1; Range (Ref "b") PyNone])]).
Proof.
  exact (fmap_identity
           (PyDict [(PyStr "a", PyList [PyInt 1; Range (Ref "b") PyNone])])
           eq_refl).
Defined.

(** X10: a draw that holds a reference, resolved against one record and
    then against another. *)
Lemma LockedList_fmap_accumulates_witness :
  exists d1 d2,
    mapM (fmap (resolve_leaf no_callable no_agg [("b", Ref "c")])) [Ref "b"] =
    Ok d1 /\
    mapM (fmap (resolve_leaf no_callable no_agg [("c", PyInt 2)])) d1 = Ok d2 /\
    Locked [Ref "c"] = Locked d1 /\
    Locked [PyInt 2] = Locked d2 /\
    LockedList [PyType TInt] [PyInt 2] = LockedList [PyType TInt] d2 /\
    LockedList_resolve (LockedList [PyType TInt] [PyInt 2]) =
    Ok (Locked d2, LockedList [PyType TInt] [PyInt 2]) /\
    LockedList_strategize (LockedList [PyType TInt] [PyInt 2]) =
    Ok (SJust (Locked d2), LockedList [PyType TInt] [PyInt 2]).
Proof.
  exact (LockedList_fmap_accumulates
           (resolve_leaf no_callable no_agg [("b", Ref "c")])
           (resolve_leaf no_callable no_agg [("c", PyInt 2)])
           [PyType TInt] [Ref "b"]
           (Locked [Ref "c"]) (LockedList [PyType TInt] [Ref "c"])
           (Locked [PyInt 2]) (LockedList [PyType TInt] [PyInt 2])
           eq_refl eq_refl).
Defined.

Lemma LockedList_init_draw_from_source_witness :
  exists draw,
    LockedList [PyInt 1] [PyInt 1; PyInt 1] = LockedList [PyInt 1] draw /\
    Forall (fun v => exists x s, In x [PyInt 1] /\ strategize x = Some s /\
                                 draws s v) draw /\
    Forall (fun x => strategize x <> None) [PyInt 1] /\
    ([PyInt 1] = [] -> draw = []).
Proof.
  apply (LockedList_init_draw_from_source [PyInt 1]).
  constructor. apply draws_lists.
  - repeat constructor; discriminate.
  - repeat constructor;
      (exists (SJust (PyInt 1)); split; [left; reflexivity | constructor]).
Defined.

Lemma strategize_never_draws_None_witness :
  strategize (PyDict [(PyStr "a", PyType TInt)]) =
  Some (SBuildsDict [(Some (SJust (PyStr "a")), Some (SIntegers None None))]) /\
  PyDict [(PyStr "a", PyInt 3)] <> PyNone.
Proof.
  split; [reflexivity |].
  assert (H : draws (SBuildsDict [(Some (SJust (PyStr "a")),
                                   Some (SIntegers None None))])
                    (PyDict [(PyStr "a", PyInt 3)])).
  { apply draws_builds with (tuples := [(PyStr "a", PyInt 3)]); [| reflexivity].
    constructor; [| constructor].
    exists (SJust (PyStr "a")), (SIntegers None None).
    split; [reflexivity |]. simpl.
    split; [apply draws_just | apply draws_integers; split; exact I]. }
  exact (strategize_never_draws_None (PyDict [(PyStr "a", PyType TInt)]) _ _
           eq_refl H).
Defined.

Lemma DefListAgg_sum_of_items_witness :
  resolve no_callable no_agg
          (as_dict [("xs", PyList [PyInt 1; PyInt 2; PyBool true])])
          (DefListAgg_init AggSum "xs" None) = Ok (PyInt 4).
Proof.
  assert (H : Forall (fun it =>
                        (exists n, as_number it = Some n) /\
                        (exists b, apply_predicate no_callable PredTrue it = Ok b))
                     [PyInt 1; PyInt 2; PyBool true]).
  { repeat constructor; eexists; reflexivity. }
  exact (DefListAgg_sum_of_items no_callable no_agg
           [("xs", PyList [PyInt 1; PyInt 2; PyBool true])] "xs" None
           (PyList [PyInt 1; PyInt 2; PyBool true])
           [PyInt 1; PyInt 2; PyBool true]
           eq_refl eq_refl eq_refl H).
Defined.

Lemma concrete_record_generates_itself_witness :
  exists s,
    RecRecord_strategize no_callable no_agg reversed_order
      [("a", PyInt 1); ("b", PyDict [(PyStr "c", PyStr "x")])] = Ok s /\
    forall w,
      draws s w <->
      w = as_dict [("a", PyInt 1); ("b", PyDict [(PyStr "c", PyStr "x")])].
Proof.
  assert (H : NoDup (keys [("a", PyInt 1);
                           ("b", PyDict [(PyStr "c", PyStr "x")])])).
  { simpl. distinct_strings. }
  exact (concrete_record_generates_itself no_callable no_agg reversed_order
           reversed_order_perm
           [("a", PyInt 1); ("b", PyDict [(PyStr "c", PyStr "x")])]
           H eq_refl).
Defined.

(** X15 on the record of the first example in the documentation of
    [RecRecord]. *)
Lemma one_hop_reference_resolves_witness :
  RecRecord_resolve no_callable no_agg field_order
    [("container", PyDict [(PyStr "value", PyInt 4)]);
     ("deferred", Ref "container.value")] =
  Ok [("container", PyDict [(PyStr "value", PyInt 4)]); ("deferred", PyInt 4)].
Proof.
  assert (Hnd : NoDup (keys [("container", PyDict [(PyStr "value", PyInt 4)]);
                             ("deferred", Ref "container.value")])).
  { simpl. distinct_strings. }
  assert (Hothers : forall k' v',
             k' <> "deferred"%string ->
             getitem [("container", PyDict [(PyStr "value", PyInt 4)]);
                      ("deferred", Ref "container.value")] k' = Ok v' ->
             plain v' = true).
  { intros k' v' Hne Hg. cbn [getitem] in Hg.
    destruct (String.eqb "container" k').
    - inversion Hg. reflexivity.
    - destruct (String.eqb "deferred" k') eqn:E; [| discriminate Hg].
      apply String.eqb_eq in E. exfalso. apply Hne. symmetry. exact E. }
  exact (proj1 (one_hop_reference_resolves no_callable no_agg field_order
                  field_order_perm
                  [("container", PyDict [(PyStr "value", PyInt 4)]);
                   ("deferred", Ref "container.value")]
                  "deferred" "container.value" (PyInt 4)
                  Hnd eq_refl Hothers eq_refl eq_refl)).
Defined.

(** X16 on the record of the second example in the documentation of
    [RecRecord], and on the same record with 3 as the upper bound of [b],
    which is below the upper bound of [a]. *)
Lemma dependent_ranges_generation_witness :
  (exists s,
      RecRecord_strategize no_callable no_agg field_order
        [("a", Range (PyInt 2) (PyInt 4)); ("b", Range (DefRef "a") (PyInt 10))] =
      Ok s /\
      ~ fails s /\
      forall w,
        draws s w <->
        exists x y,
          2 <= x <= 4 /\ x <= y <= 10 /\
          w = PyDict [(PyStr "a", PyInt x); (PyStr "b", PyInt y)]) /\
  (exists s,
      RecRecord_strategize no_callable no_agg field_order
        [("a", Range (PyInt 2) (PyInt 4)); ("b", Range (DefRef "a") (PyInt 3))] =
      Ok s /\
      fails s).
Proof.
  assert (Hne : "a"%string <> "b"%string) by discriminate.
  assert (Hlohi : 2 <= 4) by lia.
  destruct (dependent_ranges_generation no_callable no_agg field_order
              field_order_perm "a" "b" 2 4 10 Hne eq_refl Hlohi)
    as [s [H1 [H2 H3]]].
  destruct (dependent_ranges_generation no_callable no_agg field_order
              field_order_perm "a" "b" 2 4 3 Hne eq_refl Hlohi)
    as [s' [H1' [H2' _]]].
  split.
  - exists s. split; [exact H1 |]. split.
    + intro Hf. apply H2 in Hf. lia.
    + apply H3. lia.
  - exists s'. split; [exact H1' |]. apply H2'. lia.
Defined.

(** X17 for a state schema that is one concrete state with a balance of
    50. *)
Lemma contract_event_bounded_by_state_witness :
  exists c,
    SMInputContract_strategize no_callable no_agg field_order
      (ValueNode (PyDict [(PyStr "balance", PyInt 50)]))
      (PyDict [(PyStr "amount", Range PyNone (Ref "init_state.balance"))]) =
    Ok (Some c) /\
    forall w,
      draws c w <->
      exists s b a,
        draws (SBuildsDict [(Some (SJust (PyStr "balance")),
                             Some (SJust (PyInt 50)))]) s /\
        field_number "balance" s = Some b /\ a <= b /\
        w = PyDict [(PyStr "init_state", s);
                    (PyStr "event", PyDict [(PyStr "amount", PyInt a)])].
Proof.
  assert (Hstates : forall s,
             draws (SBuildsDict [(Some (SJust (PyStr "balance")),
                                  Some (SJust (PyInt 50)))]) s ->
             concrete s = true /\ exists b, field_number "balance" s = Some b).
  { intros s Hs.
    inversion Hs as [| | | | sp tuples d HF Hb | |]; subst.
    inversion HF as [| x1 [k1 v1] l1 l1' [sk1 [sv1 [E1 [Hk1 Hv1]]]] HF1]; subst.
    inversion HF1; subst. inversion E1; subst.
    simpl in Hk1, Hv1. inversion Hk1; subst. inversion Hv1; subst.
    inversion Hb; subst.
    split; [reflexivity | exists 50; reflexivity]. }
  exact (contract_event_bounded_by_state no_callable no_agg field_order
           field_order_perm
           (ValueNode (PyDict [(PyStr "balance", PyInt 50)]))
           (SBuildsDict [(Some (SJust (PyStr "balance")),
                          Some (SJust (PyInt 50)))])
           "amount" "balance" eq_refl eq_refl Hstates).
Defined.

(** X18 for one payment of 4 and one charge of 12, both with their status
    set. *)
Lemma credit_contract_inputs_witness :
  exists dp dc c,
    LockedList payment_schema
               [PyDict [(PyStr "amount", PyInt 4);
                        (PyStr "payment_status", PyBool true)]] =
    LockedList payment_schema dp /\
    LockedList charge_schema
               [PyDict [(PyStr "amount", PyInt 12);
                        (PyStr "charge_status", PyBool true)]] =
    LockedList charge_schema dc /\
    Forall (drawn_item "amount" "payment_status" 4 5) dp /\
    Forall (drawn_item "amount" "charge_status" 10 20) dc /\
    test_credit_input_contract key_callable no_agg field_order
      (LockedList payment_schema
                  [PyDict [(PyStr "amount", PyInt 4);
                           (PyStr "payment_status", PyBool true)]])
      (LockedList charge_schema
                  [PyDict [(PyStr "amount", PyInt 12);
                           (PyStr "charge_status", PyBool true)]]) =
    Ok (Some c) /\
    forall w,
      draws c w <->
      exists a,
        a <= credit_balance key_callable dc dp /\
        w = PyDict [(PyStr "init_state",
                     as_dict (credit_state key_callable dp dc));
                    (PyStr "event", PyDict [(PyStr "amount", PyInt a)])].
Proof.
  assert (Hp : LockedList_init payment_schema
                 (LockedList payment_schema
                    [PyDict [(PyStr "amount", PyInt 4);
                             (PyStr "payment_status", PyBool true)]])).
  { constructor. apply draws_lists.
    - repeat constructor; discriminate.
    - constructor; [| constructor].
      eexists. split; [left; reflexivity |].
      apply draws_builds
        with (tuples := [(PyStr "amount", PyInt 4);
                         (PyStr "payment_status", PyBool true)]);
        [| reflexivity].
      constructor; [| constructor; [| constructor]].
      + exists (SJust (PyStr "amount")), (SIntegers (Some 4) (Some 5)).
        split; [reflexivity |]. simpl.
        split; [apply draws_just | apply draws_integers; split; simpl; lia].
      + exists (SJust (PyStr "payment_status")), SBooleans.
        split; [reflexivity |]. simpl.
        split; [apply draws_just | apply draws_booleans]. }
  assert (Hc : LockedList_init charge_schema
                 (LockedList charge_schema
                    [PyDict [(PyStr "amount", PyInt 12);
                             (PyStr "charge_status", PyBool true)]])).
  { constructor. apply draws_lists.
    - repeat constructor; discriminate.
    - constructor; [| constructor].
      eexists. split; [left; reflexivity |].
      apply draws_builds
        with (tuples := [(PyStr "amount", PyInt 12);
                         (PyStr "charge_status", PyBool true)]);
        [| reflexivity].
      constructor; [| constructor; [| constructor]].
      + exists (SJust (PyStr "amount")), (SIntegers (Some 10) (Some 20)).
        split; [reflexivity |]. simpl.
        split; [apply draws_just | apply draws_integers; split; simpl; lia].
      + exists (SJust (PyStr "charge_status")), SBooleans.
        split; [reflexivity |]. simpl.
        split; [apply draws_just | apply draws_booleans]. }
  exact (credit_contract_inputs key_callable no_agg field_order field_order_perm
           _ _ (fun x => eq_refl) (fun x => eq_refl) Hp Hc).
Defined.
